(** * value_and_jacfwd: forward-mode value-and-Jacobian, verified

    A shallow embedding of [src/value_and_jacfwd.py].  The two functions of
    the file, [_jvp] and [value_and_jacfwd] (with its closure [jacfun]), are
    transcribed statement by statement.  The collaborators they import from
    the host framework (the pytree codec, the tracing runtime, the batching
    transformation and the validation helpers) are not part of the file;
    they are modelled below, each under a comment that says where the model
    comes from. *)

From Stdlib Require Import PrimFloat.
From stdpp Require Import base list strings gmap.

Set Default Proof Using "Type".

(** ** Element types *)

Inductive dtype :=
  | bool_ | int32 | int64
  | float32 | float64
  | complex64 | complex128
  | float0.

Global Instance dtype_eq_dec : EqDecision dtype.
Proof. solve_decision. Defined.

Definition is_floating (d : dtype) : bool :=
  match d with float32 | float64 => true | _ => false end.

Definition is_complexfloating (d : dtype) : bool :=
  match d with complex64 | complex128 => true | _ => false end.

Definition is_integer (d : dtype) : bool :=
  match d with int32 | int64 => true | _ => false end.

Definition is_inexact (d : dtype) : bool :=
  is_floating d || is_complexfloating d.

(** Modelled from the spec: [core.primal_dtype_to_tangent_dtype] is imported,
    not defined, by the source.  Section 3 of the specification: inexact
    dtypes map to themselves, integer and boolean dtypes map to the
    zero-sized no-tangent dtype. *)
Definition primal_dtype_to_tangent_dtype (d : dtype) : dtype :=
  if is_inexact d then d else float0.

(** The arithmetic of the array elements.  Every operation receives the
    dtype it works at, so one carrier can stand for all element types; the
    development never assumes an algebraic law of these operations. *)
Class Scalar (S : Type) := {
  s_of_nat : dtype → nat → S;
  s_add : dtype → S → S → S;
  s_mul : dtype → S → S → S;
  s_pow : dtype → S → nat → S;
  s_convert : dtype → dtype → S → S;
}.

(** IEEE binary64 elements, used for the worked examples of the module
    docstring. *)
Fixpoint float_of_nat (n : nat) : float :=
  match n with
  | O => 0%float
  | S n' => (float_of_nat n' + 1)%float
  end.

Fixpoint float_pow (x : float) (n : nat) : float :=
  match n with
  | O => 1%float
  | S O => x
  | S n' => (float_pow x n' * x)%float
  end.

Global Instance float_scalar : Scalar float := {|
  s_of_nat _ n := float_of_nat n;
  s_add _ x y := (x + y)%float;
  s_mul _ x y := (x * y)%float;
  s_pow _ x n := float_pow x n;
  s_convert _ _ x := x;
|}.

(** ** Structured values (pytrees) *)

Inductive node_kind :=
  | KTuple
  | KList
  | KDict (keys : list string)
  | KNone.

Global Instance node_kind_eq_dec : EqDecision node_kind.
Proof. solve_decision. Defined.

Local Unset Elimination Schemes.
Inductive pytree (A : Type) :=
  | Leaf (a : A)
  | Node (k : node_kind) (children : list (pytree A)).
Local Set Elimination Schemes.
Global Arguments Leaf {_} _.
Global Arguments Node {_} _ _.

(** The structural descriptor of a pytree: the tree with its leaves erased. *)
Abbreviation treedef := (pytree ()).

Fixpoint tree_map {A B} (f : A → B) (t : pytree A) : pytree B :=
  match t with
  | Leaf a => Leaf (f a)
  | Node k ch => Node k (tree_map f <$> ch)
  end.

Global Instance pytree_fmap : FMap pytree := @tree_map.

Fixpoint tree_leaves {A} (t : pytree A) : list A :=
  match t with
  | Leaf a => [a]
  | Node _ ch => concat (tree_leaves <$> ch)
  end.

Definition tree_structure {A} (t : pytree A) : treedef :=
  tree_map (λ _, ()) t.

Fixpoint treedef_eqb (t1 t2 : treedef) : bool :=
  match t1, t2 with
  | Leaf _, Leaf _ => true
  | Node k1 c1, Node k2 c2 =>
      bool_decide (k1 = k2) &&
      (fix go (l1 l2 : list treedef) : bool :=
         match l1, l2 with
         | [], [] => true
         | x :: l1', y :: l2' => treedef_eqb x y && go l1' l2'
         | _, _ => false
         end) c1 c2
  | _, _ => false
  end.

(** Substitution of a tree for every leaf: what [tree_map] yields when the
    mapped function itself returns pytrees. *)
Fixpoint tree_bind {A B} (f : A → pytree B) (t : pytree A) : pytree B :=
  match t with
  | Leaf a => f a
  | Node k ch => Node k (tree_bind f <$> ch)
  end.

(** [treedef.compose]: every leaf of [outer] replaced by [inner]. *)
Definition treedef_compose (outer inner : treedef) : treedef :=
  tree_bind (λ _, inner) outer.

(** A Python tuple of pytrees. *)
Abbreviation py_tuple items := (Node KTuple items).

Definition is_tuple_or_list {A} (t : pytree A) : bool :=
  match t with
  | Node KTuple _ | Node KList _ => true
  | _ => false
  end.

(** ** Exceptions *)

Inductive py_exception :=
  | TypeError | ValueError | IndexError | KeyError
  | AssertionError | ZeroDivisionError.

(** What can go wrong while the user's function runs. *)
Inductive fn_error :=
  | NoSuchPositional (i j : nat)
  | NoSuchKeyword (k : string) (j : nat)
  | LaxDtypeMismatch (d1 d2 : dtype)
  | LaxShapeMismatch (s1 s2 : list nat).

Inductive exn :=
  | JvpNotSequence                                   (* _jvp, line 57 *)
  | JvpTreeStructure (td td2 : treedef)              (* _jvp, line 63 *)
  | JvpDtype (primal expected tangent : dtype)       (* _jvp, line 68 *)
  | JvpShape (primal tangent : list nat)             (* _jvp, line 75 *)
  | CheckCallable                                    (* _check_callable *)
  | EnsureIndex                                      (* _ensure_index *)
  | ArgnumsRange (i : nat)                           (* argnums_partial *)
  | CheckInputDtype (d : dtype)                      (* _check_input_dtype_jacfwd *)
  | CheckOutputDtype (d : dtype)                     (* _check_output_dtype_jacfwd *)
  | AuxNotPair                                       (* flatten_fun_nokwargs2 *)
  | UnflattenArity                                   (* tree_unflatten *)
  | SafeZipLength                                    (* safe_zip *)
  | ReshapeSize (have want : nat)                    (* np.reshape *)
  | UnravelScalar                                    (* axis % arr.ndim, ndim = 0 *)
  | CallNotCallable                                  (* calling a non-callable *)
  | TupleIndex (i : nat)                             (* t[i] out of range *)
  | FnRaised (e : fn_error).                         (* raised inside fun *)

Definition exn_class (e : exn) : py_exception :=
  match e with
  | JvpNotSequence | JvpTreeStructure _ _ | JvpDtype _ _ _ => TypeError
  | JvpShape _ _ => ValueError
  | CheckCallable | EnsureIndex => TypeError
  | ArgnumsRange _ => IndexError
  | CheckInputDtype _ | CheckOutputDtype _ | AuxNotPair => TypeError
  | UnflattenArity => ValueError
  | SafeZipLength => AssertionError
  | ReshapeSize _ _ => ValueError
  | UnravelScalar => ZeroDivisionError
  | CallNotCallable => TypeError
  | TupleIndex _ => IndexError
  | FnRaised (NoSuchPositional _ _) => IndexError
  | FnRaised (NoSuchKeyword _ _) => KeyError
  | FnRaised _ => TypeError
  end.

(** The error taxonomy of section 7 of the specification. *)
Inductive spec_error :=
  | ArgumentStructureError
  | DtypeMismatchError
  | ShapeMismatchError
  | InputDtypeError
  | OutputDtypeError
  | NotCallableError.

Definition spec_error_of (e : exn) : option spec_error :=
  match e with
  | JvpNotSequence | JvpTreeStructure _ _ => Some ArgumentStructureError
  | JvpDtype _ _ _ => Some DtypeMismatchError
  | JvpShape _ _ => Some ShapeMismatchError
  | CheckInputDtype _ => Some InputDtypeError
  | CheckOutputDtype _ => Some OutputDtypeError
  | CheckCallable => Some NotCallableError
  | _ => None
  end.

(** A computation that returns or raises. *)
Inductive result (A : Type) :=
  | Ok (a : A)
  | Raise (e : exn).
Global Arguments Ok {_} _.
Global Arguments Raise {_} _.

Global Instance result_ret : MRet result := @Ok.
Global Instance result_bind : MBind result := λ A B f m,
  match m with
  | Ok a => f a
  | Raise e => Raise e
  end.
Global Instance result_fmap : FMap result := λ A B f m,
  match m with
  | Ok a => Ok (f a)
  | Raise e => Raise e
  end.

Definition fails_with {A} (r : result A) (k : spec_error) : Prop :=
  ∃ e, r = Raise e ∧ spec_error_of e = Some k.

(** ** The structured-value codec *)

(** Modelled from the spec: [tree_flatten] is imported by the source.
    Section 2 (component 1) and section 6: flattening gives the ordered
    leaves and the structural descriptor. *)
Definition tree_flatten {A} (t : pytree A) : list A * treedef :=
  (tree_leaves t, tree_structure t).

(** Modelled from the spec: [tree_unflatten] is imported by the source.
    Section 2 (component 1) and section 6: unflattening rebuilds the
    structure from a descriptor and a matching sequence of leaves; a
    sequence of another length does not match. *)
Fixpoint unflatten_go {A} (td : treedef) (xs : list A)
    : option (pytree A * list A) :=
  match td with
  | Leaf _ =>
      match xs with
      | x :: xs' => Some (Leaf x, xs')
      | [] => None
      end
  | Node k ch =>
      '(ts, rest) ← (fix go (ch : list treedef) (xs : list A)
                       : option (list (pytree A) * list A) :=
                       match ch with
                       | [] => Some ([], xs)
                       | c :: ch' =>
                           '(t, xs1) ← unflatten_go c xs;
                           '(ts, xs2) ← go ch' xs1;
                           Some (t :: ts, xs2)
                       end) ch xs;
      Some (Node k ts, rest)
  end.

Definition tree_unflatten {A} (td : treedef) (xs : list A) : result (pytree A) :=
  match unflatten_go td xs with
  | Some (t, []) => Ok t
  | _ => Raise UnflattenArity
  end.

(** Modelled from the spec: [tree_map] is imported by the source; it is the
    codec of sections 2 and 6 around a leaf function.  With an [f] that may
    raise, the tree is flattened, [f] is applied to the leaves in order (the
    first exception propagates), and the results are unflattened with the
    tree's descriptor. *)
Definition tree_mapM {A B} (f : A → result B) (t : pytree A)
    : result (pytree B) :=
  let '(leaves, treedef) := tree_flatten t in
  ys ← mapM f leaves;
  tree_unflatten treedef ys.

(** When [f] returns pytrees, each result stands where its leaf stood. *)
Definition tree_join {A} (t : pytree (pytree A)) : pytree A := tree_bind id t.

Definition tree_bindM {A B} (f : A → result (pytree B)) (t : pytree A)
    : result (pytree B) :=
  tree_join <$> tree_mapM f t.

(** ** Numeric leaves

    A rectangular array: element dtype, shape, and the elements in row-major
    order.  Arrays are taken to carry canonical dtypes, so [_dtype] is the
    dtype field. *)
Record array (S : Type) := Array {
  adtype : dtype;
  ashape : list nat;
  adata : list S;
}.
Global Arguments Array {_} _ _ _.
Global Arguments adtype {_} _.
Global Arguments ashape {_} _.
Global Arguments adata {_} _.

Definition size_of (shape : list nat) : nat := foldr Nat.mul 1 shape.

Definition np_size {S} (a : array S) : nat := size_of (ashape a).

Definition wf_array {S} (a : array S) : Prop := length (adata a) = np_size a.

(** A value seen from inside the batching transformation: an ordinary array,
    or a batch tracer whose underlying array carries the batch along its
    leading axis. *)
Inductive tval (S : Type) :=
  | Concrete (a : array S)
  | BatchTracer (a : array S).
Global Arguments Concrete {_} _.
Global Arguments BatchTracer {_} _.

(** Modelled from the spec: [_dtype] is imported by the source.  Section 3:
    a leaf has one fixed element dtype. *)
Definition _dtype {S} (t : tval S) : dtype :=
  match t with Concrete a | BatchTracer a => adtype a end.

(** Modelled from the spec: [np.shape] is imported by the source.  Section
    3: a leaf has one fixed shape; inside the batching transformation a
    tracer presents the shape of one element of the batch. *)
Definition np_shape {S} (t : tval S) : list nat :=
  match t with
  | Concrete a => ashape a
  | BatchTracer a => tail (ashape a)
  end.

(** A value seen from inside forward-mode differentiation: the primal array
    and its tangent, one row of tangent elements per direction of the
    enclosing batch; [None] is the symbolic zero tangent. *)
Record dual (S : Type) := Dual {
  primal : array S;
  tangent : option (list (list S));
}.
Global Arguments Dual {_} _ _.
Global Arguments primal {_} _.
Global Arguments tangent {_} _.

(** ** User functions

    A traceable function is the pytree it returns, whose leaves are built
    from the leaves of the positional and keyword arguments with the
    runtime's primitive operations. *)
Inductive expr :=
  | Pos (i j : nat)                      (* leaf j of positional argument i *)
  | Kw (k : string) (j : nat)            (* leaf j of keyword argument k *)
  | Full (d : dtype) (shape : list nat) (n : nat)
  | Add (e1 e2 : expr)
  | Mul (e1 e2 : expr)
  | IntegerPow (e : expr) (n : nat)
  | ReduceSum (e : expr)
  | ConvertElementType (e : expr) (d : dtype).

Inductive pyobject :=
  | PyFunction (body : pytree expr)
  | PyOther.

(** [argnums] as passed by the caller, and as [_ensure_index] returns it. *)
Inductive py_argnums :=
  | ArgInt (i : nat)
  | ArgSeq (l : list nat)
  | ArgOther.

Inductive index :=
  | Single (i : nat)
  | Many (l : list nat).

Definition callable (f : pyobject) : bool :=
  match f with
  | PyFunction _ => true
  | PyOther => false
  end.

Section Model.
Context {E : Type} `{!Scalar E}.

(** ** The differentiable runtime

    The runtime that executes user functions and propagates tangents through
    primitive operations is an external collaborator of the source (sections
    1 and 6 of the specification).  The primitives below are the runtime's
    [full], [add], [mul], [integer_pow], [reduce_sum] and
    [convert_element_type], as far as the examples of the docstring and the
    statements need them. *)

Definition full (d : dtype) (shape : list nat) (n : nat) : array E :=
  Array d shape (replicate (size_of shape) (s_of_nat d n)).

Definition zeros (d : dtype) (shape : list nat) : array E := full d shape 0.

Definition lax_binop (op : dtype → E → E → E) (x y : array E)
    : result (array E) :=
  if decide (adtype x = adtype y) then
    if decide (ashape x = ashape y) then
      Ok (Array (adtype x) (ashape x)
            (zip_with (op (adtype x)) (adata x) (adata y)))
    else Raise (FnRaised (LaxShapeMismatch (ashape x) (ashape y)))
  else Raise (FnRaised (LaxDtypeMismatch (adtype x) (adtype y))).

Definition integer_pow (x : array E) (n : nat) : array E :=
  Array (adtype x) (ashape x) ((λ v, s_pow (adtype x) v n) <$> adata x).

Definition sum_elements (d : dtype) (l : list E) : E :=
  foldl (s_add d) (s_of_nat d 0) l.

Definition reduce_sum (x : array E) : array E :=
  Array (adtype x) [] [sum_elements (adtype x) (adata x)].

Definition convert_element_type (x : array E) (d : dtype) : array E :=
  Array d (ashape x) (s_convert (adtype x) d <$> adata x).

Definition lookup_leaf {X} (args : list (pytree X)) (i j : nat) : option X :=
  args !! i ≫= λ arg, tree_leaves arg !! j.

Definition lookup_kwleaf {X} (kwargs : gmap string (pytree X)) (k : string)
    (j : nat) : option X :=
  kwargs !! k ≫= λ arg, tree_leaves arg !! j.

(** Modelled from the spec: the runtime is not part of the source.  Direct
    evaluation, what calling the function on arrays computes: every
    primitive is applied to the values of its operands. *)
Fixpoint eval_expr (args : list (pytree (array E)))
    (kwargs : gmap string (pytree (array E))) (e : expr) : result (array E) :=
  match e with
  | Pos i j =>
      from_option Ok (Raise (FnRaised (NoSuchPositional i j)))
        (lookup_leaf args i j)
  | Kw k j =>
      from_option Ok (Raise (FnRaised (NoSuchKeyword k j)))
        (lookup_kwleaf kwargs k j)
  | Full d shape n => Ok (full d shape n)
  | Add e1 e2 =>
      x ← eval_expr args kwargs e1;
      y ← eval_expr args kwargs e2;
      lax_binop s_add x y
  | Mul e1 e2 =>
      x ← eval_expr args kwargs e1;
      y ← eval_expr args kwargs e2;
      lax_binop s_mul x y
  | IntegerPow e1 n => x ← eval_expr args kwargs e1; Ok (integer_pow x n)
  | ReduceSum e1 => x ← eval_expr args kwargs e1; Ok (reduce_sum x)
  | ConvertElementType e1 d =>
      x ← eval_expr args kwargs e1; Ok (convert_element_type x d)
  end.

(** Tangent arithmetic.  A tangent is [None] (symbolic zero) or one row of
    elements per direction. *)
Definition tangent_dtype (x : array E) : dtype :=
  primal_dtype_to_tangent_dtype (adtype x).

Definition add_tangents (d : dtype) (t1 t2 : option (list (list E)))
    : option (list (list E)) :=
  match t1, t2 with
  | None, None => None
  | Some r, None | None, Some r => Some r
  | Some r1, Some r2 => Some (zip_with (zip_with (s_add d)) r1 r2)
  end.

(** [mul]'s rule: [xdot * y + x * ydot]. *)
Definition mul_jvp (out x y : array E) (xdot ydot : option (list (list E)))
    : option (list (list E)) :=
  let d := tangent_dtype out in
  add_tangents d
    (fmap (M:=list) (λ row, zip_with (s_mul d) row (adata y)) <$> xdot)
    (fmap (M:=list) (λ row, zip_with (s_mul d) (adata x) row) <$> ydot).

(** [integer_pow]'s rule: zeros for exponent 0, else [g * (n * x^(n-1))]. *)
Definition integer_pow_jvp (x : array E) (n : nat) (g : list E) : list E :=
  let d := tangent_dtype x in
  match n with
  | O => (λ _, s_of_nat d 0) <$> g
  | S n' =>
      zip_with (s_mul d) g
        ((λ v, s_mul d (s_of_nat d n) (s_pow d v n')) <$> adata x)
  end.

Definition convert_element_type_jvp (x : array E) (d : dtype)
    (xdot : option (list (list E))) : option (list (list E)) :=
  if decide (primal_dtype_to_tangent_dtype d = float0) then None
  else fmap (M:=list) (fmap (M:=list) (s_convert (tangent_dtype x) d)) <$> xdot.

(** Modelled from the spec: the runtime is not part of the source.
    Section 4.1: the function is evaluated once, and every primitive
    computes its primal output and, by the forward-mode chain rule at the
    primal values, the tangent of that output. *)
Fixpoint jvp_expr (args : list (pytree (dual E)))
    (kwargs : gmap string (pytree (array E))) (e : expr) : result (dual E) :=
  match e with
  | Pos i j =>
      from_option Ok (Raise (FnRaised (NoSuchPositional i j)))
        (lookup_leaf args i j)
  | Kw k j =>
      from_option (λ v, Ok (Dual v None)) (Raise (FnRaised (NoSuchKeyword k j)))
        (lookup_kwleaf kwargs k j)
  | Full d shape n => Ok (Dual (full d shape n) None)
  | Add e1 e2 =>
      x ← jvp_expr args kwargs e1;
      y ← jvp_expr args kwargs e2;
      out ← lax_binop s_add (primal x) (primal y);
      Ok (Dual out (add_tangents (tangent_dtype out) (tangent x) (tangent y)))
  | Mul e1 e2 =>
      x ← jvp_expr args kwargs e1;
      y ← jvp_expr args kwargs e2;
      out ← lax_binop s_mul (primal x) (primal y);
      Ok (Dual out (mul_jvp out (primal x) (primal y) (tangent x) (tangent y)))
  | IntegerPow e1 n =>
      x ← jvp_expr args kwargs e1;
      Ok (Dual (integer_pow (primal x) n)
            (fmap (M:=list) (integer_pow_jvp (primal x) n) <$> tangent x))
  | ReduceSum e1 =>
      x ← jvp_expr args kwargs e1;
      Ok (Dual (reduce_sum (primal x))
            (fmap (M:=list) (λ row, [sum_elements (tangent_dtype (primal x)) row])
               <$> tangent x))
  | ConvertElementType e1 d =>
      x ← jvp_expr args kwargs e1;
      Ok (Dual (convert_element_type (primal x) d)
            (convert_element_type_jvp (primal x) d (tangent x)))
  end.

(** Calling a Python object. *)
Definition py_call (f : pyobject) (args : list (pytree (array E)))
    (kwargs : gmap string (pytree (array E))) : result (pytree (array E)) :=
  match f with
  | PyFunction body => tree_mapM (eval_expr args kwargs) body
  | PyOther => Raise CallNotCallable
  end.

Definition py_call_jvp (f : pyobject) (args : list (pytree (dual E)))
    (kwargs : gmap string (pytree (array E))) : result (pytree (dual E)) :=
  match f with
  | PyFunction body => tree_mapM (jvp_expr args kwargs) body
  | PyOther => Raise CallNotCallable
  end.

(** ** Wrapped functions *)

(** Modelled from the spec: [lu.WrappedFun] is imported by the source.  A
    function, the keyword arguments it was wrapped with, and the fixed
    positional arguments of Select-Args (section 4.5) once they are closed
    over. *)
Record WrappedFun := {
  wf_fun : pyobject;
  wf_kwargs : gmap string (pytree (array E));
  (* the [_argnums_partial] transformation, when one was applied: the
     differentiated positions, and the fixed arguments with a hole at each
     of them *)
  wf_partial : option (list nat * list (option (pytree (array E))));
}.

(** Modelled from the spec: [lu.wrap_init] is imported by the source.  The
    function with the call's keyword arguments bound (section 6: the
    returned function takes the positional and keyword arguments of
    [fun]). *)
Definition wrap_init (f : pyobject) (kwargs : gmap string (pytree (array E)))
    : WrappedFun :=
  {| wf_fun := f; wf_kwargs := kwargs; wf_partial := None |}.

Definition _ensure_index_tuple (x : index) : list nat :=
  match x with
  | Single i => [i]
  | Many l => l
  end.

(** Modelled from the spec: [argnums_partial] is imported by the source.
    Section 4.5, Select-Args: the call's positional arguments are
    partitioned into differentiated and fixed ones; the fixed ones are
    closed over, the differentiated ones are returned as a tuple. *)
Definition argnums_partial (f : WrappedFun) (dyn_argnums : index)
    (args : list (pytree (array E)))
    : result (WrappedFun * pytree (array E)) :=
  let dyn_argnums := _ensure_index_tuple dyn_argnums in
  let fixed_args :=
    imap (λ i arg, if bool_decide (i ∈ dyn_argnums) then None else Some arg)
      args in
  dyn_args ← mapM (λ i, from_option Ok (Raise (ArgnumsRange i)) (args !! i))
                dyn_argnums;
  Ok ({| wf_fun := wf_fun f; wf_kwargs := wf_kwargs f;
         wf_partial := Some (dyn_argnums, fixed_args) |},
      Node KTuple dyn_args).

Definition lift_primal (x : array E) : dual E := Dual x None.

(** The positional arguments the wrapped function finally passes on: the
    fixed ones (a hole reads as Python's [None]) with the differentiated ones
    assigned at their positions, in order. *)
Definition fill_args {X} (lift : array E → X)
    (dyn_argnums : list nat) (fixed_args : list (option (pytree (array E))))
    (dyn_args : list (pytree X)) : list (pytree X) :=
  foldl (λ args '(i, arg), <[i := arg]> args)
    (from_option (fmap lift) (Node KNone []) <$> fixed_args)
    (zip dyn_argnums dyn_args).

Definition call_wrapped (f : WrappedFun) (dyn_args : list (pytree (array E)))
    : result (pytree (array E)) :=
  match wf_partial f with
  | Some (dyn_argnums, fixed_args) =>
      py_call (wf_fun f) (fill_args id dyn_argnums fixed_args dyn_args)
        (wf_kwargs f)
  | None => py_call (wf_fun f) dyn_args (wf_kwargs f)
  end.

Definition call_wrapped_jvp (f : WrappedFun) (dyn_args : list (pytree (dual E)))
    : result (pytree (dual E)) :=
  match wf_partial f with
  | Some (dyn_argnums, fixed_args) =>
      py_call_jvp (wf_fun f)
        (fill_args lift_primal dyn_argnums fixed_args dyn_args) (wf_kwargs f)
  | None => py_call_jvp (wf_fun f) dyn_args (wf_kwargs f)
  end.

Definition tuple_items {X} (t : pytree X) : list (pytree X) :=
  match t with
  | Node _ ch => ch
  | Leaf _ => []
  end.

(** Modelled from the spec: [flatten_fun_nokwargs] is imported by the
    source.  The function seen through the codec (section 6): it takes the
    flat leaves of its arguments and returns the flat leaves of its output,
    with the output's descriptor on the side. *)
Definition flatten_fun_nokwargs (f : WrappedFun) (in_tree : treedef)
    (args_flat : list (dual E)) : result (list (dual E) * treedef) :=
  py_args ← tree_unflatten in_tree args_flat;
  ans ← call_wrapped_jvp f (tuple_items py_args);
  Ok (tree_flatten ans).

(** Modelled from the spec: [flatten_fun_nokwargs2] is imported by the
    source.  The same for a function that returns a (primary, auxiliary)
    pair (section 4.1); anything else is rejected. *)
Definition flatten_fun_nokwargs2 (f : WrappedFun) (in_tree : treedef)
    (args_flat : list (dual E))
    : result ((list (dual E) * list (dual E)) * (treedef * treedef)) :=
  py_args ← tree_unflatten in_tree args_flat;
  pair ← call_wrapped_jvp f (tuple_items py_args);
  if is_tuple_or_list pair then
    match tuple_items pair with
    | [ans; aux] =>
        Ok ((tree_leaves ans, tree_leaves aux),
            (tree_structure ans, tree_structure aux))
    | _ => Raise AuxNotPair
    end
  else Raise AuxNotPair.

(** The call that both flat functions make: the wrapped function on the
    unflattened traced arguments.  (Used to state what [_jvp] computes.) *)
Definition traced_call (f : WrappedFun) (in_tree : treedef)
    (args_flat : list (dual E)) : result (pytree (dual E)) :=
  py_args ← tree_unflatten in_tree args_flat;
  call_wrapped_jvp f (tuple_items py_args).

(** ** Tangents across the batching boundary *)

Definition tval_batch (t : tval E) : option nat :=
  match t with
  | BatchTracer a => head (ashape a)
  | Concrete _ => None
  end.

(** The size of the enclosing batch, if a tangent is a batch tracer. *)
Definition batch_dim (ts : list (tval E)) : option nat :=
  head (omap tval_batch ts).

Definition batch_slice (a : array E) (i : nat) : list E :=
  let n := size_of (tail (ashape a)) in
  take n (drop (i * n) (adata a)).

(** One row of tangent elements per direction. *)
Definition tangent_rows (bd : option nat) (t : tval E) : list (list E) :=
  match bd, t with
  | Some D, BatchTracer a => batch_slice a <$> seq 0 D
  | Some D, Concrete a => replicate D (adata a)
  | None, Concrete a | None, BatchTracer a => [adata a]
  end.

(** A tangent of dtype [float0] enters as the symbolic zero. *)
Definition make_dual (bd : option nat) (p : array E) (t : tval E) : dual E :=
  Dual p (if decide (_dtype t = float0) then None
          else Some (tangent_rows bd t)).

(** Symbolic zeros are instantiated on the way out; a tangent that varies
    over the batch leaves as a batch tracer. *)
Definition out_tangent (bd : option nat) (d : dual E) : tval E :=
  let p := primal d in
  match tangent d, bd with
  | None, _ => Concrete (zeros (tangent_dtype p) (ashape p))
  | Some rows, None => Concrete (Array (tangent_dtype p) (ashape p) (concat rows))
  | Some rows, Some D =>
      BatchTracer (Array (tangent_dtype p) (D :: ashape p) (concat rows))
  end.

(** The traced arguments [_jvp] hands to the flat function. *)
Definition traced_args (primals : pytree (array E))
    (tangents : pytree (tval E)) : list (dual E) :=
  zip_with (make_dual (batch_dim (tree_leaves tangents)))
    (tree_leaves primals) (tree_leaves tangents).

(** Modelled from the spec: [ad.jvp] is imported by the source.
    [ad.jvp(flat_fun).call_wrapped(ps_flat, ts_flat)] runs the flat function
    once on the primals paired with their tangents and returns the primal
    outputs and their tangents (section 4.1). *)
Definition ad_jvp (flat_fun : list (dual E) → result (list (dual E) * treedef))
    (ps_flat : list (array E)) (ts_flat : list (tval E))
    : result ((list (array E) * list (tval E)) * treedef) :=
  let bd := batch_dim ts_flat in
  '(outs, out_tree) ← flat_fun (zip_with (make_dual bd) ps_flat ts_flat);
  Ok ((fmap (M:=list) primal outs, fmap (M:=list) (out_tangent bd) outs),
      out_tree).

(** Modelled from the spec: [ad.jvp] is imported by the source.  With
    [has_aux=True] only the primary outputs receive tangents; the auxiliary
    outputs leave with the values of the primal pass (section 4.1). *)
Definition ad_jvp_aux
    (flat_fun : list (dual E) →
                result ((list (dual E) * list (dual E)) * (treedef * treedef)))
    (ps_flat : list (array E)) (ts_flat : list (tval E))
    : result (((list (array E) * list (tval E)) * list (array E))
              * (treedef * treedef)) :=
  let bd := batch_dim ts_flat in
  '((outs, aux), trees) ← flat_fun (zip_with (make_dual bd) ps_flat ts_flat);
  Ok (((fmap (M:=list) primal outs, fmap (M:=list) (out_tangent bd) outs),
       fmap (M:=list) primal aux), trees).

(** ** [_jvp] (source lines 53-90) *)

(** Modelled from the spec: [safe_zip] is imported by the source; it pairs
    two sequences of equal length (section 4.1: primals and tangents of
    equal length). *)
Definition safe_zip {X Y} (xs : list X) (ys : list Y) : result (list (X * Y)) :=
  if decide (length xs = length ys) then Ok (zip xs ys)
  else Raise SafeZipLength.

(** The body of the [for p, t in safe_zip(ps_flat, ts_flat)] loop. *)
Definition check_pair (pt : array E * tval E) : result () :=
  let '(p, t) := pt in
  let p := Concrete p in
  if decide (primal_dtype_to_tangent_dtype (_dtype p) ≠ _dtype t) then
    Raise (JvpDtype (_dtype p) (primal_dtype_to_tangent_dtype (_dtype p))
             (_dtype t))
  else if decide (np_shape p ≠ np_shape t) then
    Raise (JvpShape (np_shape p) (np_shape t))
  else Ok ().

(** What [_jvp] returns: [(y, ydot)], or [((y, ydot), aux)] with
    [has_aux]. *)
Definition jvp_out (has_aux : bool) : Type :=
  if has_aux
  then ((pytree (array E) * pytree (tval E)) * pytree (array E))%type
  else (pytree (array E) * pytree (tval E))%type.

Definition _jvp (fun_ : WrappedFun) (primals : pytree (array E))
    (tangents : pytree (tval E)) (has_aux : bool) : result (jvp_out has_aux) :=
  if negb (is_tuple_or_list primals) || negb (is_tuple_or_list tangents) then
    Raise JvpNotSequence
  else
    let '(ps_flat, tree_def) := tree_flatten primals in
    let '(ts_flat, tree_def_2) := tree_flatten tangents in
    if negb (treedef_eqb tree_def tree_def_2) then
      Raise (JvpTreeStructure tree_def tree_def_2)
    else
      pairs ← safe_zip ps_flat ts_flat;
      _ ← mapM check_pair pairs;
      if has_aux as b return result (jvp_out b) then
        '(((out_primals, out_tangents), aux), (out_tree, aux_tree)) ←
          ad_jvp_aux (flatten_fun_nokwargs2 fun_ tree_def) ps_flat ts_flat;
        y ← tree_unflatten out_tree out_primals;
        ydot ← tree_unflatten out_tree out_tangents;
        aux ← tree_unflatten aux_tree aux;
        Ok ((y, ydot), aux)
      else
        '((out_primals, out_tangents), out_tree) ←
          ad_jvp (flatten_fun_nokwargs fun_ tree_def) ps_flat ts_flat;
        y ← tree_unflatten out_tree out_primals;
        ydot ← tree_unflatten out_tree out_tangents;
        Ok (y, ydot).

(** ** The basis generator *)

(** A sequence of [batch_size] tangent structures, stored as one structure
    whose leaves carry the directions along a leading axis. *)
Record batch := Batch {
  batch_size : nat;
  batch_tree : pytree (array E);
}.

Definition leaf_dof (l : array E) : nat :=
  if decide (tangent_dtype l = float0) then 0 else np_size l.

(** Where each leaf's sub-range of the [D] degrees of freedom starts. *)
Fixpoint offsets_from (o : nat) (widths : list nat) : list nat :=
  match widths with
  | [] => []
  | w :: widths' => o :: offsets_from (o + w) widths'
  end.

Definition one_hot_row (d : dtype) (o n i : nat) : list E :=
  (λ r, if decide (i = o + r) then s_of_nat d 1 else s_of_nat d 0) <$> seq 0 n.

Definition basis_leaf (D o : nat) (l : array E) : array E :=
  let d := tangent_dtype l in
  Array d (D :: ashape l)
    (if decide (d = float0) then replicate (D * np_size l) (s_of_nat d 0)
     else concat ((λ i, one_hot_row d o (np_size l) i) <$> seq 0 D)).

(** Modelled from the spec: [_std_basis] is imported by the source.
    Sections 3 and 4.2: one tangent structure per scalar degree of freedom
    [i] in [0, D), with a single one at flat offset [i] and zeros elsewhere,
    dtype-matched per leaf; leaves in flattened order, offsets within a leaf
    in row-major order; a leaf whose tangent dtype is the no-tangent dtype
    contributes nothing to [D]. *)
Definition _std_basis (pytree_ : pytree (array E)) : result batch :=
  let '(leaves, treedef) := tree_flatten pytree_ in
  let widths := leaf_dof <$> leaves in
  let D := sum_list widths in
  basis ← tree_unflatten treedef
             (zip_with (basis_leaf D) (offsets_from 0 widths) leaves);
  Ok (Batch D basis).

(** ** The batching transformation *)

(** The batch axis moved to the end: the output of [out_axes=-1].  A value
    that does not vary over the batch is broadcast along the new axis. *)
Definition moveaxis_last (D : nat) (t : tval E) : array E :=
  match t with
  | BatchTracer a =>
      let shape := tail (ashape a) in
      Array (adtype a) (shape ++ [D])
        (concat ((λ o, omap (λ i, batch_slice a i !! o) (seq 0 D))
                   <$> seq 0 (size_of shape)))
  | Concrete a =>
      Array (adtype a) (ashape a ++ [D]) (concat (replicate D <$> adata a))
  end.

(** Modelled from the spec: [vmap] is imported by the source.  Section 4.3:
    the mapped function runs once over the whole batch; what does not vary
    with the direction is computed once and stays un-stacked ([out_axes]
    [None]); what varies is stacked along a new trailing axis ([out_axes]
    [-1]). *)
Definition vmap {X Y} (f : pytree (tval E) → result X)
    (out_axes : nat → X → Y) (xs : batch) : result Y :=
  out ← f (BatchTracer <$> batch_tree xs);
  Ok (out_axes (batch_size xs) out).

(** [out_axes=(None, -1)] and [out_axes=((None, -1), None)]. *)
Definition out_axes_plain (D : nat)
    (out : pytree (array E) * pytree (tval E))
    : pytree (array E) * pytree (array E) :=
  (out.1, moveaxis_last D <$> out.2).

Definition out_axes_aux (D : nat)
    (out : (pytree (array E) * pytree (tval E)) * pytree (array E))
    : (pytree (array E) * pytree (array E)) * pytree (array E) :=
  (out_axes_plain D out.1, out.2).

(** ** The Jacobian reassembler *)

(** The rows of a row-major array whose last axis has size [w]. *)
Fixpoint chunks (w n : nat) (l : list E) : list (list E) :=
  match n with
  | O => []
  | S n' => take w l :: chunks w n' (drop w l)
  end.

(** The part of [arr] between offsets [o] and [o + w] of its last axis, which
    has size [D]; [out] is the shape before the last axis. *)
Definition split_part (out : list nat) (D : nat) (arr : array E) (o w : nat)
    : array E :=
  Array (adtype arr) (out ++ [w])
    (concat ((λ row, take w (drop o row)) <$> chunks D (size_of out) (adata arr))).

(** The leaf of the Jacobian for input leaf [l], whose sub-range starts at
    offset [o]: the part, reshaped. *)
Definition jac_part (out : list nat) (D : nat) (arr : array E) (o : nat)
    (l : array E) : array E :=
  Array (adtype arr) (out ++ ashape l)
    (adata (split_part out D arr o (leaf_dof l))).

Definition reshape (x : array E) (shape : list nat) : result (array E) :=
  if decide (np_size x = size_of shape) then
    Ok (Array (adtype x) shape (adata x))
  else Raise (ReshapeSize (np_size x) (size_of shape)).

(** Modelled from the spec: [_unravel_array_into_pytree] is imported by the
    source.  Section 4.4: the trailing axis of size [D] is split into the
    per-leaf sub-ranges of the basis generator's order, and each sub-range
    is reshaped to the output shape followed by the input leaf's shape. *)
Definition _unravel_array_into_pytree (pytree_ : pytree (array E))
    (arr : array E) : result (pytree (array E)) :=
  let '(leaves, treedef) := tree_flatten pytree_ in
  match reverse (ashape arr) with
  | [] => Raise UnravelScalar
  | D :: rev_out =>
      let out := reverse rev_out in
      let widths := leaf_dof <$> leaves in
      let shapes := (λ l, out ++ ashape l) <$> leaves in
      let parts :=
        zip_with (split_part out D arr) (offsets_from 0 widths) widths in
      reshaped_parts ← mapM (λ '(x, shape), reshape x shape) (zip parts shapes);
      tree_unflatten treedef reshaped_parts
  end.

(** Reading a reassembled Jacobian back: the trailing (input) axes of a leaf
    are flattened to one axis in row-major order, which leaves the elements
    where they are, and the flattened leaves are concatenated along that
    axis in leaf order, row by row. *)
Definition flatten_trailing (out : list nat) (j : array E) : nat * list E :=
  (size_of (drop (length out) (ashape j)), adata j).

Fixpoint concat_rows (nrows : nat) (parts : list (nat * list E)) : list E :=
  match nrows with
  | O => []
  | S n =>
      concat ((λ p, take p.1 p.2) <$> parts)
      ++ concat_rows n ((λ p, (p.1, drop p.1 p.2)) <$> parts)
  end.

Definition concatenate_last (d : dtype) (out : list nat)
    (parts : list (nat * list E)) : array E :=
  Array d (out ++ [sum_list parts.*1]) (concat_rows (size_of out) parts).

(** What it means for [block] to be the reassembled Jacobian of the output
    leaf [yl] with respect to the input structure [x], given the driver's
    stacked output [s] for that leaf: [block] has the structure of [x]; each
    of its leaves has the output shape followed by the shape of the input
    leaf; and reading it back gives [s], element for element. *)
Definition reassembled (x : pytree (array E)) (yl s : array E)
    (block : pytree (array E)) : Prop :=
  tree_structure block = tree_structure x ∧
  Forall2 (λ l j, ashape j = ashape yl ++ ashape l)
    (tree_leaves x) (tree_leaves block) ∧
  concatenate_last (adtype s) (ashape yl)
    (flatten_trailing (ashape yl) <$> tree_leaves block) = s.

(** ** Validation helpers *)

(** Modelled from the spec: [_check_callable] is imported by the source.
    Section 4.5, Validate-Callable: a function object that cannot be invoked
    is rejected. *)
Definition _check_callable (fun_ : pyobject) : result () :=
  match fun_ with
  | PyFunction _ => Ok ()
  | PyOther => Raise CheckCallable
  end.

(** Modelled from the spec: [_ensure_index] is imported by the source.
    Sections 4.5 and 6: [argnums] is a single index or an ordered sequence
    of indices. *)
Definition _ensure_index (x : py_argnums) : result index :=
  match x with
  | ArgInt i => Ok (Single i)
  | ArgSeq l => Ok (Many l)
  | ArgOther => Raise EnsureIndex
  end.

(** Modelled from the spec: [_check_input_dtype_jacfwd] is imported by the
    source.  Section 4.5, Validate-Input-Dtypes: a differentiated leaf is
    rejected unless [holomorphic] is set or its dtype is inexact. *)
Definition _check_input_dtype_jacfwd (holomorphic : bool) (x : array E)
    : result () :=
  if holomorphic || is_inexact (adtype x) then Ok ()
  else Raise (CheckInputDtype (adtype x)).

(** Modelled from the spec: [_check_output_dtype_jacfwd] is imported by the
    source.  Section 4.5, Validate-Output-Dtypes: a leaf of the primary
    output is rejected unless [holomorphic] is set or its dtype is inexact
    and real. *)
Definition _check_output_dtype_jacfwd (holomorphic : bool) (x : array E)
    : result () :=
  if holomorphic || is_floating (adtype x) then Ok ()
  else Raise (CheckOutputDtype (adtype x)).

(** ** [value_and_jacfwd] (source lines 93-118) *)

(** Python's [t[i]] on a tuple or list. *)
Definition getitem {X} (t : pytree X) (i : nat) : option (pytree X) :=
  if is_tuple_or_list t then tuple_items t !! i else None.

(** Line 112: [dyn_args[0] if isinstance(argnums, int) else dyn_args]. *)
Definition select_example (argnums : index) (dyn_args : pytree (array E))
    : result (pytree (array E)) :=
  match argnums with
  | Single _ => from_option Ok (Raise (TupleIndex 0)) (getitem dyn_args 0)
  | Many _ => Ok dyn_args
  end.

(** Lines 101-116.  In the branch without [has_aux] the variable [aux]
    stays unbound in the source; it is never read there. *)
Definition jacfun (fun_ : pyobject) (argnums : index)
    (holomorphic has_aux : bool)
    (args : list (pytree (array E))) (kwargs : gmap string (pytree (array E)))
    : result (pytree (array E)) :=
  let f := wrap_init fun_ kwargs in
  '(f_partial, dyn_args) ← argnums_partial f argnums args;
  _ ← tree_mapM (_check_input_dtype_jacfwd holomorphic) dyn_args;
  '((y, jac), aux) ←
    (if has_aux then
       let pushfwd := λ tangents, _jvp f_partial dyn_args tangents true in
       basis ← _std_basis dyn_args;
       vmap pushfwd out_axes_aux basis
     else
       let pushfwd := λ tangents, _jvp f_partial dyn_args tangents false in
       basis ← _std_basis dyn_args;
       '(y, jac) ← vmap pushfwd out_axes_plain basis;
       Ok ((y, jac), Node KNone []));
  _ ← tree_mapM (_check_output_dtype_jacfwd holomorphic) y;
  example_args ← select_example argnums dyn_args;
  if has_aux then
    jacobian ← tree_bindM (_unravel_array_into_pytree example_args) jac;
    Ok (py_tuple [py_tuple [y; aux]; jacobian])
  else
    jacobian ← tree_bindM (_unravel_array_into_pytree example_args) jac;
    Ok (py_tuple [y; jacobian]).

Definition value_and_jacfwd (fun_ : pyobject) (argnums : py_argnums)
    (holomorphic has_aux : bool)
    : result (list (pytree (array E)) → gmap string (pytree (array E)) →
              result (pytree (array E))) :=
  _ ← _check_callable fun_;
  argnums ← _ensure_index argnums;
  Ok (jacfun fun_ argnums holomorphic has_aux).

(** The batched driver of lines 105-110 once [_std_basis(dyn_args)] has
    returned [basis]; the statements about [jacfun] name this stage. *)
Definition run_pushfwd (f_partial : WrappedFun) (dyn_args : pytree (array E))
    (has_aux : bool) (basis : batch)
    : result ((pytree (array E) * pytree (array E)) * pytree (array E)) :=
  if has_aux then
    let pushfwd := λ tangents, _jvp f_partial dyn_args tangents true in
    vmap pushfwd out_axes_aux basis
  else
    let pushfwd := λ tangents, _jvp f_partial dyn_args tangents false in
    '(y, jac) ← vmap pushfwd out_axes_plain basis;
    Ok ((y, jac), Node KNone []).

(** ** Vocabulary of the statements *)

(** A primal leaf and its tangent agree: the tangent has the tangent dtype of
    the primal's dtype, and the primal's shape. *)
Definition pair_ok (pt : array E * tval E) : Prop :=
  primal_dtype_to_tangent_dtype (adtype pt.1) = _dtype pt.2 ∧
  ashape pt.1 = np_shape pt.2.

(** What the loop raises at a pair that does not agree: the dtype is looked
    at first. *)
Definition pair_error (pt : array E * tval E) : exn :=
  if decide (primal_dtype_to_tangent_dtype (adtype pt.1) = _dtype pt.2)
  then JvpShape (ashape pt.1) (np_shape pt.2)
  else JvpDtype (adtype pt.1) (primal_dtype_to_tangent_dtype (adtype pt.1))
         (_dtype pt.2).

Definition pair_error_kind (pt : array E * tval E) : spec_error :=
  if decide (primal_dtype_to_tangent_dtype (adtype pt.1) = _dtype pt.2)
  then ShapeMismatchError
  else DtypeMismatchError.

Global Instance pair_ok_dec (pt : array E * tval E) : Decision (pair_ok pt).
Proof. unfold pair_ok. apply _. Defined.

Definition raises {A} (r : result A) (e : exn) (k : spec_error) : Prop :=
  r = Raise e ∧ spec_error_of e = Some k.

(** The stacked tangent of one traced output: the directions along a new
    trailing axis. *)
Definition stacked (D : nat) (bd : option nat) (d : dual E) : array E :=
  moveaxis_last D (out_tangent bd d).

(** What [fun] returned, split into primary and auxiliary output. *)
Definition split_output {X} (has_aux : bool) (v : pytree X)
    : option (pytree X * pytree X) :=
  if has_aux then
    if is_tuple_or_list v then
      match tuple_items v with
      | [ans; aux] => Some (ans, aux)
      | _ => None
      end
    else None
  else Some (v, Node KNone []).

(** A traced value for a batch of [D] directions: the primal is rectangular
    and the tangent, unless symbolically zero, has one row per direction,
    each with one element per element of the primal. *)
Definition wf_dual (D : nat) (d : dual E) : Prop :=
  wf_array (primal d) ∧
  ∀ rows, tangent d = Some rows →
    length rows = D ∧ Forall (λ row, length row = np_size (primal d)) rows.

Definition wf_tree {X} (P : X → Prop) (t : pytree X) : Prop :=
  Forall P (tree_leaves t).

(** The [i]-th tangent structure of a basis: every leaf at index [i] of its
    leading axis. *)
Definition basis_direction (b : batch) (i : nat) : pytree (tval E) :=
  tree_map
    (λ a, Concrete (Array (adtype a) (tail (ashape a)) (batch_slice a i)))
    (batch_tree b).

(** [s[..., i]]: the array at index [i] of its last axis. *)
Definition last_axis_index (i : nat) (s : array E) : array E :=
  match reverse (ashape s) with
  | [] => s
  | D :: rev_out =>
      let out := reverse rev_out in
      Array (adtype s) out
        (concat ((λ row, take 1 (drop i row))
                   <$> chunks D (size_of out) (adata s)))
  end.

(** A traced value seen along direction [i] of its batch alone. *)
Definition select_direction (i : nat) (d : dual E) : dual E :=
  Dual (primal d) ((λ rows, take 1 (drop i rows)) <$> tangent d).

End Model.

(** * The examples of the module docstring

    [g(x) = (x ** 2).sum()] and [f(x) = ((x ** 2).sum(), x.sum())], applied
    to [np.arange(3) * 1.], with IEEE binary64 elements. *)

Definition docstring_g : pyobject :=
  PyFunction (Leaf (ReduceSum (IntegerPow (Pos 0 0) 2))).

Definition docstring_f : pyobject :=
  PyFunction (py_tuple [Leaf (ReduceSum (IntegerPow (Pos 0 0) 2));
                        Leaf (ReduceSum (Pos 0 0))]).

Definition vector (d : dtype) (l : list float) : pytree (array float) :=
  Leaf (Array d [length l] l).

Definition scalar (d : dtype) (v : float) : pytree (array float) :=
  Leaf (Array d [] [v]).

Definition arange3 (d : dtype) : pytree (array float) :=
  vector d [0; 1; 2]%float.

(** Further inputs at which the theorems below are exercised. *)

(** [lambda x: x[0] * x[1]] on a pair of vectors. *)
Definition product_fn : pyobject := PyFunction (Leaf (Mul (Pos 0 0) (Pos 0 1))).

Definition pair_of_vectors : pytree (array float) :=
  py_tuple [vector float64 [3; 5]%float; vector float64 [7; 11]%float].

(** [lambda x, *, k: x * k]. *)
Definition scale_fn : pyobject :=
  PyFunction (Leaf (Mul (Pos 0 0) (Kw "k" 0))).


(** An integer input, a function with a complex output, an empty input. *)
Definition int_input : pytree (array float) :=
  Leaf (Array int32 [2] [1; 2]%float).

Definition to_complex : pyobject :=
  PyFunction (Leaf (ConvertElementType (Pos 0 0) complex64)).



(** Tangents for direct calls of [_jvp]. *)
Definition tangent_of (d : dtype) (l : list float) : pytree (tval float) :=
  Leaf (Concrete (Array d [length l] l)).

(** [lambda x, y: x * y], and the components of [f] on their own. *)
Definition product2_fn : pyobject :=
  PyFunction (Leaf (Mul (Pos 0 0) (Pos 1 0))).

Definition square_sum : pytree expr :=
  Leaf (ReduceSum (IntegerPow (Pos 0 0) 2)).

Definition plain_sum : pytree expr := Leaf (ReduceSum (Pos 0 0)).

Section Properties.
Context {E : Type} `{!Scalar E}.

(** * Properties *)

(** ** The result monad *)

Lemma bind_Ok {A B} (m : result A) (f : A → result B) (b : B) :
  m ≫= f = Ok b ↔ ∃ a, m = Ok a ∧ f a = Ok b.
Proof.
  destruct m as [a|e]; simpl; split.
  - eauto.
  - intros (a' & [= ->] & ?). done.
  - done.
  - intros (? & [=] & _).
Qed.

Lemma fmap_Ok {A B} (m : result A) (f : A → B) (b : B) :
  f <$> m = Ok b ↔ ∃ a, m = Ok a ∧ b = f a.
Proof.
  destruct m as [a|e]; simpl; split.
  - intros [= <-]. eauto.
  - intros (a' & [= ->] & ->). done.
  - done.
  - intros (? & [=] & _).
Qed.

Lemma bind_Raise {A B} (m : result A) (f : A → result B) (e : exn) :
  m = Raise e → m ≫= f = Raise e.
Proof. by intros ->. Qed.

Lemma mapM_Ok {A B} (f : A → result B) (l : list A) (k : list B) :
  mapM f l = Ok k ↔ Forall2 (λ x y, f x = Ok y) l k.
Proof.
  revert k. induction l as [|x l IH]; intros k; simpl.
  - split.
    + intros [= <-]. constructor.
    + by inversion 1.
  - split.
    + intros (y & Hy & (k' & Hk' & [= <-])%bind_Ok)%bind_Ok.
      constructor; [done|]. by apply IH.
    + inversion 1 as [|? y ? k' Hy Hk']; subst. simpl.
      rewrite Hy. simpl. apply IH in Hk'. by rewrite Hk'.
Qed.

Lemma mapM_Ok_fmap {A B} (f : A → result B) (g : A → B) (l : list A) :
  Forall (λ x, f x = Ok (g x)) l → mapM f l = Ok (g <$> l).
Proof.
  intros H. apply mapM_Ok. induction H; constructor; auto.
Qed.

Lemma mapM_fmap_result {A B C} (f : A → result B) (f' : A → result C)
    (g : B → C) (l : list A) :
  Forall (λ x, g <$> f x = f' x) l →
  fmap (M:=list) g <$> mapM f l = mapM f' l.
Proof.
  induction 1 as [|x l Hx _ IH]; [done|]. simpl.
  rewrite <- Hx, <- IH. destruct (f x); [|done]. simpl.
  destruct (mapM f l); done.
Qed.

(** ** Pytrees and the codec *)

Lemma pytree_ind {A} (P : pytree A → Prop) :
  (∀ a, P (Leaf a)) →
  (∀ k ch, Forall P ch → P (Node k ch)) →
  ∀ t, P t.
Proof.
  intros Hleaf Hnode. fix IH 1. intros [a|k ch]; [apply Hleaf|].
  apply Hnode.
  refine ((fix go (l : list (pytree A)) : Forall P l :=
             match l with
             | [] => Forall_nil_2 _
             | c :: l' => Forall_cons_2 _ _ _ (IH c) (go l')
             end) ch).
Qed.

Lemma tree_map_Node {A B} (f : A → B) k ch :
  tree_map f (Node k ch) = Node k (tree_map f <$> ch).
Proof. done. Qed.

Lemma tree_leaves_Node {A} k (ch : list (pytree A)) :
  tree_leaves (Node k ch) = concat (tree_leaves <$> ch).
Proof. done. Qed.

Lemma tree_structure_Node {A} k (ch : list (pytree A)) :
  tree_structure (Node k ch) = Node k (tree_structure <$> ch).
Proof. done. Qed.

Lemma tree_map_id {A} (t : pytree A) : tree_map id t = t.
Proof.
  induction t as [a|k ch IH] using pytree_ind; [done|].
  rewrite tree_map_Node. f_equal.
  rewrite <- (list_fmap_id ch) at 2. by apply Forall_fmap_ext_1.
Qed.

Lemma tree_map_compose {A B C} (f : A → B) (g : B → C) (t : pytree A) :
  tree_map g (tree_map f t) = tree_map (g ∘ f) t.
Proof.
  induction t as [a|k ch IH] using pytree_ind; [done|].
  rewrite !tree_map_Node. f_equal. rewrite <- list_fmap_compose.
  by apply Forall_fmap_ext_1.
Qed.

Lemma tree_leaves_map {A B} (f : A → B) (t : pytree A) :
  tree_leaves (tree_map f t) = f <$> tree_leaves t.
Proof.
  induction t as [a|k ch IH] using pytree_ind; [done|].
  rewrite tree_map_Node, !tree_leaves_Node.
  induction IH as [|c ch Hc _ IHch]; [done|].
  rewrite !fmap_cons, !concat_cons, fmap_app. by rewrite Hc, IHch.
Qed.

Lemma tree_structure_map {A B} (f : A → B) (t : pytree A) :
  tree_structure (tree_map f t) = tree_structure t.
Proof. unfold tree_structure. by rewrite tree_map_compose. Qed.

Lemma tree_structure_length {A B} (t1 : pytree A) (t2 : pytree B) :
  tree_structure t1 = tree_structure t2 →
  length (tree_leaves t1) = length (tree_leaves t2).
Proof.
  revert t2. induction t1 as [a|k ch IH] using pytree_ind;
    intros [b|k2 ch2]; try done.
  unfold tree_structure. simpl. intros [= _ Hch].
  revert ch2 Hch. induction IH as [|c ch Hc _ IHch]; intros [|c2 ch2];
    try done.
  simpl. intros [= H1 H2]. rewrite !length_app.
  f_equal; [by apply Hc | by apply IHch].
Qed.

(** A pytree is its descriptor together with its leaves. *)
Lemma tree_ext {A} (t1 t2 : pytree A) :
  tree_structure t1 = tree_structure t2 →
  tree_leaves t1 = tree_leaves t2 →
  t1 = t2.
Proof.
  revert t2. induction t1 as [a|k ch IH] using pytree_ind;
    intros [b|k2 ch2]; try done.
  - simpl. by intros _ [= ->].
  - unfold tree_structure. simpl. intros [= -> Hch] Hl. f_equal.
    revert ch2 Hch Hl. induction IH as [|c ch Hc _ IHch]; intros [|c2 ch2];
      try done.
    simpl. intros [= H1 H2] Hl.
    apply app_inj_1 in Hl as [Hl1 Hl2];
      [|by apply tree_structure_length].
    f_equal; [by apply Hc | by apply IHch].
Qed.

Lemma treedef_eqb_eq (t1 t2 : treedef) : treedef_eqb t1 t2 = true ↔ t1 = t2.
Proof.
  revert t2. induction t1 as [[]|k ch IH] using pytree_ind;
    intros [[]|k2 ch2]; simpl; try done.
  rewrite andb_true_iff, bool_decide_eq_true.
  assert ((fix go (l1 l2 : list treedef) : bool :=
             match l1, l2 with
             | [], [] => true
             | x :: l1', y :: l2' => treedef_eqb x y && go l1' l2'
             | _, _ => false
             end) ch ch2 = true ↔ ch = ch2) as ->.
  { revert ch2. induction IH as [|c ch Hc _ IHch]; intros [|c2 ch2];
      try done.
    rewrite andb_true_iff, Hc, IHch. split; [by intros [-> ->]|].
    by intros [= -> ->]. }
  split; [by intros [-> ->]|]. by intros [= -> ->].
Qed.

Lemma unflatten_go_spec {A} (t : pytree A) (rest : list A) :
  unflatten_go (tree_structure t) (tree_leaves t ++ rest) = Some (t, rest).
Proof.
  revert rest. induction t as [a|k ch IH] using pytree_ind; intros rest;
    [done|].
  unfold tree_structure. simpl.
  assert (∀ rest,
    (fix go (ch : list treedef) (xs : list A)
        : option (list (pytree A) * list A) :=
       match ch with
       | [] => Some ([], xs)
       | c :: ch' =>
           '(t, xs1) ← unflatten_go c xs;
           '(ts, xs2) ← go ch' xs1;
           Some (t :: ts, xs2)
       end) (tree_map (λ _, ()) <$> ch) (concat (tree_leaves <$> ch) ++ rest)
    = Some (ch, rest)) as ->; [|done].
  clear rest. induction IH as [|c ch Hc _ IHch]; intros rest; [done|].
  simpl. rewrite <- (assoc_L (++)).
  unfold tree_structure in Hc. rewrite Hc. simpl. by rewrite IHch.
Qed.

Lemma unflatten_go_inv {A} (td : treedef) (xs : list A) t rest :
  unflatten_go td xs = Some (t, rest) →
  tree_structure t = td ∧ xs = tree_leaves t ++ rest.
Proof.
  revert xs t rest. induction td as [[]|k ch IH] using pytree_ind;
    intros xs t rest.
  - simpl. destruct xs; [done|]. by intros [= <- <-].
  - simpl.
    set (go := fix go (ch : list treedef) (xs : list A)
        : option (list (pytree A) * list A) :=
       match ch with
       | [] => Some ([], xs)
       | c :: ch' =>
           '(t, xs1) ← unflatten_go c xs;
           '(ts, xs2) ← go ch' xs1;
           Some (t :: ts, xs2)
       end).
    assert (∀ xs ts rest, go ch xs = Some (ts, rest) →
              tree_structure <$> ts = ch ∧
              xs = concat (tree_leaves <$> ts) ++ rest) as Hgo.
    { clear xs t rest. induction IH as [|c ch Hc _ IHch]; intros xs ts rest.
      - simpl. by intros [= <- <-].
      - simpl. destruct (unflatten_go c xs) as [[t1 xs1]|] eqn:Hq1; [|done].
        simpl. destruct (go ch xs1) as [[ts2 xs2]|] eqn:Hq2; [|done].
        simpl. intros [= <- <-].
        apply Hc in Hq1 as [<- ->]. apply IHch in Hq2 as [<- ->].
        simpl. by rewrite <- (assoc_L (++)). }
    destruct (go ch xs) as [[ts r]|] eqn:Hq; [|done]. simpl.
    intros [= <- <-]. apply Hgo in Hq as [<- ->]. done.
Qed.

Lemma tree_unflatten_Ok {A} (td : treedef) (xs : list A) (t : pytree A) :
  tree_unflatten td xs = Ok t ↔ tree_structure t = td ∧ tree_leaves t = xs.
Proof.
  unfold tree_unflatten. split.
  - destruct (unflatten_go td xs) as [[t' [|]]|] eqn:Hq; try done.
    intros [= ->]. apply unflatten_go_inv in Hq as [? ->].
    by rewrite (right_id_L [] (++)).
  - intros [<- <-]. rewrite <- (right_id_L [] (++) (tree_leaves t)) at 1.
    by rewrite unflatten_go_spec.
Qed.

(** The codec is a bijection per descriptor. *)
Lemma tree_unflatten_flatten {A} (t : pytree A) :
  tree_unflatten (tree_structure t) (tree_leaves t) = Ok t.
Proof. by apply tree_unflatten_Ok. Qed.

(** Replacing the leaves of a tree, given as many new ones. *)
Lemma tree_unflatten_total {A B} (t : pytree A) (xs : list B) :
  length xs = length (tree_leaves t) →
  ∃ t', tree_unflatten (tree_structure t) xs = Ok t'.
Proof.
  revert xs. induction t as [a|k ch IH] using pytree_ind; intros xs.
  - destruct xs as [|x [|]]; try done. intros _. by exists (Leaf x).
  - rewrite tree_leaves_Node. intros Hlen.
    assert (∃ ts : list (pytree B),
              tree_structure <$> ts = tree_structure <$> ch ∧
              concat (tree_leaves <$> ts) = xs) as (ts & Hs & Hl).
    { revert xs Hlen. induction IH as [|c ch Hc _ IHch]; intros xs Hlen.
      - destruct xs; [|done]. by exists [].
      - rewrite fmap_cons, concat_cons, length_app in Hlen.
        destruct (Hc (take (length (tree_leaves c)) xs)) as [t1 H1].
        { rewrite length_take. lia. }
        destruct (IHch (drop (length (tree_leaves c)) xs)) as (ts & H2 & H3).
        { rewrite length_drop. lia. }
        apply tree_unflatten_Ok in H1 as [H1 H1'].
        exists (t1 :: ts). rewrite !fmap_cons, concat_cons.
        rewrite H1, H2, H1', H3. by rewrite take_drop. }
    exists (Node k ts). apply tree_unflatten_Ok. split; [|done].
    rewrite !tree_structure_Node. by f_equal.
Qed.

Lemma tree_mapM_Ok {A B} (f : A → result B) (t : pytree A) (t' : pytree B) :
  tree_mapM f t = Ok t' ↔
  tree_structure t' = tree_structure t ∧
  Forall2 (λ x y, f x = Ok y) (tree_leaves t) (tree_leaves t').
Proof.
  unfold tree_mapM. simpl. rewrite bind_Ok. split.
  - intros (ys & Hys & Hu). apply tree_unflatten_Ok in Hu as [? <-].
    split; [done|]. by apply mapM_Ok.
  - intros [Hs Hl]. exists (tree_leaves t'). split; [by apply mapM_Ok|].
    by apply tree_unflatten_Ok.
Qed.


Lemma tree_unflatten_Raise {A} (td : treedef) (xs : list A) e :
  tree_unflatten td xs = Raise e → e = UnflattenArity.
Proof.
  unfold tree_unflatten.
  destruct (unflatten_go td xs) as [[? [|]]|]; congruence.
Qed.

Lemma tree_unflatten_fmap {A B} (g : A → B) (td : treedef) (xs : list A) :
  tree_unflatten td (g <$> xs) = tree_map g <$> tree_unflatten td xs.
Proof.
  destruct (tree_unflatten td xs) as [t|e] eqn:Hu; simpl.
  - apply tree_unflatten_Ok in Hu as [<- <-]. apply tree_unflatten_Ok.
    by rewrite tree_structure_map, tree_leaves_map.
  - destruct (tree_unflatten td (g <$> xs)) as [t'|e'] eqn:Hu'.
    + apply tree_unflatten_Ok in Hu' as [<- Hl].
      destruct (tree_unflatten_total t' xs) as [t Ht].
      { by rewrite Hl, length_fmap. }
      congruence.
    + apply tree_unflatten_Raise in Hu, Hu'. congruence.
Qed.

Lemma tree_mapM_fmap_result {A B C} (f : A → result B) (f' : A → result C)
    (g : B → C) (t : pytree A) :
  (∀ x, g <$> f x = f' x) →
  tree_map g <$> tree_mapM f t = tree_mapM f' t.
Proof.
  intros H. unfold tree_mapM. simpl.
  rewrite <- (mapM_fmap_result f f' g) by (apply Forall_forall; auto).
  destruct (mapM f (tree_leaves t)) as [ys|e]; simpl; [|done].
  by rewrite tree_unflatten_fmap.
Qed.

(** [mapM] raises the exception of the first element that raises. *)
Lemma mapM_Raise {A B} (f : A → result B) (l : list A) (e : exn) :
  mapM f l = Raise e ↔
  ∃ l1 x l2, l = l1 ++ x :: l2 ∧
             Forall (λ y, ∃ b, f y = Ok b) l1 ∧ f x = Raise e.
Proof.
  induction l as [|y l IH]; simpl.
  - split; [done|]. intros ([|??] & ? & ? & ? & _); done.
  - destruct (f y) as [b|e'] eqn:Hy; simpl.
    + destruct (mapM f l) as [k|e''] eqn:Hl; simpl.
      * split; [done|]. intros (l1 & x & l2 & Hl12 & Hok & Hx).
        destruct l1 as [|y' l1]; simplify_eq/=; [congruence|].
        apply Forall_cons in Hok as [_ Hok].
        assert (Ok k = Raise e) as [=]. { apply IH. eauto 10. }
      * split.
        -- intros [= ->]. destruct IH as [(l1 & x & l2 & -> & ? & ?) _];
             [done|].
           exists (y :: l1), x, l2. split; [done|]. split; [|done].
           constructor; eauto.
        -- intros (l1 & x & l2 & Hl12 & Hok & Hx).
           destruct l1 as [|y' l1]; simplify_eq/=; [congruence|].
           apply Forall_cons in Hok as [_ Hok].
           apply IH. eauto 10.
    + split.
      * intros [= ->]. exists [], y, l. eauto.
      * intros (l1 & x & l2 & Hl12 & Hok & Hx).
        destruct l1 as [|y' l1]; simplify_eq/=; [congruence|].
        apply Forall_cons in Hok as [[? ?] _]. congruence.
Qed.

Lemma tree_mapM_Raise {A B} (f : A → result B) (t : pytree A) (e : exn) :
  tree_mapM f t = Raise e ↔ mapM f (tree_leaves t) = Raise e.
Proof.
  unfold tree_mapM. simpl.
  destruct (mapM f (tree_leaves t)) as [ys|e'] eqn:Hm; simpl;
    [|split; congruence].
  destruct (tree_unflatten_total t ys) as [t' ->]; [|by split].
  apply mapM_Ok in Hm. by apply Forall2_length in Hm.
Qed.

(** ** The runtime: the primal of a traced evaluation is the direct
    evaluation *)

Lemma lookup_leaf_fmap {X Y} (g : X → Y) (args : list (pytree X)) i j :
  lookup_leaf (tree_map g <$> args) i j = g <$> lookup_leaf args i j.
Proof.
  unfold lookup_leaf. rewrite list_lookup_fmap.
  destruct (args !! i) as [arg|]; simpl; [|done].
  by rewrite tree_leaves_map, list_lookup_fmap.
Qed.

Lemma jvp_expr_primal (args : list (pytree (dual E)))
    (kwargs : gmap string (pytree (array E))) (e : expr) :
  primal <$> jvp_expr args kwargs e
  = eval_expr (tree_map primal <$> args) kwargs e.
Proof.
  induction e as [i j|k j|d shape n|e1 IH1 e2 IH2|e1 IH1 e2 IH2|e1 IH1 n
                  |e1 IH1|e1 IH1 d]; simpl.
  - rewrite lookup_leaf_fmap. by destruct (lookup_leaf args i j).
  - by destruct (lookup_kwleaf kwargs k j).
  - done.
  - rewrite <- IH1, <- IH2.
    destruct (jvp_expr args kwargs e1) as [x|]; simpl; [|done].
    destruct (jvp_expr args kwargs e2) as [y|]; simpl; [|done].
    by destruct (lax_binop s_add (primal x) (primal y)).
  - rewrite <- IH1, <- IH2.
    destruct (jvp_expr args kwargs e1) as [x|]; simpl; [|done].
    destruct (jvp_expr args kwargs e2) as [y|]; simpl; [|done].
    by destruct (lax_binop s_mul (primal x) (primal y)).
  - rewrite <- IH1. by destruct (jvp_expr args kwargs e1).
  - rewrite <- IH1. by destruct (jvp_expr args kwargs e1).
  - rewrite <- IH1. by destruct (jvp_expr args kwargs e1).
Qed.

Lemma py_call_jvp_primal (f : pyobject) (args : list (pytree (dual E)))
    (kwargs : gmap string (pytree (array E))) :
  tree_map primal <$> py_call_jvp f args kwargs
  = py_call f (tree_map primal <$> args) kwargs.
Proof.
  destruct f as [body|]; simpl; [|done].
  apply tree_mapM_fmap_result. intros e. apply jvp_expr_primal.
Qed.

(** ** Selecting arguments *)

Lemma tuple_items_map {A B} (g : A → B) (t : pytree A) :
  tuple_items (tree_map g t) = tree_map g <$> tuple_items t.
Proof. by destruct t. Qed.

Lemma is_tuple_or_list_map {A B} (g : A → B) (t : pytree A) :
  is_tuple_or_list (tree_map g t) = is_tuple_or_list t.
Proof. by destruct t as [|[]]. Qed.

Lemma fill_args_fmap dyn fixed (dargs : list (pytree (dual E))) :
  tree_map primal <$> fill_args lift_primal dyn fixed dargs
  = fill_args id dyn fixed (tree_map primal <$> dargs).
Proof.
  unfold fill_args.
  assert (tree_map primal <$>
            (from_option (fmap lift_primal) (Node KNone []) <$> fixed)
          = from_option (fmap (M:=pytree) id) (Node KNone []) <$> fixed) as Hinit.
  { rewrite <- list_fmap_compose. apply list_fmap_ext. intros _ [arg|] _;
      [|done]. simpl. apply (tree_map_compose lift_primal primal). }
  revert Hinit.
  generalize (from_option (fmap lift_primal) (Node KNone []) <$> fixed).
  generalize (from_option (fmap (M:=pytree) id) (Node KNone []) <$> fixed).
  revert dargs. induction dyn as [|i dyn IH]; intros [|a dargs] init' init Hi;
    try done.
  simpl. apply IH. by rewrite list_fmap_insert, Hi.
Qed.

Lemma fill_args_id (dyn : list nat) (args dyn_args : list (pytree (array E))) :
  mapM (λ i, from_option Ok (Raise (ArgnumsRange i)) (args !! i)) dyn
    = Ok dyn_args →
  fill_args id dyn
    (imap (λ i arg, if bool_decide (i ∈ dyn) then None else Some arg) args)
    dyn_args = args.
Proof.
  intros Hm%mapM_Ok. unfold fill_args.
  set (init := from_option (fmap id) (Node KNone []) <$> _).
  assert (length init = length args) as Hlen.
  { unfold init. by rewrite length_fmap, length_imap. }
  assert (∀ k, k ∉ dyn → init !! k = args !! k) as Hinit.
  { intros k Hk. unfold init. rewrite list_lookup_fmap, list_lookup_imap.
    destruct (args !! k) as [arg|]; [|done]. simpl.
    rewrite bool_decide_eq_false_2 by done. simpl. f_equal.
    apply tree_map_id. }
  clearbody init. revert init Hlen Hinit.
  induction Hm as [|i v dyn vals Hi _ IH]; intros init Hlen Hinit.
  - simpl. apply list_eq. intros k. apply Hinit. by intros ?%elem_of_nil.
  - simpl. destruct (args !! i) as [v'|] eqn:Hargs; simplify_eq/=.
    apply IH; [by rewrite length_insert|].
    intros k Hk. destruct (decide (k = i)) as [->|Hne].
    + rewrite list_lookup_insert_eq; [done|].
      rewrite Hlen. by eapply lookup_lt_Some.
    + rewrite list_lookup_insert_ne by done. apply Hinit.
      by intros [->|?]%elem_of_cons.
Qed.

Lemma call_wrapped_jvp_primal (f : WrappedFun)
    (dargs : list (pytree (dual E))) :
  tree_map primal <$> call_wrapped_jvp f dargs
  = call_wrapped f (tree_map primal <$> dargs).
Proof.
  unfold call_wrapped_jvp, call_wrapped.
  destruct (wf_partial f) as [[dyn fixed]|].
  - by rewrite py_call_jvp_primal, fill_args_fmap.
  - apply py_call_jvp_primal.
Qed.

(** Select-Args hands [fun] back its own positional and keyword arguments. *)
Lemma argnums_partial_call (fun_ : pyobject) kwargs argnums args f_partial
    dyn_args :
  argnums_partial (wrap_init fun_ kwargs) argnums args
    = Ok (f_partial, dyn_args) →
  call_wrapped f_partial (tuple_items dyn_args) = py_call fun_ args kwargs.
Proof.
  unfold argnums_partial. intros H.
  apply bind_Ok in H as (items & Hitems & [= <- <-]).
  unfold call_wrapped. simpl. by rewrite fill_args_id.
Qed.

Lemma argnums_partial_dyn (f : WrappedFun) argnums
    (args : list (pytree (array E))) f_partial dyn_args :
  argnums_partial f argnums args = Ok (f_partial, dyn_args) →
  ∃ items, dyn_args = Node KTuple items ∧
    Forall2 (λ i v, args !! i = Some v) (_ensure_index_tuple argnums) items.
Proof.
  unfold argnums_partial. intros H.
  apply bind_Ok in H as (items & Hx & [= <- <-]).
  eexists; split; [done|]. apply mapM_Ok in Hx.
  eapply Forall2_impl; [done|]. simpl. intros i v.
  by destruct (args !! i); intros [=]; subst.
Qed.

(** ** [_jvp]: the primal output is the function's value *)

Lemma zip_with_make_dual_primal bd (ps : list (array E)) (ts : list (tval E)) :
  length ps = length ts →
  primal <$> zip_with (make_dual bd) ps ts = ps.
Proof.
  revert ts. induction ps as [|p ps IH]; intros [|t ts]; try done.
  simpl. intros [= Hlen]. by rewrite IH.
Qed.

Lemma safe_zip_Ok {X Y} (xs : list X) (ys : list Y) l :
  safe_zip xs ys = Ok l ↔ length xs = length ys ∧ l = zip xs ys.
Proof.
  unfold safe_zip. destruct (decide _); split; try done.
  - by intros [= <-].
  - by intros [_ ->].
  - by intros [? _].
Qed.

(** The flat function, seen through its primal parts, is the wrapped
    function applied to the primals. *)
Lemma flat_call_primal (f : WrappedFun) (primals : pytree (array E))
    (duals : list (dual E)) py_args ans :
  primal <$> duals = tree_leaves primals →
  tree_unflatten (tree_structure primals) duals = Ok py_args →
  call_wrapped_jvp f (tuple_items py_args) = Ok ans →
  call_wrapped f (tuple_items primals) = Ok (tree_map primal ans).
Proof.
  intros Hd Hu Hc.
  assert (tree_map primal py_args = primals) as <-.
  { apply tree_unflatten_Ok in Hu as [Hs Hl]. apply tree_ext.
    - by rewrite tree_structure_map.
    - by rewrite tree_leaves_map, Hl. }
  by rewrite tuple_items_map, <- call_wrapped_jvp_primal, Hc.
Qed.

Lemma tree_unflatten_flatten_map {A B} (g : A → B) (t : pytree A) y :
  tree_unflatten (tree_structure t) (g <$> tree_leaves t) = Ok y →
  y = tree_map g t.
Proof.
  rewrite tree_unflatten_fmap, (tree_unflatten_flatten t). by intros [= <-].
Qed.

Lemma _jvp_plain_value (f : WrappedFun) (primals : pytree (array E))
    (tangents : pytree (tval E)) y ydot :
  _jvp f primals tangents false = Ok (y, ydot) →
  call_wrapped f (tuple_items primals) = Ok y.
Proof.
  unfold _jvp, tree_flatten.
  destruct (negb (is_tuple_or_list primals) || _); [done|].
  destruct (negb (treedef_eqb _ _)); [done|].
  intros H. apply bind_Ok in H as (pairs & [Hlen _]%safe_zip_Ok & H).
  apply bind_Ok in H as (? & _ & H).
  apply bind_Ok in H as ([[out_primals out_tangents] out_tree] & Hjvp & H).
  apply bind_Ok in H as (y' & Hy & H).
  apply bind_Ok in H as (ydot' & _ & [= <- <-]).
  unfold ad_jvp in Hjvp.
  apply bind_Ok in Hjvp as ([outs out_tree'] & Hflat & [= <- <- <-]).
  unfold flatten_fun_nokwargs in Hflat.
  apply bind_Ok in Hflat as (py_args & Hu & Hflat).
  apply bind_Ok in Hflat as (ans & Hc & [= <- <-]).
  apply tree_unflatten_flatten_map in Hy as ->.
  eapply flat_call_primal; [|done..].
  by apply zip_with_make_dual_primal.
Qed.

Lemma _jvp_aux_value (f : WrappedFun) (primals : pytree (array E))
    (tangents : pytree (tval E)) y ydot aux :
  _jvp f primals tangents true = Ok ((y, ydot), aux) →
  ∃ pair, call_wrapped f (tuple_items primals) = Ok pair ∧
          is_tuple_or_list pair = true ∧ tuple_items pair = [y; aux].
Proof.
  unfold _jvp, tree_flatten.
  destruct (negb (is_tuple_or_list primals) || _); [done|].
  destruct (negb (treedef_eqb _ _)); [done|].
  intros H. apply bind_Ok in H as (pairs & [Hlen _]%safe_zip_Ok & H).
  apply bind_Ok in H as (? & _ & H).
  apply bind_Ok in H
    as ([[[out_primals out_tangents] aux_flat] [out_tree aux_tree]] & Hjvp & H).
  apply bind_Ok in H as (y' & Hy & H).
  apply bind_Ok in H as (ydot' & _ & H).
  apply bind_Ok in H as (aux' & Haux & [= <- <- <-]).
  unfold ad_jvp_aux in Hjvp.
  apply bind_Ok in Hjvp
    as ([[outs auxs] [out_tree' aux_tree']] & Hflat & [= <- <- <- <- <-]).
  unfold flatten_fun_nokwargs2 in Hflat.
  apply bind_Ok in Hflat as (py_args & Hu & Hflat).
  apply bind_Ok in Hflat as (pair & Hc & Hflat).
  destruct (is_tuple_or_list pair) eqn:Hpair; [|done].
  destruct (tuple_items pair) as [|ans [|aux0 [|]]] eqn:Hitems; try done.
  injection Hflat as <- <- <- <-.
  apply tree_unflatten_flatten_map in Hy as ->.
  apply tree_unflatten_flatten_map in Haux as ->.
  exists (tree_map primal pair). split; [|split].
  - eapply flat_call_primal; [|done..]. by apply zip_with_make_dual_primal.
  - by rewrite is_tuple_or_list_map.
  - by rewrite tuple_items_map, Hitems.
Qed.

(** ** [jacfun], stage by stage *)

Lemma jacfun_unfold fun_ argnums holomorphic has_aux args kwargs :
  jacfun fun_ argnums holomorphic has_aux args kwargs =
  ('(f_partial, dyn_args) ←
     argnums_partial (wrap_init fun_ kwargs) argnums args;
   _ ← tree_mapM (_check_input_dtype_jacfwd holomorphic) dyn_args;
   basis ← _std_basis dyn_args;
   '((y, jac), aux) ← run_pushfwd f_partial dyn_args has_aux basis;
   _ ← tree_mapM (_check_output_dtype_jacfwd holomorphic) y;
   example_args ← select_example argnums dyn_args;
   jacobian ← tree_bindM (_unravel_array_into_pytree example_args) jac;
   Ok (if has_aux then py_tuple [py_tuple [y; aux]; jacobian]
       else py_tuple [y; jacobian])).
Proof.
  unfold jacfun, run_pushfwd.
  destruct (argnums_partial _ _ _) as [[f_partial dyn_args]|]; [|done].
  simpl. destruct (tree_mapM _ dyn_args); [|done]. simpl.
  destruct has_aux, (_std_basis dyn_args); done.
Qed.

Lemma jacfun_Ok fun_ argnums holomorphic has_aux args kwargs r :
  jacfun fun_ argnums holomorphic has_aux args kwargs = Ok r ↔
  ∃ f_partial dyn_args basis y jac aux example_args jacobian,
    argnums_partial (wrap_init fun_ kwargs) argnums args
      = Ok (f_partial, dyn_args) ∧
    (∃ u, tree_mapM (_check_input_dtype_jacfwd holomorphic) dyn_args = Ok u) ∧
    _std_basis dyn_args = Ok basis ∧
    run_pushfwd f_partial dyn_args has_aux basis = Ok ((y, jac), aux) ∧
    (∃ u, tree_mapM (_check_output_dtype_jacfwd holomorphic) y = Ok u) ∧
    select_example argnums dyn_args = Ok example_args ∧
    tree_bindM (_unravel_array_into_pytree example_args) jac = Ok jacobian ∧
    r = if has_aux then py_tuple [py_tuple [y; aux]; jacobian]
        else py_tuple [y; jacobian].
Proof.
  rewrite jacfun_unfold. split.
  - intros H.
    apply bind_Ok in H as ([f_partial dyn_args] & H1 & H).
    apply bind_Ok in H as (u1 & H2 & H).
    apply bind_Ok in H as (basis & H3 & H).
    apply bind_Ok in H as ([[y jac] aux] & H4 & H).
    apply bind_Ok in H as (u2 & H5 & H).
    apply bind_Ok in H as (example_args & H6 & H).
    exists f_partial, dyn_args, basis, y, jac, aux, example_args.
    apply bind_Ok in H as (jacobian & H7 & [= <-]).
    exists jacobian; eauto 10.
  - intros (f_partial & dyn_args & basis & y & jac & aux & example_args
            & jacobian & H1 & [u1 H2] & H3 & H4 & [u2 H5] & H6 & H7 & ->).
    rewrite H1. simpl. rewrite H2. simpl. rewrite H3. simpl. rewrite H4.
    simpl. rewrite H5. simpl. rewrite H6. simpl.
    by rewrite H7.
Qed.

Lemma run_pushfwd_Ok f_partial dyn_args has_aux basis y jac aux :
  run_pushfwd f_partial dyn_args has_aux basis = Ok ((y, jac), aux) ↔
  ∃ ydot, jac = moveaxis_last (batch_size basis) <$> ydot ∧
    if has_aux
    then _jvp f_partial dyn_args (BatchTracer <$> batch_tree basis) true
           = Ok ((y, ydot), aux)
    else _jvp f_partial dyn_args (BatchTracer <$> batch_tree basis) false
           = Ok (y, ydot) ∧ aux = Node KNone [].
Proof.
  unfold run_pushfwd, vmap. destruct has_aux; split.
  - intros ([[y' ydot] aux'] & H & [= <- <- <-])%bind_Ok. eauto.
  - intros (ydot & -> & ->). done.
  - intros ([y' jac'] & H & [= <- <- <-])%bind_Ok.
    apply bind_Ok in H as ([y'' ydot] & H & [= <- <-]). eauto.
  - intros (ydot & -> & -> & ->). done.
Qed.

(** The value (and the auxiliary output) the driver returns is what [fun]
    returns on the call's own arguments. *)
Lemma run_pushfwd_value fun_ kwargs argnums args f_partial dyn_args has_aux
    basis y jac aux :
  argnums_partial (wrap_init fun_ kwargs) argnums args
    = Ok (f_partial, dyn_args) →
  run_pushfwd f_partial dyn_args has_aux basis = Ok ((y, jac), aux) →
  if has_aux
  then ∃ pair, py_call fun_ args kwargs = Ok pair ∧
               is_tuple_or_list pair = true ∧ tuple_items pair = [y; aux]
  else py_call fun_ args kwargs = Ok y.
Proof.
  intros Hp (ydot & _ & H)%run_pushfwd_Ok.
  rewrite <- (argnums_partial_call _ _ _ _ _ _ Hp).
  destruct has_aux.
  - by eapply _jvp_aux_value.
  - destruct H as [H _]. by eapply _jvp_plain_value.
Qed.

Lemma value_and_jacfwd_Ok fun_ argnums holomorphic has_aux jf :
  value_and_jacfwd fun_ argnums holomorphic has_aux = Ok jf ↔
  ∃ body idx, fun_ = PyFunction body ∧ _ensure_index argnums = Ok idx ∧
              jf = jacfun fun_ idx holomorphic has_aux.
Proof.
  unfold value_and_jacfwd. split.
  - intros (? & Hc & (idx & Hi & [= <-])%bind_Ok)%bind_Ok.
    destruct fun_ as [body|]; [|done]. eauto.
  - intros (body & idx & -> & Hi & ->). simpl. by rewrite Hi.
Qed.


(** ** [_jvp]: the eager checks *)

Lemma check_pair_Ok (pt : array E * tval E) u :
  check_pair pt = Ok u ↔ pair_ok pt.
Proof.
  destruct pt as [p t], u. unfold check_pair, pair_ok. simpl.
  destruct (decide (_ ≠ _)) as [Hd|Hd];
    [split; [intros [=]|intros [? ?]; congruence]|].
  apply dec_stable in Hd.
  destruct (decide (_ ≠ _)) as [Hs|Hs];
    [split; [intros [=]|intros [? ?]; congruence]|].
  by apply dec_stable in Hs.
Qed.

Lemma check_pair_Raise (pt : array E * tval E) :
  ¬ pair_ok pt → check_pair pt = Raise (pair_error pt).
Proof.
  destruct pt as [p t]. unfold check_pair, pair_ok, pair_error. simpl.
  intros Hnot.
  destruct (decide (_ ≠ _)) as [Hd|Hd].
  - by destruct (decide (_ = _)).
  - apply dec_stable in Hd. destruct (decide (_ = _)) as [_|?]; [|done].
    destruct (decide (_ ≠ _)) as [Hs|Hs]; [done|].
    apply dec_stable in Hs. by destruct Hnot.
Qed.

Lemma _jvp_checks_pass (f : WrappedFun) primals tangents has_aux :
  is_tuple_or_list primals = true →
  is_tuple_or_list tangents = true →
  tree_structure primals = tree_structure tangents →
  Forall pair_ok (zip (tree_leaves primals) (tree_leaves tangents)) →
  _jvp f primals tangents has_aux =
    if has_aux as b return result (jvp_out b) then
      '(((out_primals, out_tangents), aux), (out_tree, aux_tree)) ←
        ad_jvp_aux (flatten_fun_nokwargs2 f (tree_structure primals))
          (tree_leaves primals) (tree_leaves tangents);
      y ← tree_unflatten out_tree out_primals;
      ydot ← tree_unflatten out_tree out_tangents;
      aux ← tree_unflatten aux_tree aux;
      Ok ((y, ydot), aux)
    else
      '((out_primals, out_tangents), out_tree) ←
        ad_jvp (flatten_fun_nokwargs f (tree_structure primals))
          (tree_leaves primals) (tree_leaves tangents);
      y ← tree_unflatten out_tree out_primals;
      ydot ← tree_unflatten out_tree out_tangents;
      Ok (y, ydot).
Proof.
  intros Hp Ht Hs Hok. unfold _jvp, tree_flatten. rewrite Hp, Ht. simpl.
  rewrite (proj2 (treedef_eqb_eq _ _) Hs). simpl.
  unfold safe_zip. rewrite decide_True by by apply tree_structure_length.
  simpl.
  rewrite (mapM_Ok_fmap check_pair (λ _, ())); [done|].
  eapply Forall_impl; [done|]. intros pt Hpt. by apply check_pair_Ok.
Qed.

Lemma first_offending_pair (pairs : list (array E * tval E)) :
  ¬ Forall pair_ok pairs →
  ∃ before pt after,
    pairs = before ++ pt :: after ∧ Forall pair_ok before ∧ ¬ pair_ok pt.
Proof.
  induction pairs as [|pt pairs IH]; intros Hnot.
  - destruct Hnot. constructor.
  - destruct (decide (pair_ok pt)) as [Hpt|Hpt].
    + destruct IH as (before & pt' & after & -> & Hb & Hpt').
      { intros Hall. apply Hnot. by constructor. }
      exists (pt :: before), pt', after.
      split; [done|]. split; [by constructor|done].
    + by exists [], pt, pairs.
Qed.

Lemma _jvp_raises_at_first (primals : pytree (array E))
    (tangents : pytree (tval E)) before pt after f has_aux :
  is_tuple_or_list primals = true → is_tuple_or_list tangents = true →
  tree_structure primals = tree_structure tangents →
  zip (tree_leaves primals) (tree_leaves tangents) = before ++ pt :: after →
  Forall pair_ok before →
  ¬ pair_ok pt →
  raises (_jvp f primals tangents has_aux) (pair_error pt)
    (pair_error_kind pt).
Proof.
  intros Hp Ht Hs Hzip Hbefore Hpt. split.
  - unfold _jvp, tree_flatten. rewrite Hp, Ht. simpl.
    rewrite (proj2 (treedef_eqb_eq _ _) Hs). simpl.
    unfold safe_zip. rewrite decide_True by by apply tree_structure_length.
    simpl. apply bind_Raise. apply mapM_Raise.
    exists before, pt, after. split; [done|]. split.
    + eapply Forall_impl; [done|]. intros q Hq. exists ().
      by apply check_pair_Ok.
    + by apply check_pair_Raise.
  - unfold pair_error, pair_error_kind. by destruct (decide _).
Qed.

(** C6.  The three checks of [_jvp], in the order the code makes them, and
    each of them before the wrapped function is touched: the exception that
    is raised is the same whatever the function [f] and whatever [has_aux].
    (1) If the primals or the tangents are not a tuple or a list, or
    (2) if they are but their descriptors differ, the call fails with
    [ArgumentStructureError].  (3) Otherwise, if some paired leaf does not
    agree, the call fails at the first such pair in flattened order: with
    [DtypeMismatchError] when that pair's tangent dtype is not the tangent
    dtype derived from its primal dtype, and with [ShapeMismatchError] when
    that pair's dtypes agree and its shapes differ.  (4) So whenever some
    paired leaf does not agree, the call fails with one of these two
    errors, raised for a pair that does not agree. *)
Theorem _jvp_eager_errors (primals : pytree (array E))
    (tangents : pytree (tval E)) :
  (is_tuple_or_list primals = false ∨ is_tuple_or_list tangents = false →
   ∀ f has_aux,
     raises (_jvp f primals tangents has_aux)
       JvpNotSequence ArgumentStructureError) ∧
  (is_tuple_or_list primals = true → is_tuple_or_list tangents = true →
   tree_structure primals ≠ tree_structure tangents →
   ∀ f has_aux,
     raises (_jvp f primals tangents has_aux)
       (JvpTreeStructure (tree_structure primals) (tree_structure tangents))
       ArgumentStructureError) ∧
  (is_tuple_or_list primals = true → is_tuple_or_list tangents = true →
   tree_structure primals = tree_structure tangents →
   ∀ before pt after,
     zip (tree_leaves primals) (tree_leaves tangents)
       = before ++ pt :: after →
     Forall pair_ok before →
     ¬ pair_ok pt →
     ∀ f has_aux,
       raises (_jvp f primals tangents has_aux) (pair_error pt)
         (pair_error_kind pt)) ∧
  (is_tuple_or_list primals = true → is_tuple_or_list tangents = true →
   tree_structure primals = tree_structure tangents →
   ¬ Forall pair_ok (zip (tree_leaves primals) (tree_leaves tangents)) →
   ∃ pt, pt ∈ zip (tree_leaves primals) (tree_leaves tangents) ∧
     ¬ pair_ok pt ∧
     ∀ f has_aux,
       raises (_jvp f primals tangents has_aux) (pair_error pt)
         (pair_error_kind pt)).
Proof.
  split; [|split; [|split]].
  - intros Hseq f has_aux. split; [|done]. unfold _jvp.
    by destruct Hseq as [-> | ->]; [|rewrite orb_true_r].
  - intros Hp Ht Hs f has_aux. split; [|done].
    unfold _jvp, tree_flatten. rewrite Hp, Ht. simpl.
    destruct (treedef_eqb _ _) eqn:Heq; [|done].
    by apply treedef_eqb_eq in Heq.
  - intros Hp Ht Hs before pt after Hzip Hbefore Hpt f has_aux.
    by eapply _jvp_raises_at_first.
  - intros Hp Ht Hs
      (before & pt & after & Hzip & Hb & Hpt)%first_offending_pair.
    exists pt. split; [|split; [done|]].
    + rewrite Hzip. apply elem_of_app. right. apply list_elem_of_here.
    + intros f has_aux. by eapply _jvp_raises_at_first.
Qed.

(** ** [_jvp]: what it computes once the checks have passed *)

Lemma _jvp_plain_Ok (f : WrappedFun) primals tangents y ydot :
  is_tuple_or_list primals = true →
  is_tuple_or_list tangents = true →
  tree_structure primals = tree_structure tangents →
  Forall pair_ok (zip (tree_leaves primals) (tree_leaves tangents)) →
  _jvp f primals tangents false = Ok (y, ydot) ↔
  ∃ ans,
    traced_call f (tree_structure primals) (traced_args primals tangents)
      = Ok ans ∧
    y = tree_map primal ans ∧
    ydot = tree_map (out_tangent (batch_dim (tree_leaves tangents))) ans.
Proof.
  intros Hp Ht Hs Hok. rewrite _jvp_checks_pass by done.
  unfold ad_jvp, flatten_fun_nokwargs, traced_call, traced_args, tree_flatten.
  split.
  - intros H.
    apply bind_Ok in H as ([[out_primals out_tangents] out_tree] & Hjvp & H).
    apply bind_Ok in H as (y' & Hy & H).
    apply bind_Ok in H as (ydot' & Hydot & [= <- <-]).
    apply bind_Ok in Hjvp as ([outs out_tree'] & Hflat & [= <- <- <-]).
    apply bind_Ok in Hflat as (py_args & Hu & Hflat).
    apply bind_Ok in Hflat as (ans & Hc & [= <- <-]).
    apply tree_unflatten_flatten_map in Hy as ->.
    apply tree_unflatten_flatten_map in Hydot as ->.
    exists ans. by rewrite Hu.
  - intros (ans & Hc & -> & ->).
    apply bind_Ok in Hc as (py_args & Hu & Hc).
    rewrite Hu. simpl. rewrite Hc. simpl.
    rewrite !tree_unflatten_fmap, tree_unflatten_flatten. done.
Qed.

Lemma _jvp_aux_Ok (f : WrappedFun) primals tangents y ydot aux :
  is_tuple_or_list primals = true →
  is_tuple_or_list tangents = true →
  tree_structure primals = tree_structure tangents →
  Forall pair_ok (zip (tree_leaves primals) (tree_leaves tangents)) →
  _jvp f primals tangents true = Ok ((y, ydot), aux) ↔
  ∃ pair ans aux_traced,
    traced_call f (tree_structure primals) (traced_args primals tangents)
      = Ok pair ∧
    is_tuple_or_list pair = true ∧ tuple_items pair = [ans; aux_traced] ∧
    y = tree_map primal ans ∧
    ydot = tree_map (out_tangent (batch_dim (tree_leaves tangents))) ans ∧
    aux = tree_map primal aux_traced.
Proof.
  intros Hp Ht Hs Hok. rewrite _jvp_checks_pass by done.
  unfold ad_jvp_aux, flatten_fun_nokwargs2, traced_call, traced_args,
    tree_flatten.
  split.
  - intros H.
    apply bind_Ok in H
      as ([[[out_primals out_tangents] aux_flat] [out_tree aux_tree]]
          & Hjvp & H).
    apply bind_Ok in H as (y' & Hy & H).
    apply bind_Ok in H as (ydot' & Hydot & H).
    apply bind_Ok in H as (aux' & Haux & [= <- <- <-]).
    apply bind_Ok in Hjvp
      as ([[outs auxs] [out_tree' aux_tree']] & Hflat & [= <- <- <- <- <-]).
    apply bind_Ok in Hflat as (py_args & Hu & Hflat).
    apply bind_Ok in Hflat as (pair & Hc & Hflat).
    destruct (is_tuple_or_list pair) eqn:Hpair; [|done].
    destruct (tuple_items pair) as [|ans [|aux0 [|]]] eqn:Hitems; try done.
    injection Hflat as <- <- <- <-.
    apply tree_unflatten_flatten_map in Hy as ->.
    apply tree_unflatten_flatten_map in Hydot as ->.
    apply tree_unflatten_flatten_map in Haux as ->.
    exists pair, ans, aux0. by rewrite Hu.
  - intros (pair & ans & aux0 & Hc & Hpair & Hitems & -> & -> & ->).
    apply bind_Ok in Hc as (py_args & Hu & Hc).
    rewrite Hu. simpl. rewrite Hc. simpl. rewrite Hpair, Hitems. simpl.
    rewrite !tree_unflatten_fmap, !tree_unflatten_flatten. done.
Qed.

(** The traced call succeeds exactly when the direct call does, and its
    primal part is the direct call's value. *)
Lemma traced_call_primal (f : WrappedFun) primals tangents :
  tree_structure primals = tree_structure tangents →
  tree_map primal <$>
    traced_call f (tree_structure primals) (traced_args primals tangents)
  = call_wrapped f (tuple_items primals).
Proof.
  intros Hs. unfold traced_call, traced_args.
  destruct (tree_unflatten_total primals
              (zip_with (make_dual (batch_dim (tree_leaves tangents)))
                 (tree_leaves primals) (tree_leaves tangents)))
    as [py_args Hu].
  { rewrite length_zip_with, (tree_structure_length _ _ Hs). lia. }
  rewrite Hu. simpl. rewrite call_wrapped_jvp_primal, <- tuple_items_map.
  do 2 f_equal. apply tree_unflatten_Ok in Hu as [Hs' Hl]. apply tree_ext.
  - by rewrite tree_structure_map.
  - rewrite tree_leaves_map, Hl. apply zip_with_make_dual_primal.
    by apply tree_structure_length.
Qed.

(** ** The basis generator *)

Lemma pytree_fmap_eq {A B} (f : A → B) (t : pytree A) : f <$> t = tree_map f t.
Proof. done. Qed.

Lemma is_tuple_or_list_structure {A B} (t1 : pytree A) (t2 : pytree B) :
  tree_structure t1 = tree_structure t2 →
  is_tuple_or_list t1 = is_tuple_or_list t2.
Proof. destruct t1 as [|[]], t2 as [|[]]; try done. Qed.

Lemma length_offsets_from o widths :
  length (offsets_from o widths) = length widths.
Proof.
  revert o. induction widths as [|w widths IH]; intros o; [done|].
  simpl. by rewrite IH.
Qed.

Lemma _std_basis_Ok (t : pytree (array E)) :
  ∃ basis,
    _std_basis t = Ok basis ∧
    batch_size basis = sum_list (leaf_dof <$> tree_leaves t) ∧
    tree_structure (batch_tree basis) = tree_structure t ∧
    tree_leaves (batch_tree basis)
      = zip_with (basis_leaf (sum_list (leaf_dof <$> tree_leaves t)))
          (offsets_from 0 (leaf_dof <$> tree_leaves t)) (tree_leaves t).
Proof.
  unfold _std_basis, tree_flatten.
  destruct (tree_unflatten_total t
              (zip_with (basis_leaf (sum_list (leaf_dof <$> tree_leaves t)))
                 (offsets_from 0 (leaf_dof <$> tree_leaves t)) (tree_leaves t)))
    as [bt Hbt].
  { rewrite length_zip_with, length_offsets_from, length_fmap. lia. }
  rewrite Hbt. simpl. eexists. split; [done|]. simpl.
  by apply tree_unflatten_Ok in Hbt as [-> ->].
Qed.

Lemma basis_pairs_ok D offsets (leaves : list (array E)) :
  Forall pair_ok
    (zip leaves (BatchTracer <$> zip_with (basis_leaf D) offsets leaves)).
Proof.
  revert offsets. induction leaves as [|l leaves IH]; intros [|o offsets];
    simpl; by constructor.
Qed.

(** The basis passes the checks of [_jvp]. *)
Lemma basis_checks_pass (dyn_args : pytree (array E)) basis :
  _std_basis dyn_args = Ok basis →
  tree_structure dyn_args
    = tree_structure (tree_map BatchTracer (batch_tree basis)) ∧
  Forall pair_ok
    (zip (tree_leaves dyn_args)
       (tree_leaves (tree_map BatchTracer (batch_tree basis)))).
Proof.
  intros Hb. destruct (_std_basis_Ok dyn_args) as (b & Hb' & _ & Hs & Hl).
  rewrite Hb in Hb'. injection Hb' as <-.
  rewrite tree_structure_map, tree_leaves_map, Hs, Hl. split; [done|].
  apply basis_pairs_ok.
Qed.

(** ** The batched driver *)

Lemma stacked_shape D bd d :
  ashape (stacked D bd d) = ashape (primal d) ++ [D].
Proof.
  unfold stacked, out_tangent. by destruct (tangent d), bd.
Qed.


Lemma split_output_map {X Y} (g : X → Y) has_aux (v : pytree X) :
  split_output has_aux (tree_map g v)
  = prod_map (tree_map g) (tree_map g) <$> split_output has_aux v.
Proof.
  unfold split_output. destruct has_aux; [|done].
  rewrite is_tuple_or_list_map, tuple_items_map.
  destruct (is_tuple_or_list v); [|done].
  by destruct (tuple_items v) as [|? [|? [|]]].
Qed.

Lemma run_pushfwd_basis_Ok f_partial (dyn_args : pytree (array E)) has_aux
    basis y jac aux :
  is_tuple_or_list dyn_args = true →
  _std_basis dyn_args = Ok basis →
  let tangents := tree_map BatchTracer (batch_tree basis) in
  let bd := batch_dim (tree_leaves tangents) in
  run_pushfwd f_partial dyn_args has_aux basis = Ok ((y, jac), aux) ↔
  ∃ out ans aux_traced,
    traced_call f_partial (tree_structure dyn_args)
      (traced_args dyn_args tangents) = Ok out ∧
    split_output has_aux out = Some (ans, aux_traced) ∧
    y = tree_map primal ans ∧
    jac = tree_map (stacked (batch_size basis) bd) ans ∧
    aux = tree_map primal aux_traced.
Proof.
  intros Hseq Hb tangents bd.
  destruct (basis_checks_pass _ _ Hb) as [Hs Hok].
  assert (is_tuple_or_list tangents = true) as Hseq'.
  { unfold tangents. by rewrite <- (is_tuple_or_list_structure _ _ Hs). }
  rewrite run_pushfwd_Ok. rewrite !pytree_fmap_eq. fold tangents.
  unfold split_output. destruct has_aux.
  - split.
    + intros (ydot & -> & H). apply _jvp_aux_Ok in H; [|done..].
      destruct H as (pair & ans & auxd & Hc & Hp & Hi & -> & -> & ->).
      exists pair, ans, auxd. rewrite Hp, Hi.
      split; [done|]. split; [done|]. split; [done|]. split; [|done].
      rewrite pytree_fmap_eq. by rewrite tree_map_compose.
    + intros (out & ans & auxd & Hc & Hsplit & -> & -> & ->).
      destruct (is_tuple_or_list out) eqn:Hp; [|done].
      destruct (tuple_items out) as [|? [|? [|]]] eqn:Hi; try done.
      injection Hsplit as -> ->.
      exists (tree_map (out_tangent bd) ans). split.
      { symmetry.
        apply (tree_map_compose (out_tangent bd)
                 (moveaxis_last (batch_size basis))). }
      apply (proj2 (_jvp_aux_Ok _ _ _ _ _ _ Hseq Hseq' Hs Hok)). eauto 10.
  - split.
    + intros (ydot & -> & H & ->). apply _jvp_plain_Ok in H; [|done..].
      destruct H as (ans & Hc & -> & ->).
      exists ans, ans, (Node KNone []).
      split; [done|]. split; [done|]. split; [done|]. split; [|done].
      by rewrite pytree_fmap_eq, tree_map_compose.
    + intros (out & ans & auxd & Hc & [= -> <-] & -> & -> & ->).
      exists (tree_map (out_tangent bd) ans). split.
      { symmetry.
        apply (tree_map_compose (out_tangent bd)
                 (moveaxis_last (batch_size basis))). }
      split; [|done].
      apply (proj2 (_jvp_plain_Ok _ _ _ _ _ Hseq Hseq' Hs Hok)). eauto.
Qed.

(** The driver returns whenever [fun] does (and, with [has_aux], returns a
    pair). *)
Lemma run_pushfwd_total fun_ kwargs argnums args f_partial dyn_args has_aux
    basis v y aux :
  argnums_partial (wrap_init fun_ kwargs) argnums args
    = Ok (f_partial, dyn_args) →
  _std_basis dyn_args = Ok basis →
  py_call fun_ args kwargs = Ok v →
  split_output has_aux v = Some (y, aux) →
  ∃ ans,
    y = tree_map primal ans ∧
    run_pushfwd f_partial dyn_args has_aux basis
      = Ok ((y,
             tree_map
               (stacked (batch_size basis)
                  (batch_dim (tree_leaves
                                (tree_map BatchTracer (batch_tree basis)))))
               ans),
            aux).
Proof.
  intros Hp Hb Hv Hsplit.
  destruct (argnums_partial_dyn _ _ _ _ _ Hp) as (items & -> & _).
  destruct (basis_checks_pass _ _ Hb) as [Hs _].
  pose proof (traced_call_primal f_partial _ _ Hs) as Hcall.
  rewrite (argnums_partial_call _ _ _ _ _ _ Hp), Hv in Hcall.
  apply fmap_Ok in Hcall as (out & Hout & ->).
  rewrite split_output_map in Hsplit.
  destruct (split_output has_aux out) as [[ans auxd]|] eqn:Hso; [|done].
  injection Hsplit as <- <-.
  exists ans. split; [done|].
  apply run_pushfwd_basis_Ok; [done..|]. eauto 10.
Qed.

(** ** Validation of input and output dtypes *)

Lemma argnums_partial_Ok (f : WrappedFun) argnums
    (args items : list (pytree (array E))) :
  Forall2 (λ i v, args !! i = Some v) (_ensure_index_tuple argnums) items →
  ∃ f_partial, argnums_partial f argnums args = Ok (f_partial, py_tuple items).
Proof.
  intros H. unfold argnums_partial.
  assert (mapM (λ i, from_option Ok (Raise (ArgnumsRange i)) (args !! i))
            (_ensure_index_tuple argnums) = Ok items) as ->.
  { apply mapM_Ok. eapply Forall2_impl; [done|]. simpl.
    by intros i v ->. }
  simpl. eauto.
Qed.

Lemma tree_mapM_check_total {A} (check : A → result ()) (t : pytree A) :
  (∃ u, tree_mapM check t = Ok u ∧
        Forall (λ x, check x = Ok ()) (tree_leaves t)) ∨
  (∃ x e, x ∈ tree_leaves t ∧ check x = Raise e ∧ tree_mapM check t = Raise e).
Proof.
  destruct (tree_mapM check t) as [u|e] eqn:H.
  - left. exists u. split; [done|]. apply tree_mapM_Ok in H as [_ H].
    clear -H. induction H as [|x [] ? ? Hx _ IH]; constructor; done.
  - right. apply tree_mapM_Raise in H as Hm.
    apply mapM_Raise in Hm as (l1 & x & l2 & Hl & _ & Hx).
    exists x, e. split; [|done]. rewrite Hl. set_solver.
Qed.

Lemma tree_mapM_check_Ok {A} (check : A → result ()) (t : pytree A) :
  Forall (λ x, check x = Ok ()) (tree_leaves t) →
  ∃ u, tree_mapM check t = Ok u.
Proof.
  intros H. destruct (tree_mapM_check_total check t)
    as [(u & Hu & _)|(x & e & Hx & He & _)]; [eauto|].
  rewrite Forall_forall in H. rewrite (H x Hx) in He. done.
Qed.

(** C7.  With [holomorphic=False]: (1) if some differentiated leaf has an
    integer dtype, the call fails with [InputDtypeError], and it does so
    before the driver runs: the exception is the same whatever the function,
    its keyword arguments and [has_aux].  (2) If every differentiated leaf
    has an inexact dtype and the primary output of the function has a leaf of
    complex dtype, the driver runs to completion and returns the function's
    value, and the call then fails with [OutputDtypeError] instead of
    returning a Jacobian. *)
Theorem dtype_rejection argnums (args items : list (pytree (array E))) :
  Forall2 (λ i v, args !! i = Some v) (_ensure_index_tuple argnums) items →
  ((∃ x, x ∈ tree_leaves (py_tuple items) ∧ is_integer (adtype x) = true) →
   ∃ d, is_inexact d = false ∧
     ∀ fun_ kwargs has_aux,
       raises (jacfun fun_ argnums false has_aux args kwargs)
         (CheckInputDtype d) InputDtypeError) ∧
  (Forall (λ x, is_inexact (adtype x) = true) (tree_leaves (py_tuple items)) →
   ∀ fun_ kwargs has_aux v y aux,
     py_call fun_ args kwargs = Ok v →
     split_output has_aux v = Some (y, aux) →
     (∃ x, x ∈ tree_leaves y ∧ is_complexfloating (adtype x) = true) →
     ∃ f_partial basis jac d,
       argnums_partial (wrap_init fun_ kwargs) argnums args
         = Ok (f_partial, py_tuple items) ∧
       _std_basis (py_tuple items) = Ok basis ∧
       run_pushfwd f_partial (py_tuple items) has_aux basis
         = Ok ((y, jac), aux) ∧
       is_floating d = false ∧
       raises (jacfun fun_ argnums false has_aux args kwargs)
         (CheckOutputDtype d) OutputDtypeError).
Proof.
  intros Hsel. split.
  - intros (x & Hx & Hint).
    destruct (tree_mapM_check_total (_check_input_dtype_jacfwd false)
                (py_tuple items))
      as [(u & _ & Hall)|(x' & e & Hx' & He & Hraise)].
    { rewrite Forall_forall in Hall. specialize (Hall x Hx).
      unfold _check_input_dtype_jacfwd in Hall. simpl in Hall.
      by destruct (adtype x). }
    unfold _check_input_dtype_jacfwd in He. simpl in He.
    destruct (is_inexact (adtype x')) eqn:Hd; [done|]. injection He as <-.
    exists (adtype x'). split; [done|]. intros fun_ kwargs has_aux.
    split; [|done].
    destruct (argnums_partial_Ok (wrap_init fun_ kwargs) _ _ _ Hsel)
      as [f_partial Hp].
    rewrite jacfun_unfold, Hp. simpl. by rewrite Hraise.
  - intros Hin fun_ kwargs has_aux v y aux Hv Hsplit (x & Hx & Hcplx).
    destruct (argnums_partial_Ok (wrap_init fun_ kwargs) _ _ _ Hsel)
      as [f_partial Hp].
    destruct (_std_basis_Ok (py_tuple items)) as (basis & Hb & _).
    destruct (run_pushfwd_total _ _ _ _ _ _ _ _ _ _ _ Hp Hb Hv Hsplit)
      as (ans & _ & Hrun).
    destruct (tree_mapM_check_Ok (_check_input_dtype_jacfwd false)
                (py_tuple items)) as [u Hcheck].
    { eapply Forall_impl; [done|]. intros l Hl.
      unfold _check_input_dtype_jacfwd. simpl. by rewrite Hl. }
    destruct (tree_mapM_check_total (_check_output_dtype_jacfwd false) y)
      as [(u' & _ & Hall)|(x' & e & Hx' & He & Hraise)].
    { rewrite Forall_forall in Hall. specialize (Hall x Hx).
      unfold _check_output_dtype_jacfwd in Hall. simpl in Hall.
      by destruct (adtype x). }
    unfold _check_output_dtype_jacfwd in He. simpl in He.
    destruct (is_floating (adtype x')) eqn:Hd; [done|]. injection He as <-.
    eexists f_partial, basis, _, (adtype x').
    split; [done|]. split; [done|]. split; [done|]. split; [done|].
    split; [|done].
    rewrite jacfun_unfold, Hp. simpl. rewrite Hcheck. simpl. rewrite Hb.
    simpl. rewrite Hrun. simpl. by rewrite Hraise.
Qed.

(** C9.  [value_and_jacfwd] begins with Validate-Callable: given an object
    that cannot be invoked it fails with [NotCallableError], whatever
    [argnums] is (even one that Select-Args would reject) and without
    returning a function, so no dtype validation or Jacobian work can follow;
    given a callable it never fails with that error. *)
Theorem validate_callable_first (fun_ : pyobject) :
  (callable fun_ = false →
   ∀ argnums holomorphic has_aux,
     raises (value_and_jacfwd fun_ argnums holomorphic has_aux)
       CheckCallable NotCallableError) ∧
  (callable fun_ = true →
   ∀ argnums holomorphic has_aux,
     ¬ fails_with (value_and_jacfwd fun_ argnums holomorphic has_aux)
         NotCallableError).
Proof.
  split; intros Hc argnums holomorphic has_aux; destruct fun_; try done.
  unfold value_and_jacfwd. simpl.
  destruct argnums; simpl; by intros (e & [= <-] & ?).
Qed.

(** ** The reassembler *)

Lemma size_of_app (s1 s2 : list nat) :
  size_of (s1 ++ s2) = size_of s1 * size_of s2.
Proof.
  unfold size_of. induction s1 as [|n s1 IH]; simpl; [lia|].
  rewrite IH. lia.
Qed.

Lemma reshape_Ok (x : array E) shape r :
  reshape x shape = Ok r ↔
  np_size x = size_of shape ∧ r = Array (adtype x) shape (adata x).
Proof.
  unfold reshape. destruct (decide _); split; try done.
  - by intros [= <-].
  - by intros [_ ->].
  - by intros [? _].
Qed.

Lemma np_size_split_part out D (arr : array E) o w :
  np_size (split_part out D arr o w) = size_of out * w.
Proof.
  unfold np_size, split_part. simpl. rewrite size_of_app.
  unfold size_of at 2. simpl. lia.
Qed.

Lemma unravel_parts out D (arr : array E) o (leaves : list (array E)) rs :
  mapM (λ '(x, shape), reshape x shape)
    (zip (zip_with (split_part out D arr)
            (offsets_from o (leaf_dof <$> leaves)) (leaf_dof <$> leaves))
       ((λ l, out ++ ashape l) <$> leaves)) = Ok rs ↔
  Forall (λ l, size_of out * leaf_dof l = size_of out * np_size l) leaves ∧
  rs = zip_with (jac_part out D arr)
         (offsets_from o (leaf_dof <$> leaves)) leaves.
Proof.
  revert o rs. induction leaves as [|l leaves IH]; intros o rs.
  - simpl. split; [by intros [= <-]|]. by intros [_ ->].
  - rewrite !fmap_cons.
    change (mapM ?g (zip (zip_with ?sp (offsets_from o (?w :: ?ws)) (?w :: ?ws))
                       (?s :: ?shapes)))
      with (y ← g (sp o w, s);
            k ← mapM g (zip (zip_with sp (offsets_from (o + w) ws) ws) shapes);
            mret (y :: k)).
    rewrite Forall_cons. split.
    + intros (y & Hy%reshape_Ok & (k & Hk%IH & [= <-])%bind_Ok)%bind_Ok.
      destruct Hy as [Hsz ->], Hk as [Hall ->].
      rewrite np_size_split_part, size_of_app in Hsz. done.
    + intros [[Hsz Hall] ->].
      apply bind_Ok. eexists. split.
      { apply reshape_Ok. split; [|done].
        by rewrite np_size_split_part, size_of_app. }
      apply bind_Ok. eexists. split; [by apply IH|]. done.
Qed.

Lemma _unravel_array_into_pytree_Ok (example : pytree (array E)) arr out D t :
  ashape arr = out ++ [D] →
  _unravel_array_into_pytree example arr = Ok t ↔
  Forall (λ l, size_of out * leaf_dof l = size_of out * np_size l)
    (tree_leaves example) ∧
  tree_structure t = tree_structure example ∧
  tree_leaves t
    = zip_with (jac_part out D arr)
        (offsets_from 0 (leaf_dof <$> tree_leaves example))
        (tree_leaves example).
Proof.
  intros Hshape. unfold _unravel_array_into_pytree, tree_flatten.
  rewrite Hshape, reverse_snoc, reverse_involutive. rewrite bind_Ok. split.
  - intros (rs & [Hall ->]%unravel_parts & [Hs Hl]%tree_unflatten_Ok). done.
  - intros (Hall & Hs & Hl). eexists. split.
    + apply unravel_parts. split; [done|]. done.
    + by apply tree_unflatten_Ok.
Qed.

Lemma tree_bind_Node {A B} (f : A → pytree B) k ch :
  tree_bind f (Node k ch) = Node k (tree_bind f <$> ch).
Proof. done. Qed.

Lemma tree_bind_map {A B C} (g : A → B) (f : B → pytree C) (t : pytree A) :
  tree_bind f (tree_map g t) = tree_bind (f ∘ g) t.
Proof.
  induction t as [a|k ch IH] using pytree_ind; [done|].
  rewrite tree_map_Node, !tree_bind_Node. f_equal.
  rewrite <- list_fmap_compose. by apply Forall_fmap_ext_1.
Qed.


Lemma tree_bind_ext {A B} (f g : A → pytree B) (t : pytree A) :
  Forall (λ x, f x = g x) (tree_leaves t) → tree_bind f t = tree_bind g t.
Proof.
  induction t as [a|k ch IH] using pytree_ind.
  - simpl. by intros [? _]%Forall_cons.
  - rewrite tree_leaves_Node, !tree_bind_Node. intros H. f_equal.
    apply Forall_fmap_ext_1. rewrite Forall_concat, Forall_fmap in H.
    rewrite Forall_forall in IH, H. apply Forall_forall. intros c Hc.
    apply IH; [done|]. by apply H.
Qed.



Lemma select_example_Ok argnums (items : list (pytree (array E)))
    (args : list (pytree (array E))) :
  Forall2 (λ i v, args !! i = Some v) (_ensure_index_tuple argnums) items →
  ∃ example,
    select_example argnums (py_tuple items) = Ok example ∧
    (match argnums with
     | Single _ => items = [example]
     | Many _ => example = py_tuple items
     end) ∧
    tree_leaves example = tree_leaves (py_tuple items).
Proof.
  destruct argnums as [i|l]; simpl.
  - intros H. inversion H as [|? v ? ? _ Hnil]; subst.
    inversion Hnil; subst. exists v. split; [done|]. split; [done|].
    symmetry. apply (right_id_L [] (++)).
  - intros _. by exists (py_tuple items).
Qed.

(** ** Zero degrees of freedom *)



Lemma concat_fmap_nil {A B} (f : A → list B) (l : list A) :
  (∀ x, f x = []) → concat (f <$> l) = [].
Proof.
  intros H. induction l as [|x l IH]; [done|].
  by rewrite fmap_cons, concat_cons, H, IH.
Qed.

Lemma stacked_zero_data bd (d : dual E) : adata (stacked 0 bd d) = [].
Proof.
  unfold stacked, out_tangent.
  destruct (tangent d), bd; simpl; by apply concat_fmap_nil.
Qed.



(** ** Well-formed arrays stay well-formed *)

Lemma wf_full d shape n : wf_array (full d shape n).
Proof. unfold wf_array, full, np_size. simpl. by rewrite length_replicate. Qed.

Lemma lax_binop_wf op (x y out : array E) :
  wf_array x → wf_array y → lax_binop op x y = Ok out →
  wf_array out ∧ ashape out = ashape x ∧ ashape out = ashape y ∧
  adtype out = adtype x.
Proof.
  unfold lax_binop, wf_array, np_size. intros Hx Hy.
  destruct (decide _) as [Hd|]; [|done].
  destruct (decide _) as [Hs|]; [|done]. intros [= <-]. simpl.
  rewrite length_zip_with, Hx, Hy, Hs. split; [lia|done].
Qed.

Lemma Forall_zip_with_rows (f : list E → list E → list E) n
    (r1 r2 : list (list E)) :
  (∀ a b, length a = n → length b = n → length (f a b) = n) →
  Forall (λ row, length row = n) r1 →
  Forall (λ row, length row = n) r2 →
  Forall (λ row, length row = n) (zip_with f r1 r2).
Proof.
  intros Hf H1. revert r2. induction H1 as [|a r1 Ha _ IH];
    intros [|b r2] H2; simpl; try by constructor.
  apply Forall_cons in H2 as [Hb H2]. constructor; auto.
Qed.

Lemma add_tangents_wf D n d (t1 t2 : option (list (list E))) :
  (∀ rows, t1 = Some rows →
     length rows = D ∧ Forall (λ row, length row = n) rows) →
  (∀ rows, t2 = Some rows →
     length rows = D ∧ Forall (λ row, length row = n) rows) →
  ∀ rows, add_tangents d t1 t2 = Some rows →
    length rows = D ∧ Forall (λ row, length row = n) rows.
Proof.
  intros H1 H2 rows. destruct t1 as [r1|], t2 as [r2|]; simpl;
    intros [= <-]; auto.
  destruct (H1 r1 eq_refl) as [Hl1 Hf1], (H2 r2 eq_refl) as [Hl2 Hf2].
  split; [rewrite length_zip_with; lia|].
  apply Forall_zip_with_rows; [|done..].
  intros a b Ha Hb. rewrite length_zip_with. lia.
Qed.

Lemma jvp_expr_wf D (args : list (pytree (dual E)))
    (kwargs : gmap string (pytree (array E))) (e : expr) (d : dual E) :
  Forall (wf_tree (wf_dual D)) args →
  map_Forall (λ _, wf_tree wf_array) kwargs →
  jvp_expr args kwargs e = Ok d →
  wf_dual D d.
Proof.
  intros Hargs Hkw. revert d.
  induction e as [i j|k j|dt shape n|e1 IH1 e2 IH2|e1 IH1 e2 IH2|e1 IH1 n
                  |e1 IH1|e1 IH1 dt]; intros d; simpl.
  - unfold lookup_leaf.
    destruct (args !! i) as [arg|] eqn:Harg; simpl; [|done].
    destruct (tree_leaves arg !! j) as [x|] eqn:Hx; simpl; [|done].
    intros [= <-]. rewrite Forall_forall in Hargs.
    assert (wf_tree (wf_dual D) arg) as Hwf.
    { apply Hargs. by eapply list_elem_of_lookup_2. }
    unfold wf_tree in Hwf. rewrite Forall_forall in Hwf. apply Hwf.
    by eapply list_elem_of_lookup_2.
  - unfold lookup_kwleaf.
    destruct (kwargs !! k) as [arg|] eqn:Harg; simpl; [|done].
    destruct (tree_leaves arg !! j) as [x|] eqn:Hx; simpl; [|done].
    intros [= <-]. split; [|done]. simpl.
    specialize (Hkw k arg Harg). unfold wf_tree in Hkw.
    rewrite Forall_forall in Hkw. apply Hkw. by eapply list_elem_of_lookup_2.
  - intros [= <-]. split; [apply wf_full|done].
  - intros H. apply bind_Ok in H as (x & Hx & H).
    apply bind_Ok in H as (y & Hy & H).
    apply bind_Ok in H as (out & Hout & [= <-]).
    destruct (IH1 _ Hx) as [Hx1 Hx2], (IH2 _ Hy) as [Hy1 Hy2].
    destruct (lax_binop_wf _ _ _ _ Hx1 Hy1 Hout) as (Ho & Hsx & Hsy & _).
    split; [done|]. simpl. unfold np_size in *. rewrite Hsx.
    apply add_tangents_wf; [done|]. by rewrite <- Hsx, Hsy.
  - intros H. apply bind_Ok in H as (x & Hx & H).
    apply bind_Ok in H as (y & Hy & H).
    apply bind_Ok in H as (out & Hout & [= <-]).
    destruct (IH1 _ Hx) as [Hx1 Hx2], (IH2 _ Hy) as [Hy1 Hy2].
    destruct (lax_binop_wf _ _ _ _ Hx1 Hy1 Hout) as (Ho & Hsx & Hsy & _).
    split; [done|]. simpl. unfold mul_jvp.
    unfold wf_array, np_size in *.
    apply add_tangents_wf.
    + intros rows. destruct (tangent x) as [rx|]; simpl; [|done].
      intros [= <-]. destruct (Hx2 rx eq_refl) as [Hl Hf].
      rewrite length_fmap. split; [done|]. rewrite Forall_fmap.
      eapply Forall_impl; [done|]. simpl. intros row Hrow.
      rewrite length_zip_with, Hrow, Hy1, <- Hsx, <- Hsy. lia.
    + intros rows. destruct (tangent y) as [ry|]; simpl; [|done].
      intros [= <-]. destruct (Hy2 ry eq_refl) as [Hl Hf].
      rewrite length_fmap. split; [done|]. rewrite Forall_fmap.
      eapply Forall_impl; [done|]. simpl. intros row Hrow.
      rewrite length_zip_with, Hrow, Hx1, <- Hsy, <- Hsx. lia.
  - intros H. apply bind_Ok in H as (x & Hx & [= <-]).
    destruct (IH1 _ Hx) as [Hx1 Hx2]. split; unfold wf_array, np_size in *;
      [by cbn [primal integer_pow adata ashape]; rewrite length_fmap|].
    cbn [primal tangent integer_pow adata ashape].
    intros rows. destruct (tangent x) as [rx|]; [|done].
    intros [= <-]. destruct (Hx2 rx eq_refl) as [Hl Hf].
    rewrite length_fmap. split; [done|]. rewrite Forall_fmap.
    eapply Forall_impl; [done|]. intros row Hrow.
    unfold integer_pow_jvp. cbn [compose]. destruct n.
    + by rewrite length_fmap.
    + rewrite length_zip_with, length_fmap, Hrow, Hx1. lia.
  - intros H. apply bind_Ok in H as (x & Hx & [= <-]).
    destruct (IH1 _ Hx) as [Hx1 Hx2].
    split; [done|]. simpl.
    intros rows. destruct (tangent x) as [rx|]; simpl; [|done].
    intros [= <-]. destruct (Hx2 rx eq_refl) as [Hl Hf].
    rewrite length_fmap. split; [done|]. rewrite Forall_fmap.
    by apply Forall_true.
  - intros H. apply bind_Ok in H as (x & Hx & [= <-]).
    destruct (IH1 _ Hx) as [Hx1 Hx2]. split; unfold wf_array, np_size in *;
      [by cbn [primal convert_element_type adata ashape]; rewrite length_fmap|].
    cbn [primal tangent convert_element_type adata ashape].
    unfold convert_element_type_jvp. destruct (decide _); [done|].
    intros rows. destruct (tangent x) as [rx|]; [|done].
    intros [= <-]. destruct (Hx2 rx eq_refl) as [Hl Hf].
    rewrite length_fmap. split; [done|]. rewrite Forall_fmap.
    eapply Forall_impl; [done|]. intros row Hrow. cbn [compose].
    by rewrite length_fmap.
Qed.

(** ** Lists of rows *)

Lemma length_concat_const {A B} (f : A → list B) (l : list A) n :
  Forall (λ x, length (f x) = n) l → length (concat (f <$> l)) = length l * n.
Proof.
  induction 1 as [|x l Hx _ IH]; [done|].
  rewrite fmap_cons, concat_cons, length_app, Hx, IH. simpl. lia.
Qed.

Lemma length_omap_all {A B} (f : A → option B) (l : list A) :
  Forall (λ x, is_Some (f x)) l → length (omap f l) = length l.
Proof.
  induction 1 as [|x l [y Hy] _ IH]; [done|]. simpl. rewrite Hy. simpl.
  f_equal. exact IH.
Qed.

(** Row [i] of a concatenation of rows of equal length. *)
Lemma take_drop_concat {A} (rows : list (list A)) n i row :
  Forall (λ r, length r = n) rows →
  rows !! i = Some row →
  take n (drop (i * n) (concat rows)) = row.
Proof.
  intros H. revert i row. induction H as [|r rows Hr _ IH]; intros i row;
    [done|].
  destruct i as [|i]; simpl.
  - intros [= ->]. by rewrite drop_0, take_app_length'.
  - intros Hi. rewrite drop_app_add' by done. by apply IH.
Qed.

(** ** Well-formedness of the traced arguments and of the stacked output *)

Lemma batch_dim_basis D offsets (leaves : list (array E)) :
  length offsets = length leaves →
  batch_dim (BatchTracer <$> zip_with (basis_leaf D) offsets leaves)
  = if leaves is [] then None else Some D.
Proof. by destruct leaves, offsets. Qed.

Lemma length_one_hot_row d o n i : length (one_hot_row d o n i) = n.
Proof. unfold one_hot_row. by rewrite length_fmap, length_seq. Qed.

Lemma basis_leaf_slice D o (l : array E) i :
  i < D → length (batch_slice (basis_leaf D o l) i) = np_size l.
Proof.
  intros Hi. unfold batch_slice, basis_leaf. simpl. fold (np_size l).
  destruct (decide _).
  - rewrite length_take, length_drop, length_replicate. nia.
  - erewrite take_drop_concat; [apply length_one_hot_row| |].
    + apply Forall_fmap, Forall_forall. intros ? _.
      apply length_one_hot_row.
    + rewrite list_lookup_fmap, lookup_seq_lt by done. done.
Qed.

Lemma traced_basis_wf D offsets (leaves : list (array E)) :
  length offsets = length leaves →
  Forall wf_array leaves →
  Forall (wf_dual D)
    (zip_with
       (make_dual
          (batch_dim (BatchTracer <$> zip_with (basis_leaf D) offsets leaves)))
       leaves (BatchTracer <$> zip_with (basis_leaf D) offsets leaves)).
Proof.
  intros Hlen Hwf. rewrite batch_dim_basis by done.
  destruct leaves as [|l0 leaves0]; [done|].
  remember (l0 :: leaves0) as leaves eqn:Heq. clear Heq l0 leaves0.
  revert offsets Hlen. induction Hwf as [|l leaves Hl _ IH];
    intros [|o offsets]; try done.
  simpl. intros [= Hlen]. constructor; [|by apply IH].
  split; [done|]. unfold make_dual. simpl.
  destruct (decide _); [done|]. intros rows [= <-].
  rewrite length_fmap, length_seq. split; [done|].
  apply Forall_fmap, Forall_forall. intros i Hi%elem_of_seq.
  apply basis_leaf_slice. lia.
Qed.

Lemma fill_args_Forall {X} (P : pytree X → Prop) (lift : array E → X) dyn fixed
    (dargs : list (pytree X)) :
  Forall P (from_option (fmap lift) (Node KNone []) <$> fixed) →
  Forall P dargs →
  Forall P (fill_args lift dyn fixed dargs).
Proof.
  unfold fill_args.
  generalize (from_option (fmap lift) (Node KNone []) <$> fixed).
  intros init Hinit Hd. revert init dargs Hinit Hd.
  induction dyn as [|i dyn IH]; intros init [|a dargs] Hinit Hd; try done.
  simpl. apply Forall_cons in Hd as [Ha Hd].
  apply IH; [|done]. by apply Forall_insert.
Qed.

Lemma wf_tree_children {X} (P : X → Prop) k (ch : list (pytree X)) :
  wf_tree P (Node k ch) ↔ Forall (wf_tree P) ch.
Proof.
  unfold wf_tree. rewrite tree_leaves_Node, Forall_concat, Forall_fmap. done.
Qed.

(** Every traced output of the driver's call is well formed for the batch
    of the basis. *)
Lemma traced_call_wf fun_ kwargs argnums (args : list (pytree (array E)))
    f_partial dyn_args basis out :
  Forall (wf_tree wf_array) args →
  map_Forall (λ _, wf_tree wf_array) kwargs →
  argnums_partial (wrap_init fun_ kwargs) argnums args
    = Ok (f_partial, dyn_args) →
  _std_basis dyn_args = Ok basis →
  traced_call f_partial (tree_structure dyn_args)
    (traced_args dyn_args (tree_map BatchTracer (batch_tree basis))) = Ok out →
  wf_tree (wf_dual (batch_size basis)) out.
Proof.
  intros Hargs Hkw Hp Hb Hcall.
  destruct (argnums_partial_dyn _ _ _ _ _ Hp) as (items & -> & Hitems).
  destruct (_std_basis_Ok (py_tuple items)) as (b & Hb' & HD & Hs & Hl).
  rewrite Hb in Hb'. injection Hb' as <-.
  assert (wf_tree wf_array (py_tuple items)) as Hdyn.
  { apply wf_tree_children. rewrite Forall_forall in Hargs.
    clear -Hitems Hargs. induction Hitems as [|i v ? ? Hi _ IH];
      constructor; [|done].
    apply Hargs. by eapply list_elem_of_lookup_2. }
  unfold traced_call, traced_args in Hcall.
  apply bind_Ok in Hcall as (py_args & Hu & Hcall).
  rewrite tree_leaves_map, Hl in Hu.
  apply tree_unflatten_Ok in Hu as [Hs' Hl'].
  assert (wf_tree (wf_dual (batch_size basis)) py_args) as Hpy.
  { unfold wf_tree. rewrite Hl', HD. apply traced_basis_wf; [|done].
    by rewrite length_offsets_from, length_fmap. }
  destruct py_args as [|k dargs]; [done|].
  apply wf_tree_children in Hpy. simpl in Hcall.
  unfold argnums_partial in Hp.
  apply bind_Ok in Hp as (items' & _ & [= <- _]).
  unfold call_wrapped_jvp in Hcall. simpl in Hcall.
  destruct fun_ as [body|]; [|done]. simpl in Hcall.
  apply tree_mapM_Ok in Hcall as [_ Hleaves].
  unfold wf_tree. apply Forall_forall. intros d Hd.
  apply list_elem_of_lookup_1 in Hd as [n Hn].
  destruct (Forall2_lookup_r _ _ _ _ _ Hleaves Hn) as (e & _ & He).
  eapply jvp_expr_wf; [|done|done].
  apply fill_args_Forall; [|done].
  apply Forall_fmap, Forall_forall. intros [arg|] Harg; simpl;
    [|by apply Forall_nil].
  apply list_elem_of_lookup_1 in Harg as [m Hm].
  rewrite list_lookup_imap in Hm.
  destruct (args !! m) as [arg'|] eqn:Hargm; [|done]. simpl in Hm.
  destruct (bool_decide _); [done|]. injection Hm as ->.
  unfold wf_tree. rewrite pytree_fmap_eq, tree_leaves_map.
  apply Forall_fmap. rewrite Forall_forall in Hargs.
  assert (wf_tree wf_array arg) as Hwf.
  { apply Hargs. by eapply list_elem_of_lookup_2. }
  eapply Forall_impl; [done|]. intros x Hx. by split.
Qed.

Lemma length_concat_replicate {A} (D : nat) (l : list A) :
  length (concat (replicate D <$> l)) = length l * D.
Proof.
  apply length_concat_const, Forall_forall. intros x _.
  apply length_replicate.
Qed.

Lemma stacked_wf D bd (d : dual E) :
  wf_dual D d → bd = Some D ∨ D = 0 → wf_array (stacked D bd d).
Proof.
  intros [Hp Ht] Hbd. unfold wf_array, np_size.
  rewrite stacked_shape, size_of_app.
  destruct (decide (D = 0)) as [->|HD].
  { rewrite stacked_zero_data. unfold size_of. simpl. lia. }
  destruct Hbd as [->|?]; [|done].
  unfold stacked, out_tangent. unfold wf_array, np_size in Hp.
  replace (size_of [D]) with D by (unfold size_of; simpl; lia).
  destruct (tangent d) as [rows|]; simpl.
  - destruct (Ht rows eq_refl) as [Hl Hf].
    rewrite (length_concat_const _ _ D).
    { by rewrite length_seq. }
    apply Forall_forall. intros o Ho%elem_of_seq.
    rewrite length_omap_all; [by rewrite length_seq|].
    apply Forall_forall. intros i Hi%elem_of_seq.
    destruct (lookup_lt_is_Some_2 rows i) as [row Hrow]; [lia|].
    unfold batch_slice. simpl.
    rewrite (take_drop_concat rows _ i row); [|done..].
    apply lookup_lt_is_Some_2.
    rewrite Forall_forall in Hf. rewrite (Hf row); [unfold np_size; lia|].
    by eapply list_elem_of_lookup_2.
  - rewrite length_concat_replicate, length_replicate. done.
Qed.

(** ** Splitting the trailing axis and putting it back *)

Lemma chunks_length w n (l : list E) : length (chunks w n l) = n.
Proof. revert l. induction n as [|n IH]; intros l; simpl; by rewrite ?IH. Qed.

Lemma chunks_rows w n (l : list E) :
  n * w ≤ length l → Forall (λ row, length row = w) (chunks w n l).
Proof.
  revert l. induction n as [|n IH]; intros l Hl; simpl; constructor.
  - rewrite length_take. lia.
  - apply IH. rewrite length_drop. lia.
Qed.

Lemma chunks_concat w n (l : list E) :
  length l = n * w → concat (chunks w n l) = l.
Proof.
  revert l. induction n as [|n IH]; intros l Hl; simpl.
  - by destruct l.
  - rewrite IH; [apply take_drop|]. rewrite length_drop. lia.
Qed.

(** The sub-ranges of consecutive widths tile the row. *)
Lemma pieces_concat (row : list E) o (widths : list nat) :
  concat (zip_with (λ o w, take w (drop o row)) (offsets_from o widths) widths)
  = take (sum_list widths) (drop o row).
Proof.
  revert o. induction widths as [|w widths IH]; intros o; simpl; [done|].
  rewrite IH. rewrite <- (take_take_drop _ w (sum_list widths)).
  by rewrite drop_drop.
Qed.

Lemma offsets_from_bound o (widths : list nat) o' w :
  (o', w) ∈ zip (offsets_from o widths) widths → o' + w ≤ o + sum_list widths.
Proof.
  revert o. induction widths as [|w0 widths IH]; intros o; simpl.
  - by intros ?%elem_of_nil.
  - intros [[= -> ->]|H%IH]%elem_of_cons; lia.
Qed.

Lemma concat_rows_parts (rows : list (list E)) (offsets widths : list nat) :
  (∀ row o w, row ∈ rows → (o, w) ∈ zip offsets widths →
     o + w ≤ length row) →
  concat_rows (length rows)
    (zip_with (λ o w, (w, concat ((λ row, take w (drop o row)) <$> rows)))
       offsets widths)
  = concat ((λ row, concat (zip_with (λ o w, take w (drop o row))
                              offsets widths)) <$> rows).
Proof.
  induction rows as [|row rows IH]; intros Hfit.
  - simpl. done.
  - rewrite fmap_cons, concat_cons. simpl length.
    change (concat_rows (S ?n) ?parts)
      with (concat ((λ p, take p.1 p.2) <$> parts)
            ++ concat_rows n ((λ p, (p.1, drop p.1 p.2)) <$> parts)).
    assert (∀ o w, (o, w) ∈ zip offsets widths →
              length (take w (drop o row)) = w) as Hlen.
    { intros o w Hin. rewrite length_take, length_drop.
      assert (o + w ≤ length row); [|lia].
      apply Hfit; [apply list_elem_of_here|done]. }
    f_equal.
    + f_equal. clear IH Hfit. revert widths Hlen.
      induction offsets as [|o offsets IHo]; intros [|w widths] Hlen;
        try done.
      simpl. f_equal.
      * rewrite take_app_length'; [done|]. symmetry. apply Hlen.
        apply list_elem_of_here.
      * apply IHo. intros o' w' Hin. apply Hlen. by apply list_elem_of_further.
    + rewrite <- IH
        by (intros; apply Hfit; [by apply list_elem_of_further|done]).
      f_equal.
      clear IH Hfit. revert widths Hlen.
      induction offsets as [|o offsets IHo]; intros [|w widths] Hlen;
        try done.
      simpl. f_equal.
      * f_equal. rewrite drop_app_length'; [done|]. symmetry. apply Hlen.
        apply list_elem_of_here.
      * apply IHo. intros o' w' Hin. apply Hlen. by apply list_elem_of_further.
Qed.

(** Splitting a rectangular array along its last axis into consecutive
    sub-ranges that cover the axis, and concatenating the flattened parts
    back row by row, gives the array's elements. *)
Lemma split_concat_rows (s : array E) out D (leaves : list (array E)) :
  ashape s = out ++ [D] → wf_array s →
  Forall (λ l, leaf_dof l = np_size l) leaves →
  sum_list (leaf_dof <$> leaves) = D →
  concatenate_last (adtype s) out
    (flatten_trailing out <$>
       zip_with (jac_part out D s)
         (offsets_from 0 (leaf_dof <$> leaves)) leaves)
  = s.
Proof.
  intros Hshape Hwf Hdof HD. destruct s as [dt shape data]. simpl in *.
  subst shape. unfold wf_array, np_size in Hwf. simpl in Hwf.
  rewrite size_of_app in Hwf.
  replace (size_of [D]) with D in Hwf by (unfold size_of; simpl; lia).
  set (rows := chunks D (size_of out) data).
  assert (flatten_trailing out <$>
            zip_with (jac_part out D (Array dt (out ++ [D]) data))
              (offsets_from 0 (leaf_dof <$> leaves)) leaves
          = zip_with (λ o w, (w, concat ((λ row, take w (drop o row)) <$> rows)))
              (offsets_from 0 (leaf_dof <$> leaves)) (leaf_dof <$> leaves))
    as Hparts.
  { generalize 0. clear HD. induction Hdof as [|l leaves Hl _ IH]; intros o;
      [done|].
    rewrite !fmap_cons. simpl. rewrite IH. f_equal.
    unfold flatten_trailing, jac_part. simpl.
    by rewrite drop_app_length, Hl. }
  unfold concatenate_last. rewrite Hparts. f_equal.
  - f_equal. f_equal.
    rewrite <- HD. generalize 0. clear.
    induction leaves as [|l leaves IH]; intros o; [done|].
    rewrite !fmap_cons. simpl. by rewrite IH.
  - rewrite <- (chunks_length D (size_of out) data). fold rows.
    rewrite concat_rows_parts.
    + transitivity (concat rows); [|by apply chunks_concat].
      f_equal.
      assert (Forall (λ row, length row = D) rows) as Hrows.
      { apply chunks_rows. lia. }
      rewrite <- (list_fmap_id rows) at 2. apply Forall_fmap_ext_1.
      eapply Forall_impl; [done|]. intros row Hrow. cbv beta in Hrow.
      simpl. rewrite pieces_concat, HD, drop_0. rewrite take_ge; [done|lia].
    + intros row o w Hrow Hin. apply offsets_from_bound in Hin.
      assert (Forall (λ row, length row = D) rows) as Hrows.
      { apply chunks_rows. lia. }
      rewrite Forall_forall in Hrows. rewrite (Hrows row Hrow). lia.
Qed.

(** ** The structure of the Jacobian *)

Lemma tree_structure_bind {A B} (f : A → pytree B) (t : pytree A) :
  tree_structure (tree_bind f t) = tree_bind (tree_structure ∘ f) t.
Proof.
  induction t as [a|k ch IH] using pytree_ind; [done|].
  rewrite !tree_bind_Node, tree_structure_Node. f_equal.
  rewrite <- list_fmap_compose. by apply Forall_fmap_ext_1.
Qed.

Lemma tree_structure_join {A} (blocks : pytree (pytree A)) (td : treedef) :
  Forall (λ b, tree_structure b = td) (tree_leaves blocks) →
  tree_structure (tree_join blocks)
  = treedef_compose (tree_structure blocks) td.
Proof.
  intros H. unfold tree_join, treedef_compose, tree_structure at 2.
  rewrite tree_structure_bind, tree_bind_map. apply tree_bind_ext.
  eapply Forall_impl; [done|]. by intros b <-.
Qed.

Lemma Forall2_impl_Forall {A B} (Q : A → Prop) (R T : A → B → Prop) l k :
  Forall Q l → Forall2 R l k → (∀ a b, Q a → R a b → T a b) → Forall2 T l k.
Proof.
  intros HQ HR Himpl. induction HR as [|a b l k Hab _ IH]; constructor.
  - apply Forall_cons in HQ as [? _]. auto.
  - apply Forall_cons in HQ as [_ ?]. auto.
Qed.

Lemma leaf_dof_inexact (l : array E) :
  is_inexact (adtype l) = true → leaf_dof l = np_size l.
Proof.
  intros H. unfold leaf_dof, tangent_dtype, primal_dtype_to_tangent_dtype.
  rewrite H. destruct (decide _) as [Heq|]; [|done].
  by rewrite Heq in H.
Qed.

Lemma tree_bindM_Ok {A B} (f : A → result (pytree B)) (t : pytree A) r :
  tree_bindM f t = Ok r ↔
  ∃ blocks, r = tree_join blocks ∧
    tree_structure blocks = tree_structure t ∧
    Forall2 (λ x block, f x = Ok block) (tree_leaves t) (tree_leaves blocks).
Proof.
  unfold tree_bindM. rewrite fmap_Ok. split.
  - intros (blocks & [??]%tree_mapM_Ok & ->). eauto.
  - intros (blocks & -> & ? & ?). exists blocks. split; [|done].
    by apply tree_mapM_Ok.
Qed.

(** The batch of the basis is the batch the tangents announce, unless there
    are no directions at all. *)
Lemma basis_batch_dim (dyn_args : pytree (array E)) basis :
  _std_basis dyn_args = Ok basis →
  batch_dim (tree_leaves (tree_map BatchTracer (batch_tree basis)))
    = Some (batch_size basis) ∨ batch_size basis = 0.
Proof.
  intros Hb. destruct (_std_basis_Ok dyn_args) as (b & Hb' & HD & _ & Hl).
  rewrite Hb in Hb'. injection Hb' as <-.
  rewrite tree_leaves_map, Hl, batch_dim_basis
    by by rewrite length_offsets_from, length_fmap.
  rewrite HD. destruct (tree_leaves dyn_args); [by right|by left].
Qed.

Lemma jac_part_shapes out D (s : array E) o (leaves : list (array E)) :
  Forall2 (λ l j, ashape j = out ++ ashape l) leaves
    (zip_with (jac_part out D s) (offsets_from o (leaf_dof <$> leaves)) leaves).
Proof.
  revert o. induction leaves as [|l leaves IH]; intros o; [constructor|].
  rewrite fmap_cons. simpl. constructor; [done|]. apply IH.
Qed.

Lemma unravel_stacked_block (x : pytree (array E)) D bd (d : dual E) block :
  wf_dual D d → bd = Some D ∨ D = 0 →
  Forall (λ l, is_inexact (adtype l) = true) (tree_leaves x) →
  sum_list (leaf_dof <$> tree_leaves x) = D →
  _unravel_array_into_pytree x (stacked D bd d) = Ok block →
  reassembled x (primal d) (stacked D bd d) block.
Proof.
  intros Hwf Hbd Hin HD Hu.
  apply (_unravel_array_into_pytree_Ok _ _ (ashape (primal d)) D) in Hu;
    [|apply stacked_shape].
  destruct Hu as (_ & Hs & Hl). split; [done|]. rewrite Hl. split.
  - apply jac_part_shapes.
  - apply split_concat_rows; [apply stacked_shape|by apply stacked_wf| |done].
    eapply Forall_impl; [done|]. apply leaf_dof_inexact.
Qed.

Lemma zip_fmap_same {A B C} (f : A → B) (g : A → C) (l : list A) :
  zip (f <$> l) (g <$> l) = (λ x, (f x, g x)) <$> l.
Proof. induction l as [|x l IH]; [done|]. simpl. f_equal. exact IH. Qed.

Lemma split_output_leaves {X} has_aux (v ans aux : pytree X) (P : X → Prop) :
  split_output has_aux v = Some (ans, aux) →
  wf_tree P v → wf_tree P ans.
Proof.
  unfold split_output. destruct has_aux; [|by intros [= <- _]].
  destruct (is_tuple_or_list v); [|done]. destruct v as [|k ch]; [done|].
  simpl. destruct ch as [|a [|b [|]]]; try done. intros [= <- <-].
  intros [? _]%wf_tree_children%Forall_cons. done.
Qed.

(** C5.  Differentiating with respect to a single argument [x], of any
    structure, whose leaves are rectangular and have inexact dtypes (which
    Validate-Input-Dtypes enforces unless [holomorphic] is set): whenever
    the call returns, the driver's stacked
    output mirrors the output structure, each of its leaves having the
    output leaf's shape followed by one axis of size [D], the number of
    elements of [x]; the returned Jacobian is the output structure with
    every leaf replaced by a block of the structure of [x]; and every block
    is the reassembly of its stacked leaf: each of its leaves has the output
    leaf's shape followed by the input leaf's shape, and flattening the
    trailing axes and concatenating in the basis generator's order (leaves in
    flattened order, row-major within a leaf) gives back the stacked leaf,
    element for element. *)
Theorem jacobian_structure_preserved (fun_ : pyobject) i holomorphic has_aux
    (args : list (pytree (array E))) kwargs x r :
  Forall (wf_tree wf_array) args →
  map_Forall (λ _, wf_tree wf_array) kwargs →
  args !! i = Some x →
  holomorphic = false ∨
    Forall (λ l, is_inexact (adtype l) = true) (tree_leaves x) →
  jacfun fun_ (Single i) holomorphic has_aux args kwargs = Ok r →
  ∃ f_partial basis y jac aux blocks,
    argnums_partial (wrap_init fun_ kwargs) (Single i) args
      = Ok (f_partial, py_tuple [x]) ∧
    _std_basis (py_tuple [x]) = Ok basis ∧
    batch_size basis = sum_list (np_size <$> tree_leaves x) ∧
    run_pushfwd f_partial (py_tuple [x]) has_aux basis = Ok ((y, jac), aux) ∧
    r = (if has_aux then py_tuple [py_tuple [y; aux]; tree_join blocks]
         else py_tuple [y; tree_join blocks]) ∧
    tree_structure jac = tree_structure y ∧
    Forall2 (λ yl s, ashape s = ashape yl ++ [batch_size basis])
      (tree_leaves y) (tree_leaves jac) ∧
    tree_structure blocks = tree_structure y ∧
    tree_structure (tree_join blocks)
      = treedef_compose (tree_structure y) (tree_structure x) ∧
    Forall2 (λ ys block, reassembled x ys.1 ys.2 block)
      (zip (tree_leaves y) (tree_leaves jac)) (tree_leaves blocks).
Proof.
  intros Hargs Hkw Hx Hin'
    (f_partial & dyn_args & basis & y & jac & aux & example_args & jacobian
     & Hp & [u Hcheck] & Hb & Hrun & _ & Hex & Hjac & ->)%jacfun_Ok.
  destruct (argnums_partial_dyn _ _ _ _ _ Hp) as (items & -> & Hitems).
  simpl in Hitems. inversion Hitems as [|? x' ? ? Hx' Hnil]; subst.
  inversion Hnil; subst. rewrite Hx in Hx'. injection Hx' as <-.
  injection Hex as <-.
  destruct (_std_basis_Ok (py_tuple [x])) as (b & Hb' & HD & _ & _).
  rewrite Hb in Hb'. injection Hb' as <-.
  assert (tree_leaves (py_tuple [x]) = tree_leaves x) as Hleaves.
  { simpl. apply (right_id_L [] (++)). }
  rewrite Hleaves in HD.
  assert (Forall (λ l, is_inexact (adtype l) = true) (tree_leaves x)) as Hin.
  { destruct Hin' as [->|?]; [|done].
    apply tree_mapM_Ok in Hcheck as [_ Hcheck]. rewrite Hleaves in Hcheck.
    clear -Hcheck. induction Hcheck as [|l ? ? ? Hl _ IH]; constructor;
      [|done].
    unfold _check_input_dtype_jacfwd in Hl. simpl in Hl.
    by destruct (is_inexact (adtype l)). }
  assert (Forall (λ l, leaf_dof l = np_size l) (tree_leaves x)) as Hdof.
  { eapply Forall_impl; [done|]. apply leaf_dof_inexact. }
  pose proof (basis_batch_dim _ _ Hb) as Hbd.
  apply run_pushfwd_basis_Ok in Hrun as Hrun'; [|done..].
  destruct Hrun' as (out & ans & auxd & Hcall & Hsplit & -> & -> & ->).
  set (bd := batch_dim _) in *.
  pose proof (traced_call_wf _ _ _ _ _ _ _ _ Hargs Hkw Hp Hb Hcall) as Hout.
  pose proof (split_output_leaves _ _ _ _ _ Hsplit Hout) as Hans.
  apply tree_bindM_Ok in Hjac as (blocks & -> & Hbs & Hblocks).
  rewrite tree_structure_map in Hbs.
  assert (Forall2 (λ d block,
            reassembled x (primal d) (stacked (batch_size basis) bd d) block)
            (tree_leaves ans) (tree_leaves blocks)) as Hre.
  { rewrite tree_leaves_map in Hblocks. apply Forall2_fmap_l in Hblocks.
    eapply Forall2_impl_Forall; [exact Hans|exact Hblocks|].
    intros d block Hd Hu. by eapply unravel_stacked_block. }
  exists f_partial, basis, (tree_map primal ans),
    (tree_map (stacked (batch_size basis) bd) ans),
    (tree_map primal auxd), blocks.
  split; [done|]. split; [done|].
  split. { rewrite HD. f_equal. by apply Forall_fmap_ext_1. }
  split; [done|]. split; [done|].
  split; [by rewrite !tree_structure_map|].
  split.
  { rewrite !tree_leaves_map. apply Forall2_fmap, Forall_Forall2_diag.
    apply Forall_forall. intros d _. apply stacked_shape. }
  split; [by rewrite tree_structure_map|].
  split.
  { rewrite tree_structure_map, <- Hbs. apply tree_structure_join.
    clear -Hre. induction Hre as [|???? [? _] _ IH]; constructor; done. }
  rewrite !tree_leaves_map, zip_fmap_same. apply Forall2_fmap_l.
  eapply Forall2_impl; [exact Hre|]. done.
Qed.

(** ** The call returns *)

Lemma tree_bindM_total {A B} (f : A → result (pytree B)) (t : pytree A) :
  Forall (λ x, ∃ block, f x = Ok block) (tree_leaves t) →
  ∃ r, tree_bindM f t = Ok r.
Proof.
  intros Hall.
  assert (∃ blocks, Forall2 (λ x block, f x = Ok block) (tree_leaves t) blocks)
    as [blocks Hblocks].
  { induction Hall as [|x l [block Hx] _ [blocks IH]].
    - exists []. constructor.
    - exists (block :: blocks). by constructor. }
  destruct (tree_unflatten_total t blocks) as [t' Ht'].
  { symmetry. by eapply Forall2_length. }
  apply tree_unflatten_Ok in Ht' as [Hs Hl].
  exists (tree_join t'). apply tree_bindM_Ok. exists t'.
  by rewrite Hl.
Qed.

Lemma _unravel_array_into_pytree_total (example : pytree (array E)) arr out D :
  ashape arr = out ++ [D] →
  Forall (λ l, is_inexact (adtype l) = true) (tree_leaves example) →
  ∃ t, _unravel_array_into_pytree example arr = Ok t.
Proof.
  intros Hshape Hin.
  destruct (tree_unflatten_total example
              (zip_with (jac_part out D arr)
                 (offsets_from 0 (leaf_dof <$> tree_leaves example))
                 (tree_leaves example))) as [t Ht].
  { rewrite length_zip_with, length_offsets_from, length_fmap. lia. }
  exists t. apply (_unravel_array_into_pytree_Ok _ _ out D); [done|].
  apply tree_unflatten_Ok in Ht as [? ?]. split; [|done].
  eapply Forall_impl; [done|]. intros l Hl. cbv beta.
  by rewrite leaf_dof_inexact.
Qed.

Lemma jacfun_total fun_ argnums holomorphic has_aux
    (args items : list (pytree (array E))) kwargs v y aux :
  Forall2 (λ i a, args !! i = Some a) (_ensure_index_tuple argnums) items →
  Forall (λ x, is_inexact (adtype x) = true) (tree_leaves (py_tuple items)) →
  py_call fun_ args kwargs = Ok v →
  split_output has_aux v = Some (y, aux) →
  Forall (λ x, holomorphic || is_floating (adtype x) = true) (tree_leaves y) →
  ∃ jacobian,
    jacfun fun_ argnums holomorphic has_aux args kwargs
      = Ok (if has_aux then py_tuple [py_tuple [y; aux]; jacobian]
            else py_tuple [y; jacobian]).
Proof.
  intros Hsel Hin Hv Hsplit Hout.
  destruct (argnums_partial_Ok (wrap_init fun_ kwargs) _ _ _ Hsel)
    as [f_partial Hp].
  destruct (_std_basis_Ok (py_tuple items)) as (basis & Hb & _).
  destruct (run_pushfwd_total _ _ _ _ _ _ _ _ _ _ _ Hp Hb Hv Hsplit)
    as (ans & Hy & Hrun).
  destruct (select_example_Ok _ _ _ Hsel) as (example & Hex & _ & Hexl).
  destruct (tree_mapM_check_Ok (_check_input_dtype_jacfwd holomorphic)
              (py_tuple items)) as [u1 Hc1].
  { eapply Forall_impl; [done|]. intros l Hl.
    unfold _check_input_dtype_jacfwd. by rewrite Hl, orb_true_r. }
  destruct (tree_mapM_check_Ok (_check_output_dtype_jacfwd holomorphic) y)
    as [u2 Hc2].
  { eapply Forall_impl; [done|]. intros l Hl.
    unfold _check_output_dtype_jacfwd. by rewrite Hl. }
  set (jac := tree_map _ ans) in Hrun.
  destruct (tree_bindM_total (_unravel_array_into_pytree example) jac)
    as [jacobian Hjac].
  { unfold jac. rewrite tree_leaves_map. apply Forall_fmap, Forall_forall.
    intros d _. simpl.
    apply (_unravel_array_into_pytree_total _ _ (ashape (primal d))
             (batch_size basis)); [apply stacked_shape|by rewrite Hexl]. }
  exists jacobian.
  rewrite jacfun_unfold, Hp. simpl. rewrite Hc1. simpl. rewrite Hb. simpl.
  rewrite Hrun. simpl. rewrite Hc2. simpl. rewrite Hex. simpl.
  by rewrite Hjac.
Qed.

(** C1.  Let [jf] be the function returned by [value_and_jacfwd].
    (1) Whenever [jf] returns, the wrapped function evaluates on the same
    arguments, and the value component of the result, [r[0]] without
    [has_aux] and [r[0][0]] with it, is exactly (as arrays: same dtype, shape
    and elements) the value the function returns when called directly; with
    [has_aux] that is the first element of the pair the function returns,
    and [r[0][1]] is the second.  (2) And [jf] does return, with that value,
    on every input on which the function evaluates and which the two dtype
    validations accept. *)
Theorem value_component_is_fun_value fun_ argnums holomorphic has_aux jf
    (args : list (pytree (array E))) kwargs :
  value_and_jacfwd fun_ argnums holomorphic has_aux = Ok jf →
  (∀ r, jf args kwargs = Ok r →
     ∃ v, py_call fun_ args kwargs = Ok v ∧
          if has_aux
          then ∃ value aux,
                 is_tuple_or_list v = true ∧ tuple_items v = [value; aux] ∧
                 (getitem r 0 ≫= λ r0, getitem r0 0) = Some value ∧
                 (getitem r 0 ≫= λ r0, getitem r0 1) = Some aux
          else getitem r 0 = Some v) ∧
  (∀ index items v y aux,
     _ensure_index argnums = Ok index →
     Forall2 (λ i a, args !! i = Some a) (_ensure_index_tuple index) items →
     Forall (λ x, is_inexact (adtype x) = true)
       (tree_leaves (py_tuple items)) →
     py_call fun_ args kwargs = Ok v →
     split_output has_aux v = Some (y, aux) →
     Forall (λ x, holomorphic || is_floating (adtype x) = true)
       (tree_leaves y) →
     ∃ jacobian,
       jf args kwargs
         = Ok (if has_aux then py_tuple [py_tuple [y; aux]; jacobian]
               else py_tuple [y; jacobian])).
Proof.
  intros (body & idx & -> & Hidx & ->)%value_and_jacfwd_Ok. split.
  - intros r.
    intros (f_partial & dyn_args & basis & y & jac & aux & example_args
            & jacobian & Hp & _ & _ & Hrun & _ & _ & _ & ->)%jacfun_Ok.
    pose proof (run_pushfwd_value _ _ _ _ _ _ _ _ _ _ _ Hp Hrun) as Hv.
    destruct has_aux.
    + destruct Hv as (pair & Hcall & Hpair & Hitems).
      exists pair. split; [done|]. by exists y, aux.
    + by exists y.
  - intros index items v y aux Hindex Hsel Hin Hv Hsplit Hout.
    rewrite Hidx in Hindex. injection Hindex as <-.
    by eapply jacfun_total.
Qed.

Lemma unravel_stacked_shapes (example : pytree (array E)) D bd (d : dual E)
    block :
  _unravel_array_into_pytree example (stacked D bd d) = Ok block →
  tree_structure block = tree_structure example ∧
  Forall2 (λ l j, ashape j = ashape (primal d) ++ ashape l)
    (tree_leaves example) (tree_leaves block).
Proof.
  intros Hu.
  apply (_unravel_array_into_pytree_Ok _ _ (ashape (primal d)) D) in Hu;
    [|apply stacked_shape].
  destruct Hu as (_ & Hs & Hl). split; [done|].
  rewrite Hl. apply jac_part_shapes.
Qed.

Lemma jacfun_blocks (f_partial : WrappedFun)
    (items : list (pytree (array E))) has_aux basis y jac aux example
    jacobian :
  _std_basis (py_tuple items) = Ok basis →
  run_pushfwd f_partial (py_tuple items) has_aux basis = Ok ((y, jac), aux) →
  tree_bindM (_unravel_array_into_pytree example) jac = Ok jacobian →
  tree_structure jac = tree_structure y ∧
  Forall2 (λ yl s, ashape s = ashape yl ++ [batch_size basis])
    (tree_leaves y) (tree_leaves jac) ∧
  ∃ blocks,
    jacobian = tree_join blocks ∧
    tree_structure blocks = tree_structure y ∧
    Forall2 (λ yl block,
               tree_structure block = tree_structure example ∧
               Forall2 (λ l j, ashape j = ashape yl ++ ashape l)
                 (tree_leaves example) (tree_leaves block))
      (tree_leaves y) (tree_leaves blocks) ∧
    tree_structure (tree_join blocks)
      = treedef_compose (tree_structure y) (tree_structure example).
Proof.
  intros Hb Hrun Hjac.
  apply run_pushfwd_basis_Ok in Hrun; [|done..].
  destruct Hrun as (out & ans & auxd & _ & _ & -> & -> & _).
  set (bd := batch_dim _) in *.
  split; [by rewrite !tree_structure_map|].
  split.
  { rewrite !tree_leaves_map. apply Forall2_fmap, Forall_Forall2_diag.
    apply Forall_forall. intros d _. apply stacked_shape. }
  apply tree_bindM_Ok in Hjac as (blocks & -> & Hbs & Hblocks).
  rewrite tree_structure_map in Hbs.
  rewrite tree_leaves_map in Hblocks. apply Forall2_fmap_l in Hblocks.
  assert (Forall2 (λ d block,
            tree_structure block = tree_structure example ∧
            Forall2 (λ l j, ashape j = ashape (primal d) ++ ashape l)
              (tree_leaves example) (tree_leaves block))
            (tree_leaves ans) (tree_leaves blocks)) as Hshapes.
  { eapply Forall2_impl; [exact Hblocks|]. intros d block Hu.
    by eapply unravel_stacked_shapes. }
  exists blocks. split; [done|].
  rewrite tree_structure_map. split; [done|].
  split.
  { rewrite tree_leaves_map. by apply Forall2_fmap_l. }
  rewrite <- Hbs. apply tree_structure_join.
  clear -Hshapes.
  induction Hshapes as [|d block ? ? [Hs _] _ IH]; constructor; done.
Qed.

(** C4.  The function returned by [value_and_jacfwd] returns the 2-tuple
    [(value, jacobian)] without [has_aux] and the 2-tuple
    [((value, aux), jacobian)] with it.  Here [value] is what [fun] returns
    on the call's arguments (with [has_aux] the first element of the pair
    that it returns, [aux] being the second), and [jacobian] is the stacked
    output of the batched driver for [fun], reassembled over the selected
    arguments: the structure of [value] with every leaf replaced by a
    structure of the example. *)
Theorem return_shape fun_ argnums holomorphic has_aux jf
    (args : list (pytree (array E))) kwargs r :
  value_and_jacfwd fun_ argnums holomorphic has_aux = Ok jf →
  jf args kwargs = Ok r →
  ∃ index f_partial dyn_args basis value jac aux example jacobian,
    _ensure_index argnums = Ok index ∧
    argnums_partial (wrap_init fun_ kwargs) index args
      = Ok (f_partial, dyn_args) ∧
    _std_basis dyn_args = Ok basis ∧
    run_pushfwd f_partial dyn_args has_aux basis = Ok ((value, jac), aux) ∧
    (if has_aux
     then ∃ pair, py_call fun_ args kwargs = Ok pair ∧
                  is_tuple_or_list pair = true ∧
                  tuple_items pair = [value; aux]
     else py_call fun_ args kwargs = Ok value) ∧
    select_example index dyn_args = Ok example ∧
    tree_bindM (_unravel_array_into_pytree example) jac = Ok jacobian ∧
    tree_structure jacobian
      = treedef_compose (tree_structure value) (tree_structure example) ∧
    r = if has_aux then py_tuple [py_tuple [value; aux]; jacobian]
        else py_tuple [value; jacobian].
Proof.
  intros (body & idx & -> & Hidx & ->)%value_and_jacfwd_Ok.
  intros (f_partial & dyn_args & basis & y & jac & aux & example
          & jacobian & Hp & _ & Hb & Hrun & _ & Hex & Hjac & ->)%jacfun_Ok.
  pose proof (run_pushfwd_value _ _ _ _ _ _ _ _ _ _ _ Hp Hrun) as Hv.
  destruct (argnums_partial_dyn _ _ _ _ _ Hp) as (items & -> & _).
  destruct (jacfun_blocks _ _ _ _ _ _ _ _ _ Hb Hrun Hjac)
    as (_ & _ & blocks & Hj & _ & _ & Hs).
  rewrite <- Hj in Hs.
  exists idx, f_partial, (py_tuple items), basis, y, jac, aux, example,
    jacobian.
  done.
Qed.


(** ** Auxiliary outputs *)

Lemma tree_mapM_Node2 {A B} (f : A → result B) k (a b : pytree A) out :
  tree_mapM f (Node k [a; b]) = Ok out ↔
  ∃ oa ob, tree_mapM f a = Ok oa ∧ tree_mapM f b = Ok ob ∧
           out = Node k [oa; ob].
Proof.
  rewrite tree_mapM_Ok. split.
  - intros [Hs Hl]. destruct out as [|k' [|oa [|ob [|]]]]; try done.
    injection Hs as -> Hsa Hsb. exists oa, ob.
    rewrite !tree_leaves_Node in Hl. simpl in Hl.
    rewrite !(right_id_L [] (++)) in Hl.
    apply Forall2_app_inv in Hl as [Hla Hlb];
      [|symmetry; by apply tree_structure_length].
    split; [by apply tree_mapM_Ok|]. split; [by apply tree_mapM_Ok|done].
  - intros (oa & ob & [Hsa Hla]%tree_mapM_Ok & [Hsb Hlb]%tree_mapM_Ok & ->).
    split.
    + rewrite !tree_structure_Node. simpl. by rewrite Hsa, Hsb.
    + rewrite !tree_leaves_Node. simpl. rewrite !(right_id_L [] (++)).
      by apply Forall2_app.
Qed.

Lemma traced_call_unfold (fun_ : pyobject) kwargs argnums
    (args : list (pytree (array E))) f_partial dyn_args td targs :
  argnums_partial (wrap_init fun_ kwargs) argnums args
    = Ok (f_partial, dyn_args) →
  traced_call f_partial td targs =
    py_args ← tree_unflatten td targs;
    py_call_jvp fun_
      (fill_args lift_primal (_ensure_index_tuple argnums)
         (imap (λ i arg,
                  if bool_decide (i ∈ _ensure_index_tuple argnums)
                  then None else Some arg) args)
         (tuple_items py_args))
      kwargs.
Proof.
  unfold argnums_partial. intros H.
  by apply bind_Ok in H as (items & _ & [= <- _]).
Qed.

(** With [has_aux], the function returns a pair; the auxiliary component
    of the result is the direct evaluation of the pair's second component,
    and the Jacobian is the Jacobian of the first component alone. *)
Lemma aux_passthrough_general (body : pytree expr) argnums holomorphic
    (args : list (pytree (array E))) kwargs r :
  jacfun (PyFunction body) argnums holomorphic true args kwargs = Ok r →
  ∃ k primary auxiliary y aux jacobian,
    body = Node k [primary; auxiliary] ∧ (k = KTuple ∨ k = KList) ∧
    py_call (PyFunction primary) args kwargs = Ok y ∧
    py_call (PyFunction auxiliary) args kwargs = Ok aux ∧
    r = py_tuple [py_tuple [y; aux]; jacobian] ∧
    jacfun (PyFunction primary) argnums holomorphic false args kwargs
      = Ok (py_tuple [y; jacobian]).
Proof.
  intros (f_partial & dyn_args & basis & y & jac & aux & example & jacobian
          & Hp & Hin & Hb & Hrun & Hout & Hex & Hjac & ->)%jacfun_Ok.
  destruct (argnums_partial_dyn _ _ _ _ _ Hp) as (items & -> & Hitems).
  apply run_pushfwd_basis_Ok in Hrun; [|done..].
  destruct Hrun as (out & ans & auxd & Hcall & Hsplit & Hy & Hjacv & Haux).
  unfold split_output in Hsplit.
  destruct (is_tuple_or_list out) eqn:Hseq; [|done].
  destruct out as [|k [|ans' [|auxd' [|]]]]; try done.
  simpl in Hsplit. injection Hsplit as -> ->.
  assert (k = KTuple ∨ k = KList) as Hk.
  { destruct k; try done; auto. }
  rewrite (traced_call_unfold _ _ _ _ _ _ _ _ Hp) in Hcall.
  apply bind_Ok in Hcall as (py_args & Hu & Hcall).
  simpl in Hcall. pose proof Hcall as Hcall'.
  apply tree_mapM_Ok in Hcall' as [Hs _].
  destruct body as [|k' [|primary [|auxiliary [|]]]]; try done.
  injection Hs as <- _ _.
  apply tree_mapM_Node2 in Hcall
    as (oa & ob & Hprimary & Hauxiliary & [= <- <-]).
  destruct (argnums_partial_Ok (wrap_init (PyFunction primary) kwargs)
              _ _ _ Hitems) as [fp1 Hp1].
  destruct (argnums_partial_Ok (wrap_init (PyFunction auxiliary) kwargs)
              _ _ _ Hitems) as [fp2 Hp2].
  destruct (basis_checks_pass _ _ Hb) as [Hstruct _].
  assert (traced_call fp1 (tree_structure (Node KTuple items))
            (traced_args (Node KTuple items)
               (tree_map BatchTracer (batch_tree basis))) = Ok ans) as Hc1.
  { rewrite (traced_call_unfold _ _ _ _ _ _ _ _ Hp1), Hu. done. }
  assert (traced_call fp2 (tree_structure (Node KTuple items))
            (traced_args (Node KTuple items)
               (tree_map BatchTracer (batch_tree basis))) = Ok auxd) as Hc2.
  { rewrite (traced_call_unfold _ _ _ _ _ _ _ _ Hp2), Hu. done. }
  pose proof (traced_call_primal fp1 _ _ Hstruct) as Hv1.
  rewrite Hc1, (argnums_partial_call _ _ _ _ _ _ Hp1) in Hv1.
  pose proof (traced_call_primal fp2 _ _ Hstruct) as Hv2.
  rewrite Hc2, (argnums_partial_call _ _ _ _ _ _ Hp2) in Hv2.
  exists k, primary, auxiliary, y, aux, jacobian.
  split; [done|]. split; [done|].
  split; [by rewrite Hy|]. split; [by rewrite Haux|]. split; [done|].
  apply jacfun_Ok.
  exists fp1, (Node KTuple items), basis, y, jac, (Node KNone []), example,
    jacobian.
  split; [done|]. split; [done|]. split; [done|].
  split; [|done].
  apply run_pushfwd_basis_Ok; [done..|].
  exists ans, ans, (Node KNone []). done.
Qed.

(** * Further properties of the code *)

(** ** [_jvp] once its checks have passed *)

Lemma _jvp_Ok_checks (f : WrappedFun) (primals : pytree (array E))
    (tangents : pytree (tval E)) has_aux (r : jvp_out has_aux) :
  _jvp f primals tangents has_aux = Ok r →
  is_tuple_or_list primals = true ∧ is_tuple_or_list tangents = true ∧
  tree_structure primals = tree_structure tangents ∧
  Forall pair_ok (zip (tree_leaves primals) (tree_leaves tangents)).
Proof.
  unfold _jvp, tree_flatten.
  destruct (is_tuple_or_list primals); [|done].
  destruct (is_tuple_or_list tangents); [|done]. simpl.
  destruct (treedef_eqb _ _) eqn:Hs; [|done]. simpl.
  intros H. apply bind_Ok in H as (pairs & [Hlen ->]%safe_zip_Ok & H).
  apply bind_Ok in H as (us & Hus & _).
  apply treedef_eqb_eq in Hs. split; [done|]. split; [done|]. split; [done|].
  apply mapM_Ok in Hus.
  induction Hus as [|pt u ? ? Hpt _ IH]; constructor; [|done].
  by eapply check_pair_Ok.
Qed.

Lemma traced_call_Ok_iff (f : WrappedFun) (primals : pytree (array E))
    (tangents : pytree (tval E)) v :
  tree_structure primals = tree_structure tangents →
  call_wrapped f (tuple_items primals) = Ok v ↔
  ∃ out,
    traced_call f (tree_structure primals) (traced_args primals tangents)
      = Ok out ∧
    v = tree_map primal out.
Proof.
  intros Hs. rewrite <- (traced_call_primal f primals tangents Hs).
  apply fmap_Ok.
Qed.

Lemma traced_call_Raise (f : WrappedFun) (primals : pytree (array E))
    (tangents : pytree (tval E)) e :
  tree_structure primals = tree_structure tangents →
  call_wrapped f (tuple_items primals) = Raise e →
  traced_call f (tree_structure primals) (traced_args primals tangents)
    = Raise e.
Proof.
  intros Hs. rewrite <- (traced_call_primal f primals tangents Hs).
  destruct (traced_call _ _ _); simpl; [done|]. by intros [= ->].
Qed.

Lemma out_tangent_pair_ok bd (d : dual E) :
  pair_ok (primal d, out_tangent bd d).
Proof. unfold pair_ok, out_tangent. by destruct (tangent d), bd. Qed.

Lemma out_tangents_conform bd (ans : pytree (dual E)) :
  tree_structure (tree_map (out_tangent bd) ans)
    = tree_structure (tree_map primal ans) ∧
  Forall pair_ok
    (zip (tree_leaves (tree_map primal ans))
       (tree_leaves (tree_map (out_tangent bd) ans))).
Proof.
  split; [by rewrite !tree_structure_map|].
  rewrite !tree_leaves_map, zip_fmap_same. apply Forall_fmap, Forall_forall.
  intros d _. apply out_tangent_pair_ok.
Qed.

(** X1.  Once the checks of [_jvp] have passed, [_jvp] returns exactly when
    the wrapped function returns on the primals, and the value it returns
    is the function's value there, whatever the tangents are.  With
    [has_aux] the function must return a pair; the value is its first
    element and [aux] its second. *)
Theorem _jvp_returns_fun_value (f : WrappedFun) (primals : pytree (array E))
    (tangents : pytree (tval E)) :
  is_tuple_or_list primals = true →
  is_tuple_or_list tangents = true →
  tree_structure primals = tree_structure tangents →
  Forall pair_ok (zip (tree_leaves primals) (tree_leaves tangents)) →
  (∀ y, (∃ ydot, _jvp f primals tangents false = Ok (y, ydot)) ↔
        call_wrapped f (tuple_items primals) = Ok y) ∧
  (∀ y aux, (∃ ydot, _jvp f primals tangents true = Ok ((y, ydot), aux)) ↔
            ∃ pair, call_wrapped f (tuple_items primals) = Ok pair ∧
                    is_tuple_or_list pair = true ∧
                    tuple_items pair = [y; aux]).
Proof.
  intros Hp Ht Hs Hok. split.
  - intros y. split.
    + intros [ydot H]. by eapply _jvp_plain_value.
    + intros (out & Hout & ->)%(traced_call_Ok_iff _ _ tangents); [|done].
      eexists. apply _jvp_plain_Ok; [done..|]. by exists out.
  - intros y aux. split.
    + intros [ydot H]. by eapply _jvp_aux_value.
    + intros (pair & (out & Hout & ->)%(traced_call_Ok_iff _ _ tangents)
              & Hpair & Hitems); [|done].
      rewrite is_tuple_or_list_map in Hpair.
      rewrite tuple_items_map in Hitems.
      destruct (tuple_items out) as [|ans [|auxd [|]]] eqn:Hout'; try done.
      injection Hitems as <- <-.
      eexists. apply _jvp_aux_Ok; [done..|]. by exists out, ans, auxd.
Qed.

Lemma _jvp_call_Raise (f : WrappedFun) (primals : pytree (array E))
    (tangents : pytree (tval E)) e has_aux :
  is_tuple_or_list primals = true →
  is_tuple_or_list tangents = true →
  tree_structure primals = tree_structure tangents →
  Forall pair_ok (zip (tree_leaves primals) (tree_leaves tangents)) →
  call_wrapped f (tuple_items primals) = Raise e →
  _jvp f primals tangents has_aux = Raise e.
Proof.
  intros Hp Ht Hs Hok He.
  apply (traced_call_Raise _ _ tangents) in He; [|done].
  rewrite _jvp_checks_pass by done.
  unfold traced_call, traced_args in He.
  destruct has_aux;
    unfold ad_jvp_aux, ad_jvp, flatten_fun_nokwargs2, flatten_fun_nokwargs;
    destruct (tree_unflatten _ _) as [py_args|]; simpl in *;
    by rewrite ?He; try injection He as ->.
Qed.

(** X2.  [_jvp] does not handle exceptions: once its checks have passed, an
    exception that the wrapped function raises on the primals is the
    exception of the [_jvp] call, with and without [has_aux]. *)
Theorem _jvp_propagates_exception (f : WrappedFun)
    (primals : pytree (array E)) (tangents : pytree (tval E)) e :
  is_tuple_or_list primals = true →
  is_tuple_or_list tangents = true →
  tree_structure primals = tree_structure tangents →
  Forall pair_ok (zip (tree_leaves primals) (tree_leaves tangents)) →
  call_wrapped f (tuple_items primals) = Raise e →
  ∀ has_aux, _jvp f primals tangents has_aux = Raise e.
Proof. intros Hp Ht Hs Hok He has_aux. by apply _jvp_call_Raise. Qed.

(** X3.  What [_jvp] returns can be paired again: the tangent output has
    the tree structure of the value, and every leaf of it has the shape of
    the value's leaf and the tangent dtype of that leaf's dtype, which are
    the conditions that [_jvp] itself puts on a primal and its tangent. *)
Theorem _jvp_output_conforms (f : WrappedFun) (primals : pytree (array E))
    (tangents : pytree (tval E)) :
  (∀ y ydot, _jvp f primals tangents false = Ok (y, ydot) →
     tree_structure ydot = tree_structure y ∧
     Forall pair_ok (zip (tree_leaves y) (tree_leaves ydot))) ∧
  (∀ y ydot aux, _jvp f primals tangents true = Ok ((y, ydot), aux) →
     tree_structure ydot = tree_structure y ∧
     Forall pair_ok (zip (tree_leaves y) (tree_leaves ydot))).
Proof.
  split.
  - intros y ydot H.
    destruct (_jvp_Ok_checks _ _ _ _ _ H) as (Hp & Ht & Hs & Hok).
    apply _jvp_plain_Ok in H as (ans & _ & -> & ->); [|done..].
    apply out_tangents_conform.
  - intros y ydot aux H.
    destruct (_jvp_Ok_checks _ _ _ _ _ H) as (Hp & Ht & Hs & Hok).
    apply _jvp_aux_Ok in H as (pair & ans & auxd & _ & _ & _ & -> & -> & _);
      [|done..].
    apply out_tangents_conform.
Qed.

(** X4.  Lines 78-90: with [has_aux] the second element of the pair that
    the function returns is handed back as it is, without a tangent.  If
    [_jvp] returns [((y, ydot), aux)] with [has_aux], then without it the
    same call returns the pair [(y, aux)] as value, in the kind of
    container the function returned, and a pair of tangents whose first
    element is [ydot]. *)
Theorem _jvp_aux_is_second_output (f : WrappedFun)
    (primals : pytree (array E)) (tangents : pytree (tval E)) y ydot aux :
  _jvp f primals tangents true = Ok ((y, ydot), aux) →
  ∃ k auxdot,
    (k = KTuple ∨ k = KList) ∧
    call_wrapped f (tuple_items primals) = Ok (Node k [y; aux]) ∧
    _jvp f primals tangents false
      = Ok (Node k [y; aux], Node k [ydot; auxdot]).
Proof.
  intros H.
  destruct (_jvp_Ok_checks _ _ _ _ _ H) as (Hp & Ht & Hs & Hok).
  apply _jvp_aux_Ok in H
    as (pair & ans & auxd & Hcall & Hpair & Hitems & -> & -> & ->); [|done..].
  destruct pair as [|k items]; [done|]. simpl in Hitems. subst items.
  exists k, (tree_map (out_tangent (batch_dim (tree_leaves tangents))) auxd).
  split; [destruct k; try done; auto|].
  split.
  - apply (traced_call_Ok_iff _ _ tangents); [done|].
    eexists. split; [done|]. by rewrite tree_map_Node.
  - apply _jvp_plain_Ok; [done..|].
    eexists. split; [done|]. by rewrite !tree_map_Node.
Qed.

(** ** [jacfun]: what the flags and [argnums] change *)

Lemma check_input_Raise h (x : array E) e :
  _check_input_dtype_jacfwd h x = Raise e →
  spec_error_of e = Some InputDtypeError.
Proof.
  unfold _check_input_dtype_jacfwd. destruct (_ || _); [done|].
  by intros [= <-].
Qed.

Lemma check_output_Raise h (x : array E) e :
  _check_output_dtype_jacfwd h x = Raise e →
  spec_error_of e = Some OutputDtypeError.
Proof.
  unfold _check_output_dtype_jacfwd. destruct (_ || _); [done|].
  by intros [= <-].
Qed.

(** X5.  [holomorphic] reaches nothing but the two dtype validations
    (lines 104 and 111): if a call returns, the same call with the other
    value of the flag returns the same result, unless one of the two
    validations rejects it. *)
Theorem holomorphic_only_validates (fun_ : pyobject) argnums holomorphic
    has_aux (args : list (pytree (array E))) kwargs r :
  jacfun fun_ argnums holomorphic has_aux args kwargs = Ok r →
  ∀ holomorphic',
    jacfun fun_ argnums holomorphic' has_aux args kwargs = Ok r ∨
    fails_with (jacfun fun_ argnums holomorphic' has_aux args kwargs)
      InputDtypeError ∨
    fails_with (jacfun fun_ argnums holomorphic' has_aux args kwargs)
      OutputDtypeError.
Proof.
  intros (f_partial & dyn_args & basis & y & jac & aux & example & jacobian
          & Hp & _ & Hb & Hrun & _ & Hex & Hjac & ->)%jacfun_Ok h'.
  destruct (tree_mapM_check_total (_check_input_dtype_jacfwd h') dyn_args)
    as [(u1 & Hc1 & _)|(x & e & _ & He & Hraise)].
  2: { right. left. exists e. split; [|by eapply check_input_Raise].
       rewrite jacfun_unfold, Hp. simpl. by rewrite Hraise. }
  destruct (tree_mapM_check_total (_check_output_dtype_jacfwd h') y)
    as [(u2 & Hc2 & _)|(x & e & _ & He & Hraise)].
  2: { right. right. exists e. split; [|by eapply check_output_Raise].
       rewrite jacfun_unfold, Hp. simpl. rewrite Hc1. simpl. rewrite Hb.
       simpl. rewrite Hrun. simpl. by rewrite Hraise. }
  left. apply jacfun_Ok.
  exists f_partial, dyn_args, basis, y, jac, aux, example, jacobian.
  eauto 10.
Qed.

(** X6.  [jacfun] does not handle exceptions either: if the arguments
    selected by [argnums] exist and pass the input validation, an exception
    that [fun] raises on the call's arguments is the exception of the
    call. *)
Theorem jacfun_propagates_exception (fun_ : pyobject) argnums holomorphic
    has_aux (args items : list (pytree (array E))) kwargs e :
  Forall2 (λ i a, args !! i = Some a) (_ensure_index_tuple argnums) items →
  Forall (λ x, holomorphic || is_inexact (adtype x) = true)
    (tree_leaves (py_tuple items)) →
  py_call fun_ args kwargs = Raise e →
  jacfun fun_ argnums holomorphic has_aux args kwargs = Raise e.
Proof.
  intros Hsel Hin He.
  destruct (argnums_partial_Ok (wrap_init fun_ kwargs) _ _ _ Hsel)
    as [f_partial Hp].
  destruct (_std_basis_Ok (py_tuple items)) as (basis & Hb & _).
  destruct (basis_checks_pass _ _ Hb) as [Hs Hok].
  destruct (tree_mapM_check_Ok (_check_input_dtype_jacfwd holomorphic)
              (py_tuple items)) as [u1 Hc1].
  { eapply Forall_impl; [done|]. intros l Hl.
    unfold _check_input_dtype_jacfwd. by rewrite Hl. }
  rewrite <- (argnums_partial_call _ _ _ _ _ _ Hp) in He.
  assert (∀ b, _jvp f_partial (py_tuple items)
                 (tree_map BatchTracer (batch_tree basis)) b = Raise e)
    as Hjvp.
  { intros b. apply _jvp_call_Raise; try done.
    by rewrite <- (is_tuple_or_list_structure _ _ Hs). }
  rewrite jacfun_unfold, Hp. simpl. rewrite Hc1. simpl. rewrite Hb. simpl.
  unfold run_pushfwd, vmap. rewrite pytree_fmap_eq.
  destruct has_aux; by rewrite Hjvp.
Qed.

Lemma unravel_tuple1 (x : pytree (array E)) (arr : array E) block' :
  _unravel_array_into_pytree (py_tuple [x]) arr = Ok block' ↔
  ∃ block, _unravel_array_into_pytree x arr = Ok block ∧
           block' = py_tuple [block].
Proof.
  unfold _unravel_array_into_pytree, tree_flatten.
  rewrite tree_leaves_Node, tree_structure_Node. simpl.
  rewrite (right_id_L [] (++)).
  destruct (reverse (ashape arr)) as [|D rev_out].
  { split; [done|]. by intros (? & [=] & _). }
  destruct (mapM _ _) as [parts|]; simpl.
  2: { split; [done|]. by intros (? & [=] & _). }
  rewrite tree_unflatten_Ok. split.
  - intros [Hs Hl]. destruct block' as [|k [|block [|]]]; try done.
    rewrite tree_structure_Node in Hs. injection Hs as -> Hs.
    rewrite tree_leaves_Node in Hl. simpl in Hl.
    rewrite (right_id_L [] (++)) in Hl.
    exists block. split; [|done]. by apply tree_unflatten_Ok.
  - intros (block & [Hs Hl]%tree_unflatten_Ok & ->).
    rewrite tree_structure_Node, tree_leaves_Node. simpl.
    by rewrite (right_id_L [] (++)), Hs, Hl.
Qed.

Lemma tree_bindM_unravel_tuple1 (x : pytree (array E))
    (jac : pytree (array E)) :
  (∀ blocks,
     tree_structure blocks = tree_structure jac →
     Forall2 (λ s block, _unravel_array_into_pytree x s = Ok block)
       (tree_leaves jac) (tree_leaves blocks) →
     Forall2 (λ s block, _unravel_array_into_pytree (py_tuple [x]) s = Ok block)
       (tree_leaves jac)
       (tree_leaves (tree_map (λ b, py_tuple [b]) blocks))) ∧
  (∀ blocks',
     tree_structure blocks' = tree_structure jac →
     Forall2 (λ s block, _unravel_array_into_pytree (py_tuple [x]) s = Ok block)
       (tree_leaves jac) (tree_leaves blocks') →
     ∃ blocks, blocks' = tree_map (λ b, py_tuple [b]) blocks ∧
       tree_structure blocks = tree_structure jac ∧
       Forall2 (λ s block, _unravel_array_into_pytree x s = Ok block)
         (tree_leaves jac) (tree_leaves blocks)).
Proof.
  split.
  - intros blocks _ H. rewrite tree_leaves_map. apply Forall2_fmap_r.
    eapply Forall2_impl; [done|]. intros s block Hb.
    apply unravel_tuple1. by exists block.
  - intros blocks' Hs H.
    assert (∃ bs, tree_leaves blocks' = (λ b, py_tuple [b]) <$> bs ∧
              Forall2 (λ s block, _unravel_array_into_pytree x s = Ok block)
                (tree_leaves jac) bs) as (bs & Hbs & Hall).
    { induction H as [|s b' ? ? (b & Hb & ->)%unravel_tuple1 _
                        (bs & -> & IH)].
      - by exists [].
      - exists (b :: bs). split; [done|]. by constructor. }
    destruct (tree_unflatten_total blocks' bs) as [blocks Hblocks].
    { by rewrite Hbs, length_fmap. }
    apply tree_unflatten_Ok in Hblocks as [Hs' Hl].
    exists blocks. split; [|split; [congruence|by rewrite Hl]].
    apply tree_ext; [by rewrite tree_structure_map|].
    by rewrite tree_leaves_map, Hl.
Qed.

(** X7.  Line 112: with an integer [argnums] the Jacobian of an output leaf
    mirrors the selected argument itself, with a sequence it mirrors the
    tuple of the selected arguments.  So [argnums=i] and [argnums=(i,)]
    return the same value, and their Jacobians hold the same arrays; the
    second wraps the Jacobian of every output leaf in a tuple of length
    one.  If one of the two calls returns, so does the other. *)
Theorem singleton_argnums_wraps (fun_ : pyobject) i holomorphic has_aux
    (args : list (pytree (array E))) kwargs :
  (∀ r, jacfun fun_ (Single i) holomorphic has_aux args kwargs = Ok r →
     ∃ y aux blocks,
       tree_structure blocks = tree_structure y ∧
       r = (if has_aux then py_tuple [py_tuple [y; aux]; tree_join blocks]
            else py_tuple [y; tree_join blocks]) ∧
       jacfun fun_ (Many [i]) holomorphic has_aux args kwargs
         = Ok (let wrapped := tree_map (λ b, py_tuple [b]) blocks in
               if has_aux then py_tuple [py_tuple [y; aux]; tree_join wrapped]
               else py_tuple [y; tree_join wrapped])) ∧
  (∀ r, jacfun fun_ (Many [i]) holomorphic has_aux args kwargs = Ok r →
     ∃ y aux blocks,
       tree_structure blocks = tree_structure y ∧
       r = (let wrapped := tree_map (λ b, py_tuple [b]) blocks in
            if has_aux then py_tuple [py_tuple [y; aux]; tree_join wrapped]
            else py_tuple [y; tree_join wrapped]) ∧
       jacfun fun_ (Single i) holomorphic has_aux args kwargs
         = Ok (if has_aux then py_tuple [py_tuple [y; aux]; tree_join blocks]
               else py_tuple [y; tree_join blocks])).
Proof.
  split; intros r
    (f_partial & dyn_args & basis & y & jac & aux & example & jacobian
     & Hp & Hin & Hb & Hrun & Hout & Hex & Hjac & ->)%jacfun_Ok;
    destruct (argnums_partial_dyn _ _ _ _ _ Hp) as (items & -> & Hitems);
    simpl in Hitems; inversion Hitems as [|? x ? ? Hx Hnil]; subst;
    inversion Hnil; subst;
    assert (tree_structure jac = tree_structure y) as Hsy
      by (apply run_pushfwd_basis_Ok in Hrun
            as (? & ? & ? & _ & _ & -> & -> & _);
          [by rewrite !tree_structure_map|done..]);
    apply tree_bindM_Ok in Hjac as (blocks & -> & Hbs & Hblocks);
    injection Hex as <-.
  - exists y, aux, blocks. split; [congruence|]. split; [done|].
    apply jacfun_Ok.
    exists f_partial, (py_tuple [x]), basis, y, jac, aux, (py_tuple [x]),
      (tree_join (tree_map (λ b, py_tuple [b]) blocks)).
    split; [done|]. split; [done|]. split; [done|]. split; [done|].
    split; [done|]. split; [done|]. split; [|done].
    apply tree_bindM_Ok. eexists. split; [done|].
    split; [by rewrite tree_structure_map|].
    by apply (proj1 (tree_bindM_unravel_tuple1 x jac)).
  - destruct (proj2 (tree_bindM_unravel_tuple1 x jac) blocks Hbs Hblocks)
      as (blocks0 & -> & Hbs0 & Hblocks0).
    exists y, aux, blocks0. split; [congruence|]. split; [done|].
    apply jacfun_Ok.
    exists f_partial, (py_tuple [x]), basis, y, jac, aux, x,
      (tree_join blocks0).
    split; [done|]. split; [done|]. split; [done|]. split; [done|].
    split; [done|]. split; [done|]. split; [|done].
    apply tree_bindM_Ok. by exists blocks0.
Qed.

(** ** [jacfun] on a function that returns a container *)

Lemma tree_mapM_Node {A B} (f : A → result B) k (ch : list (pytree A)) out :
  tree_mapM f (Node k ch) = Ok out ↔
  ∃ outs, Forall2 (λ c o, tree_mapM f c = Ok o) ch outs ∧ out = Node k outs.
Proof.
  rewrite tree_mapM_Ok. split.
  - intros [Hs Hl]. destruct out as [|k' outs]; [done|].
    rewrite !tree_structure_Node in Hs. injection Hs as -> Hs.
    rewrite !tree_leaves_Node in Hl. exists outs. split; [|done].
    revert outs Hs Hl.
    induction ch as [|c ch IH]; intros [|o outs] Hs Hl; try done.
    rewrite !fmap_cons in Hs. injection Hs as Hc Hs.
    rewrite !fmap_cons, !concat_cons in Hl.
    apply Forall2_app_inv in Hl as [Hlc Hl];
      [|symmetry; by apply tree_structure_length].
    constructor; [by apply tree_mapM_Ok|by apply IH].
  - intros (outs & Hall & ->). split.
    + rewrite !tree_structure_Node. f_equal.
      induction Hall as [|c o ? ? [Hs _]%tree_mapM_Ok _ IH]; [done|].
      rewrite !fmap_cons. by rewrite Hs, IH.
    + rewrite !tree_leaves_Node.
      induction Hall as [|c o ? ? [_ Hl]%tree_mapM_Ok _ IH]; [done|].
      rewrite !fmap_cons, !concat_cons. by apply Forall2_app.
Qed.

Lemma tree_bindM_Node {A B} (f : A → result (pytree B)) k
    (ch : list (pytree A)) out :
  tree_bindM f (Node k ch) = Ok out ↔
  ∃ outs, Forall2 (λ c o, tree_bindM f c = Ok o) ch outs ∧ out = Node k outs.
Proof.
  unfold tree_bindM. rewrite fmap_Ok. split.
  - intros (t & (ts & Hall & ->)%tree_mapM_Node & ->).
    exists (tree_join <$> ts). split; [|done].
    apply Forall2_fmap_r. eapply Forall2_impl; [done|].
    intros c o Hc. simpl. by rewrite Hc.
  - intros (outs & Hall & ->).
    assert (∃ ts, Forall2 (λ c t, tree_mapM f c = Ok t) ch ts ∧
                  outs = tree_join <$> ts) as (ts & Hts & ->).
    { induction Hall as [|c o ? ? (t & Ht & ->)%fmap_Ok _ (ts & IH & ->)].
      - by exists [].
      - exists (t :: ts). split; [by constructor|done]. }
    exists (Node k ts). split; [|done]. apply tree_mapM_Node. by exists ts.
Qed.

Lemma jacfun_plain_context (body : pytree expr) argnums holomorphic
    (args : list (pytree (array E))) kwargs r :
  jacfun (PyFunction body) argnums holomorphic false args kwargs = Ok r →
  ∃ items basis py_args example y jacobian,
    Forall2 (λ i a, args !! i = Some a) (_ensure_index_tuple argnums) items ∧
    (∃ u, tree_mapM (_check_input_dtype_jacfwd holomorphic) (py_tuple items)
            = Ok u) ∧
    _std_basis (py_tuple items) = Ok basis ∧
    tree_unflatten (tree_structure (py_tuple items))
      (traced_args (py_tuple items) (tree_map BatchTracer (batch_tree basis)))
      = Ok py_args ∧
    select_example argnums (py_tuple items) = Ok example ∧
    r = py_tuple [y; jacobian].
Proof.
  intros (f_partial & dyn_args & basis & y & jac & aux & example & jacobian
          & Hp & Hin & Hb & Hrun & _ & Hex & _ & ->)%jacfun_Ok.
  destruct (argnums_partial_dyn _ _ _ _ _ Hp) as (items & -> & Hitems).
  apply run_pushfwd_basis_Ok in Hrun as (out & _ & _ & Hcall & _); [|done..].
  apply bind_Ok in Hcall as (py_args & Hu & _).
  exists items, basis, py_args, example, y, jacobian. done.
Qed.

Lemma jacfun_plain_shared (body : pytree expr) argnums holomorphic
    (args items : list (pytree (array E))) kwargs basis py_args example y
    jacobian :
  Forall2 (λ i a, args !! i = Some a) (_ensure_index_tuple argnums) items →
  (∃ u, tree_mapM (_check_input_dtype_jacfwd holomorphic) (py_tuple items)
          = Ok u) →
  _std_basis (py_tuple items) = Ok basis →
  tree_unflatten (tree_structure (py_tuple items))
    (traced_args (py_tuple items) (tree_map BatchTracer (batch_tree basis)))
    = Ok py_args →
  select_example argnums (py_tuple items) = Ok example →
  jacfun (PyFunction body) argnums holomorphic false args kwargs
    = Ok (py_tuple [y; jacobian]) ↔
  ∃ out,
    tree_mapM
      (jvp_expr
         (fill_args lift_primal (_ensure_index_tuple argnums)
            (imap (λ i arg,
                     if bool_decide (i ∈ _ensure_index_tuple argnums)
                     then None else Some arg) args)
            (tuple_items py_args))
         kwargs) body = Ok out ∧
    y = tree_map primal out ∧
    (∃ u, tree_mapM (_check_output_dtype_jacfwd holomorphic) y = Ok u) ∧
    tree_bindM (_unravel_array_into_pytree example)
      (tree_map
         (stacked (batch_size basis)
            (batch_dim
               (tree_leaves (tree_map BatchTracer (batch_tree basis)))))
         out) = Ok jacobian.
Proof.
  intros Hitems Hin Hb Hu Hex.
  destruct (argnums_partial_Ok (wrap_init (PyFunction body) kwargs) _ _ _
              Hitems) as [f_partial Hp].
  split.
  - intros (f_partial' & dyn_args & basis' & y' & jac & aux & example'
            & jacobian' & Hp' & _ & Hb' & Hrun & Hout & Hex' & Hjac
            & [= <- <-])%jacfun_Ok.
    rewrite Hp in Hp'. injection Hp' as <- <-.
    rewrite Hb in Hb'. injection Hb' as <-.
    rewrite Hex in Hex'. injection Hex' as <-.
    apply run_pushfwd_basis_Ok in Hrun; [|done..].
    destruct Hrun as (out & ans & auxd & Hcall & [= <- <-] & -> & -> & _).
    rewrite (traced_call_unfold _ _ _ _ _ _ _ _ Hp), Hu in Hcall.
    by exists out.
  - intros (out & Hcall & -> & Hout & Hjac).
    apply jacfun_Ok.
    exists f_partial, (py_tuple items), basis, (tree_map primal out),
      (tree_map
         (stacked (batch_size basis)
            (batch_dim
               (tree_leaves (tree_map BatchTracer (batch_tree basis)))))
         out), (Node KNone []), example, jacobian.
    split; [done|]. split; [done|]. split; [done|].
    split; [|done].
    apply run_pushfwd_basis_Ok; [done..|].
    exists out, out, (Node KNone []).
    split; [|done].
    by rewrite (traced_call_unfold _ _ _ _ _ _ _ _ Hp), Hu.
Qed.

Lemma jacfun_container_components (k : node_kind)
    (bodies : list (pytree expr)) argnums holomorphic
    (args : list (pytree (array E))) kwargs r :
  jacfun (PyFunction (Node k bodies)) argnums holomorphic false args kwargs
    = Ok r →
  ∃ ys Js,
    r = py_tuple [Node k ys; Node k Js] ∧
    Forall3 (λ body y J,
               jacfun (PyFunction body) argnums holomorphic false args
                 kwargs = Ok (py_tuple [y; J]))
      bodies ys Js.
Proof.
  intros Hr.
  destruct (jacfun_plain_context _ _ _ _ _ _ Hr)
    as (items & basis & py_args & example & y & J
        & Hitems & Hin & Hb & Hu & Hex & ->).
  apply (jacfun_plain_shared _ _ _ _ _ _ _ _ _ _ _ Hitems Hin Hb Hu Hex)
    in Hr as (out & (outs & Hall & ->)%tree_mapM_Node & -> & [u Hout] & HJ).
  rewrite tree_map_Node in Hout, HJ.
  apply tree_mapM_Node in Hout as (us & Hus & _).
  apply tree_bindM_Node in HJ as (Js & HJs & ->).
  rewrite tree_map_Node.
  exists (tree_map primal <$> outs), Js. split; [done|].
  apply Forall2_fmap_l in Hus, HJs.
  revert us Js Hus HJs.
  induction Hall as [|body o bodies' outs' Hbody _ IH]; intros us Js Hus HJs.
  + inversion HJs; subst. constructor.
  + inversion Hus as [|? u0 ? us' Hu0 Hus']; subst.
    inversion HJs as [|? J0 ? Js' HJ0 HJs']; subst.
    rewrite fmap_cons. constructor; [|by eapply IH].
    apply (jacfun_plain_shared _ _ _ _ _ _ _ _ _ _ _ Hitems Hin Hb Hu Hex).
    exists o. eauto.
Qed.

Lemma jacfun_container_assemble (k : node_kind)
    (bodies : list (pytree expr)) argnums holomorphic
    (args : list (pytree (array E))) kwargs ys Js :
  bodies ≠ [] →
  Forall3 (λ body y J,
             jacfun (PyFunction body) argnums holomorphic false args
               kwargs = Ok (py_tuple [y; J]))
    bodies ys Js →
  jacfun (PyFunction (Node k bodies)) argnums holomorphic false args kwargs
    = Ok (py_tuple [Node k ys; Node k Js]).
Proof.
  intros Hne Hall.
  destruct Hall as [|body y J bodies' ys' Js' Hbody Hall]; [done|].
  destruct (jacfun_plain_context _ _ _ _ _ _ Hbody)
    as (items & basis & py_args & example & y0 & J0
        & Hitems & Hin & Hb & Hu & Hex & _).
  apply (jacfun_plain_shared _ _ _ _ _ _ _ _ _ _ _ Hitems Hin Hb Hu Hex).
  assert (Forall3 (λ body y J,
              jacfun (PyFunction body) argnums holomorphic false args
                kwargs = Ok (py_tuple [y; J]))
            (body :: bodies') (y :: ys') (J :: Js')) as Hall'
    by by constructor.
  clear Hbody Hall Hne. revert Hall'.
  generalize (body :: bodies') (y :: ys') (J :: Js').
  intros bs ys Js Hall.
  assert (∃ outs,
            Forall2 (λ c o,
               tree_mapM
                 (jvp_expr
                    (fill_args lift_primal (_ensure_index_tuple argnums)
                       (imap (λ i arg,
                                if bool_decide
                                     (i ∈ _ensure_index_tuple argnums)
                                then None else Some arg) args)
                       (tuple_items py_args))
                    kwargs) c = Ok o) bs outs ∧
            ys = tree_map primal <$> outs ∧
            Forall (λ y, ∃ u,
               tree_mapM (_check_output_dtype_jacfwd holomorphic) y = Ok u)
              ys ∧
            Forall2 (λ o J,
               tree_bindM (_unravel_array_into_pytree example)
                 (tree_map
                    (stacked (batch_size basis)
                       (batch_dim
                          (tree_leaves
                             (tree_map BatchTracer (batch_tree basis)))))
                    o) = Ok J) outs Js)
    as (outs & Houts & -> & Hchecks & HJs).
  { induction Hall as [|b y' J' bs' ys'' Js'' Hb' _
                         (outs & IH1 & -> & IH3 & IH4)].
    - exists []. by repeat constructor.
    - apply (jacfun_plain_shared _ _ _ _ _ _ _ _ _ _ _
               Hitems Hin Hb Hu Hex) in Hb'
        as (o & Ho & -> & Hcheck & HJ).
      exists (o :: outs). by repeat constructor. }
  exists (Node k outs). split; [apply tree_mapM_Node; by exists outs|].
  rewrite !tree_map_Node. split; [done|]. split.
  + assert (∃ us, Forall2 (λ c u,
               tree_mapM (_check_output_dtype_jacfwd holomorphic) c = Ok u)
              (tree_map primal <$> outs) us) as [us Hus].
    { by apply Forall_exists_Forall2_l. }
    exists (Node k us). apply tree_mapM_Node. by exists us.
  + apply tree_bindM_Node. exists Js. split; [|done].
    by apply Forall2_fmap_l.
Qed.

(** X8.  Lines 113-116 map the reassembler over the leaves of the output,
    so the call distributes over a container that [fun] returns (without
    [has_aux]): if the call returns, then for every component of the
    container the call of that component alone returns, the value is the
    container of the components' values and the Jacobian is the container of
    the components' Jacobians; and if the container is not empty and the
    call of every component returns, the call of the container returns. *)
Theorem jacfun_of_container (k : node_kind) (bodies : list (pytree expr))
    argnums holomorphic (args : list (pytree (array E))) kwargs :
  (∀ r,
     jacfun (PyFunction (Node k bodies)) argnums holomorphic false args kwargs
       = Ok r →
     ∃ ys Js,
       r = py_tuple [Node k ys; Node k Js] ∧
       Forall3 (λ body y J,
                  jacfun (PyFunction body) argnums holomorphic false args
                    kwargs = Ok (py_tuple [y; J]))
         bodies ys Js) ∧
  (∀ ys Js,
     bodies ≠ [] →
     Forall3 (λ body y J,
                jacfun (PyFunction body) argnums holomorphic false args
                  kwargs = Ok (py_tuple [y; J]))
       bodies ys Js →
     jacfun (PyFunction (Node k bodies)) argnums holomorphic false args kwargs
       = Ok (py_tuple [Node k ys; Node k Js])).
Proof.
  split.
  - intros r. apply jacfun_container_components.
  - intros ys Js. apply jacfun_container_assemble.
Qed.

Lemma jacfun_plain_value (fun_ : pyobject) argnums holomorphic
    (args : list (pytree (array E))) kwargs y J :
  jacfun fun_ argnums holomorphic false args kwargs = Ok (py_tuple [y; J]) →
  py_call fun_ args kwargs = Ok y.
Proof.
  intros (f_partial & dyn_args & basis & y' & jac & aux & example & jacobian
          & Hp & _ & _ & Hrun & _ & _ & _ & [= <- <-])%jacfun_Ok.
  apply (run_pushfwd_value _ _ _ _ _ _ _ _ _ _ _ Hp Hrun).
Qed.

Lemma jacfun_Ok_callable (fun_ : pyobject) argnums holomorphic has_aux
    (args : list (pytree (array E))) kwargs r :
  jacfun fun_ argnums holomorphic has_aux args kwargs = Ok r →
  ∃ body, fun_ = PyFunction body.
Proof.
  intros (f_partial & dyn_args & basis & y' & jac & aux & example & jacobian
          & Hp & _ & _ & Hrun & _)%jacfun_Ok.
  pose proof (run_pushfwd_value _ _ _ _ _ _ _ _ _ _ _ Hp Hrun) as Hv.
  destruct fun_ as [body|]; [by exists body|].
  destruct has_aux; [by destruct Hv as (? & ? & _)|done].
Qed.

(** X9.  [has_aux] only chooses what is differentiated.  If a call returns
    both with and without [has_aux], then [fun] returned a pair
    [(value, aux)]; with [has_aux] the result is [((value, aux), J)], and
    without it the value is the pair as [fun] returned it and the Jacobian
    is a pair of the same kind, whose first element is that same [J]. *)
Theorem has_aux_selects_primary (fun_ : pyobject) argnums holomorphic
    (args : list (pytree (array E))) kwargs r r' :
  jacfun fun_ argnums holomorphic true args kwargs = Ok r →
  jacfun fun_ argnums holomorphic false args kwargs = Ok r' →
  ∃ k y aux J Jaux,
    (k = KTuple ∨ k = KList) ∧
    py_call fun_ args kwargs = Ok (Node k [y; aux]) ∧
    r = py_tuple [py_tuple [y; aux]; J] ∧
    r' = py_tuple [Node k [y; aux]; Node k [J; Jaux]].
Proof.
  intros Hr Hr'.
  destruct (jacfun_Ok_callable _ _ _ _ _ _ _ Hr) as [body ->].
  apply aux_passthrough_general in Hr
    as (k & primary & auxiliary & y & aux & J & -> & Hk & Hy & Haux & ->
        & Hprimary).
  pose proof Hr' as Hcall.
  apply jacfun_container_components in Hr' as (ys & Js & -> & Hall).
  apply jacfun_plain_value in Hcall.
  inversion Hall as [|? y1 J1 ? ys' Js' H1 Hall']; subst.
  inversion Hall' as [|? y2 J2 ? ys'' Js'' H2 Hall'']; subst.
  inversion Hall''; subst.
  rewrite Hprimary in H1. injection H1 as <- <-.
  apply jacfun_plain_value in H2. rewrite Haux in H2. injection H2 as <-.
  exists k, y, aux, J, J2. done.
Qed.

(** ** The Jacobian with respect to several arguments *)

Lemma jacfun_reassembled (fun_ : pyobject) argnums holomorphic has_aux
    (args items : list (pytree (array E))) kwargs r :
  Forall (wf_tree wf_array) args →
  map_Forall (λ _, wf_tree wf_array) kwargs →
  Forall2 (λ i a, args !! i = Some a) (_ensure_index_tuple argnums) items →
  holomorphic = false ∨
    Forall (λ l, is_inexact (adtype l) = true) (tree_leaves (py_tuple items)) →
  jacfun fun_ argnums holomorphic has_aux args kwargs = Ok r →
  ∃ f_partial basis y jac aux example blocks,
    argnums_partial (wrap_init fun_ kwargs) argnums args
      = Ok (f_partial, py_tuple items) ∧
    _std_basis (py_tuple items) = Ok basis ∧
    batch_size basis = sum_list (np_size <$> tree_leaves (py_tuple items)) ∧
    run_pushfwd f_partial (py_tuple items) has_aux basis
      = Ok ((y, jac), aux) ∧
    select_example argnums (py_tuple items) = Ok example ∧
    r = (if has_aux then py_tuple [py_tuple [y; aux]; tree_join blocks]
         else py_tuple [y; tree_join blocks]) ∧
    tree_structure jac = tree_structure y ∧
    tree_structure blocks = tree_structure y ∧
    Forall2 (λ ys block, reassembled example ys.1 ys.2 block)
      (zip (tree_leaves y) (tree_leaves jac)) (tree_leaves blocks).
Proof.
  intros Hargs Hkw Hitems Hin'
    (f_partial & dyn_args & basis & y & jac & aux & example & jacobian
     & Hp & [u Hcheck] & Hb & Hrun & _ & Hex & Hjac & ->)%jacfun_Ok.
  destruct (argnums_partial_Ok (wrap_init fun_ kwargs) _ _ _ Hitems)
    as [f_partial' Hp'].
  rewrite Hp' in Hp. injection Hp as <- <-.
  destruct (select_example_Ok _ _ _ Hitems) as (example' & Hex' & _ & Hexl).
  rewrite Hex in Hex'. injection Hex' as <-.
  destruct (_std_basis_Ok (py_tuple items)) as (b & Hb' & HD & _ & _).
  rewrite Hb in Hb'. injection Hb' as <-.
  assert (Forall (λ l, is_inexact (adtype l) = true)
            (tree_leaves (py_tuple items))) as Hin.
  { destruct Hin' as [->|?]; [|done].
    apply tree_mapM_Ok in Hcheck as [_ Hcheck].
    clear -Hcheck. induction Hcheck as [|l ? ? ? Hl _ IH]; constructor;
      [|done].
    unfold _check_input_dtype_jacfwd in Hl. simpl in Hl.
    by destruct (is_inexact (adtype l)). }
  assert (leaf_dof <$> tree_leaves (py_tuple items)
          = np_size <$> tree_leaves (py_tuple items)) as Hdof.
  { apply Forall_fmap_ext_1. eapply Forall_impl; [done|].
    apply leaf_dof_inexact. }
  pose proof (basis_batch_dim _ _ Hb) as Hbd.
  apply run_pushfwd_basis_Ok in Hrun as Hrun'; [|done..].
  destruct Hrun' as (out & ans & auxd & Hcall & Hsplit & -> & -> & ->).
  set (bd := batch_dim _) in *.
  pose proof (traced_call_wf _ _ _ _ _ _ _ _ Hargs Hkw Hp' Hb Hcall) as Hout.
  pose proof (split_output_leaves _ _ _ _ _ Hsplit Hout) as Hans.
  apply tree_bindM_Ok in Hjac as (blocks & -> & Hbs & Hblocks).
  rewrite tree_structure_map in Hbs.
  assert (Forall2 (λ d block,
            reassembled example (primal d) (stacked (batch_size basis) bd d)
              block)
            (tree_leaves ans) (tree_leaves blocks)) as Hre.
  { rewrite tree_leaves_map in Hblocks. apply Forall2_fmap_l in Hblocks.
    eapply Forall2_impl_Forall; [exact Hans|exact Hblocks|].
    intros d block Hd Hu. eapply unravel_stacked_block; try done.
    - by rewrite Hexl.
    - by rewrite Hexl. }
  exists f_partial', basis, (tree_map primal ans),
    (tree_map (stacked (batch_size basis) bd) ans),
    (tree_map primal auxd), example, blocks.
  split; [done|]. split; [done|].
  split; [by rewrite HD, Hdof|].
  split; [done|]. split; [done|]. split; [done|].
  split; [by rewrite !tree_structure_map|].
  split; [by rewrite tree_structure_map|].
  rewrite !tree_leaves_map, zip_fmap_same. apply Forall2_fmap_l.
  eapply Forall2_impl; [exact Hre|]. done.
Qed.

(** X10.  With a sequence for [argnums] (line 112 takes the whole tuple of
    selected arguments as the example), whenever the call returns, the
    number of directions is the number of elements of all selected
    arguments together, and the Jacobian of every output leaf is a tuple
    with one entry per selected argument, in the order of [argnums], each
    entry having the structure of its argument.  Every leaf of it has the
    output leaf's shape followed by the input leaf's shape, and reading the
    entries back in order gives the stacked output of the driver, element
    for element. *)
Theorem jacobian_of_several_arguments (fun_ : pyobject) (idxs : list nat)
    holomorphic has_aux (args items : list (pytree (array E))) kwargs r :
  Forall (wf_tree wf_array) args →
  map_Forall (λ _, wf_tree wf_array) kwargs →
  Forall2 (λ i a, args !! i = Some a) idxs items →
  holomorphic = false ∨
    Forall (λ l, is_inexact (adtype l) = true) (tree_leaves (py_tuple items)) →
  jacfun fun_ (Many idxs) holomorphic has_aux args kwargs = Ok r →
  ∃ f_partial basis y jac aux blocks,
    argnums_partial (wrap_init fun_ kwargs) (Many idxs) args
      = Ok (f_partial, py_tuple items) ∧
    _std_basis (py_tuple items) = Ok basis ∧
    batch_size basis
      = sum_list (np_size <$> concat (tree_leaves <$> items)) ∧
    run_pushfwd f_partial (py_tuple items) has_aux basis
      = Ok ((y, jac), aux) ∧
    r = (if has_aux then py_tuple [py_tuple [y; aux]; tree_join blocks]
         else py_tuple [y; tree_join blocks]) ∧
    tree_structure blocks = tree_structure y ∧
    Forall2 (λ ys block,
               (∃ entries, block = py_tuple entries ∧
                  Forall2 (λ x entry, tree_structure entry = tree_structure x)
                    items entries) ∧
               reassembled (py_tuple items) ys.1 ys.2 block)
      (zip (tree_leaves y) (tree_leaves jac)) (tree_leaves blocks).
Proof.
  intros Hargs Hkw Hitems Hin Hr.
  destruct (jacfun_reassembled _ (Many idxs) _ _ _ items _ _
              Hargs Hkw Hitems Hin Hr)
    as (f_partial & basis & y & jac & aux & example & blocks
        & Hp & Hb & HD & Hrun & [= <-] & -> & _ & Hbs & Hre).
  exists f_partial, basis, y, jac, aux, blocks.
  split; [done|]. split; [done|]. split; [done|]. split; [done|].
  split; [done|]. split; [done|].
  eapply Forall2_impl; [exact Hre|].
  intros ys block Hblock. split; [|done].
  destruct Hblock as (Hs & _ & _).
  destruct block as [|k entries]; [done|].
  rewrite !tree_structure_Node in Hs. injection Hs as -> Hs.
  exists entries. split; [done|].
  clear -Hs. revert entries Hs.
  induction items as [|x items IH]; intros [|entry entries] Hs; try done.
  rewrite !fmap_cons in Hs. injection Hs as Hx Hs.
  constructor; [done|by apply IH].
Qed.

(** ** The batch, one direction at a time *)

Lemma add_tangents_select d i (t1 t2 : option (list (list E))) :
  add_tangents d ((λ rows, take 1 (drop i rows)) <$> t1)
    ((λ rows, take 1 (drop i rows)) <$> t2)
  = (λ rows, take 1 (drop i rows)) <$> add_tangents d t1 t2.
Proof.
  destruct t1 as [r1|], t2 as [r2|]; simpl; try done.
  by rewrite zip_with_drop, zip_with_take.
Qed.

Lemma fmap_rows_select {A B} (g : A → B) i (t : option (list A)) :
  fmap (M:=list) g <$> ((λ rows, take 1 (drop i rows)) <$> t)
  = (λ rows, take 1 (drop i rows)) <$> (fmap (M:=list) g <$> t).
Proof.
  destruct t as [rows|]; simpl; [|done]. by rewrite fmap_take, fmap_drop.
Qed.

Lemma jvp_expr_select i (args : list (pytree (dual E)))
    (kwargs : gmap string (pytree (array E))) (e : expr) :
  select_direction i <$> jvp_expr args kwargs e
  = jvp_expr (tree_map (select_direction i) <$> args) kwargs e.
Proof.
  induction e as [j l|k l|d shape n|e1 IH1 e2 IH2|e1 IH1 e2 IH2|e1 IH1 n
                  |e1 IH1|e1 IH1 d]; simpl.
  - rewrite lookup_leaf_fmap. by destruct (lookup_leaf args j l).
  - by destruct (lookup_kwleaf kwargs k l).
  - done.
  - rewrite <- IH1, <- IH2.
    destruct (jvp_expr args kwargs e1) as [x|]; simpl; [|done].
    destruct (jvp_expr args kwargs e2) as [y|]; simpl; [|done].
    destruct (lax_binop s_add (primal x) (primal y)) as [out|]; simpl; [|done].
    unfold select_direction. simpl. by rewrite add_tangents_select.
  - rewrite <- IH1, <- IH2.
    destruct (jvp_expr args kwargs e1) as [x|]; simpl; [|done].
    destruct (jvp_expr args kwargs e2) as [y|]; simpl; [|done].
    destruct (lax_binop s_mul (primal x) (primal y)) as [out|]; simpl; [|done].
    unfold select_direction, mul_jvp. simpl.
    by rewrite !fmap_rows_select, add_tangents_select.
  - rewrite <- IH1.
    destruct (jvp_expr args kwargs e1) as [x|]; simpl; [|done].
    unfold select_direction. simpl. by rewrite fmap_rows_select.
  - rewrite <- IH1.
    destruct (jvp_expr args kwargs e1) as [x|]; simpl; [|done].
    unfold select_direction. simpl. by rewrite fmap_rows_select.
  - rewrite <- IH1.
    destruct (jvp_expr args kwargs e1) as [x|]; simpl; [|done].
    unfold select_direction, convert_element_type_jvp. simpl.
    destruct (decide _); [done|].
    by rewrite fmap_rows_select.
Qed.

Lemma py_call_jvp_select i (f : pyobject) (args : list (pytree (dual E)))
    (kwargs : gmap string (pytree (array E))) :
  tree_map (select_direction i) <$> py_call_jvp f args kwargs
  = py_call_jvp f (tree_map (select_direction i) <$> args) kwargs.
Proof.
  destruct f as [body|]; [|done]. simpl.
  apply tree_mapM_fmap_result. intros e. apply jvp_expr_select.
Qed.

Lemma fill_args_select i dyn fixed (dargs : list (pytree (dual E))) :
  tree_map (select_direction i) <$> fill_args lift_primal dyn fixed dargs
  = fill_args lift_primal dyn fixed (tree_map (select_direction i) <$> dargs).
Proof.
  unfold fill_args.
  assert (tree_map (select_direction i) <$>
            (from_option (fmap lift_primal) (Node KNone []) <$> fixed)
          = from_option (fmap lift_primal) (Node KNone []) <$> fixed) as Hinit.
  { rewrite <- list_fmap_compose. apply list_fmap_ext. intros _ [arg|] _;
      [|done]. simpl.
    apply (tree_map_compose lift_primal (select_direction i)). }
  revert Hinit.
  generalize (from_option (fmap lift_primal) (Node KNone []) <$> fixed) at 1 3.
  generalize (from_option (fmap lift_primal) (Node KNone []) <$> fixed).
  revert dargs. induction dyn as [|j dyn IH]; intros [|a dargs] init' init Hi;
    try done.
  simpl. apply IH. by rewrite list_fmap_insert, Hi.
Qed.

Lemma call_wrapped_jvp_select i (f : WrappedFun)
    (dargs : list (pytree (dual E))) :
  tree_map (select_direction i) <$> call_wrapped_jvp f dargs
  = call_wrapped_jvp f (tree_map (select_direction i) <$> dargs).
Proof.
  unfold call_wrapped_jvp.
  destruct (wf_partial f) as [[dyn fixed]|].
  - by rewrite py_call_jvp_select, fill_args_select.
  - apply py_call_jvp_select.
Qed.

Lemma traced_call_select i (f : WrappedFun) (td : treedef)
    (targs : list (dual E)) :
  traced_call f td (select_direction i <$> targs)
  = tree_map (select_direction i) <$> traced_call f td targs.
Proof.
  unfold traced_call. rewrite tree_unflatten_fmap.
  destruct (tree_unflatten td targs) as [py_args|]; simpl; [|done].
  by rewrite tuple_items_map, call_wrapped_jvp_select.
Qed.

Lemma take1_drop_fmap_seq {A} (f : nat → A) D i :
  i < D → take 1 (drop i (f <$> seq 0 D)) = [f i].
Proof.
  intros Hi. rewrite <- fmap_drop, <- fmap_take, drop_seq, take_seq.
  by replace (1 `min` (D - i)) with 1 by lia.
Qed.

Lemma make_dual_direction D i (p a : array E) :
  i < D →
  make_dual None p
    (Concrete (Array (adtype a) (tail (ashape a)) (batch_slice a i)))
  = select_direction i (make_dual (Some D) p (BatchTracer a)).
Proof.
  intros Hi. unfold make_dual, select_direction. simpl.
  destruct (decide _); [done|]. simpl.
  by rewrite take1_drop_fmap_seq.
Qed.

Lemma batch_dim_concrete (l : list (array E)) (g : array E → array E) :
  batch_dim ((λ a, Concrete (g a)) <$> l) = None.
Proof. unfold batch_dim. by induction l. Qed.

Lemma traced_args_direction (dyn_args : pytree (array E)) basis i :
  _std_basis dyn_args = Ok basis →
  i < batch_size basis →
  traced_args dyn_args (basis_direction basis i)
  = select_direction i
      <$> traced_args dyn_args (tree_map BatchTracer (batch_tree basis)).
Proof.
  intros Hb Hi. unfold traced_args, basis_direction.
  destruct (basis_batch_dim _ _ Hb) as [->|?]; [|lia].
  rewrite !tree_leaves_map.
  rewrite (batch_dim_concrete _
             (λ a, Array (adtype a) (tail (ashape a)) (batch_slice a i))).
  generalize (tree_leaves (batch_tree basis)).
  induction (tree_leaves dyn_args) as [|p ps IH]; intros [|a bl]; try done.
  simpl. f_equal; [by apply make_dual_direction|apply IH].
Qed.

Lemma direction_checks_pass (dyn_args : pytree (array E)) basis i :
  _std_basis dyn_args = Ok basis →
  tree_structure dyn_args = tree_structure (basis_direction basis i) ∧
  Forall pair_ok
    (zip (tree_leaves dyn_args) (tree_leaves (basis_direction basis i))).
Proof.
  intros [Hs Hok]%basis_checks_pass. unfold basis_direction.
  rewrite tree_structure_map in *. split; [done|].
  rewrite tree_leaves_map in *. revert Hok.
  generalize (tree_leaves (batch_tree basis)).
  induction (tree_leaves dyn_args) as [|p ps IH]; intros [|a bl]; try done.
  simpl. intros [Hpa Hok]%Forall_cons. constructor; [done|by apply IH].
Qed.

Lemma chunks_of_concat w (rows : list (list E)) :
  Forall (λ r, length r = w) rows →
  chunks w (length rows) (concat rows) = rows.
Proof.
  induction 1 as [|r rows Hr _ IH]; [done|]. simpl.
  rewrite take_app_length', drop_app_length' by done. by rewrite IH.
Qed.

Lemma take1_drop_lookup {A} (l : list A) o x :
  l !! o = Some x → take 1 (drop o l) = [x].
Proof. intros H. by rewrite (drop_S _ _ _ H). Qed.

Lemma take1_drop_omap_seq {A} (g : nat → option A) D i x :
  i < D → (∀ k, k < D → is_Some (g k)) → g i = Some x →
  take 1 (drop i (omap g (seq 0 D))) = [x].
Proof.
  intros Hi Hall Hx.
  replace D with (i + S (D - S i)) by lia.
  rewrite seq_app, omap_app. simpl. rewrite Hx.
  rewrite drop_app_length'; [done|].
  rewrite length_omap_all; [by rewrite length_seq|].
  apply Forall_forall. intros k Hk%elem_of_seq. apply Hall. lia.
Qed.

Lemma concat_singletons {A} (row : list A) :
  concat ((λ o, take 1 (drop o row)) <$> seq 0 (length row)) = row.
Proof.
  induction row as [|x row IH]; [done|]. simpl. f_equal.
  rewrite <- fmap_S_seq, <- list_fmap_compose.
  rewrite <- IH at 2. done.
Qed.

Lemma out_tangent_direction D i (d : dual E) :
  wf_dual D d → i < D →
  out_tangent None (select_direction i d)
  = Concrete (last_axis_index i (stacked D (Some D) d)).
Proof.
  intros [Hp Ht] Hi. unfold wf_array, np_size in Hp.
  unfold stacked, out_tangent, select_direction, last_axis_index. simpl.
  destruct (tangent d) as [rows|]; simpl.
  - destruct (Ht rows eq_refl) as [Hl Hf]. unfold np_size in Hf.
    destruct (lookup_lt_is_Some_2 rows i) as [row Hrow]; [lia|].
    assert (length row = size_of (ashape (primal d))) as Hrowlen.
    { rewrite Forall_forall in Hf. apply Hf.
      by eapply list_elem_of_lookup_2. }
    rewrite reverse_snoc, reverse_involutive. simpl.
    rewrite (take1_drop_lookup _ _ _ Hrow). simpl.
    rewrite (right_id_L [] (++)). do 2 f_equal.
    set (F := λ o, omap _ (seq 0 D)).
    assert (∀ o, o < size_of (ashape (primal d)) →
              take 1 (drop i (F o)) = take 1 (drop o row)) as HF.
    { intros o Ho.
      destruct (lookup_lt_is_Some_2 row o) as [x Hx]; [lia|].
      rewrite (take1_drop_lookup _ _ _ Hx).
      apply take1_drop_omap_seq; [done| |].
      - intros k Hk.
        destruct (lookup_lt_is_Some_2 rows k) as [rk Hrk]; [lia|].
        unfold batch_slice. simpl.
        rewrite (take_drop_concat rows _ k rk); [|done..].
        apply lookup_lt_is_Some_2.
        rewrite Forall_forall in Hf. rewrite (Hf rk); [lia|].
        by eapply list_elem_of_lookup_2.
      - unfold batch_slice. simpl.
        by rewrite (take_drop_concat rows _ i row). }
    pose proof (chunks_of_concat D (F <$> seq 0 (size_of (ashape (primal d)))))
      as Hc.
    rewrite length_fmap, length_seq in Hc. rewrite Hc.
    + rewrite <- list_fmap_compose.
      rewrite <- (concat_singletons row) at 1. rewrite Hrowlen. f_equal.
      apply list_fmap_ext. intros k o [-> Ho]%lookup_seq. simpl.
      symmetry. apply HF. lia.
    + apply Forall_fmap, Forall_forall. intros o Ho%elem_of_seq.
      change (length (F o) = D). unfold F.
      rewrite length_omap_all; [by rewrite length_seq|].
      apply Forall_forall. intros k Hk%elem_of_seq.
      destruct (lookup_lt_is_Some_2 rows k) as [rk Hrk]; [lia|].
      unfold batch_slice. simpl.
      rewrite (take_drop_concat rows _ k rk); [|done..].
      apply lookup_lt_is_Some_2.
      rewrite Forall_forall in Hf. rewrite (Hf rk); [lia|].
      by eapply list_elem_of_lookup_2.
  - rewrite reverse_snoc, reverse_involutive. simpl. do 2 f_equal.
    unfold zeros, full. simpl.
    set (z := s_of_nat _ 0). set (n := size_of _).
    pose proof (chunks_of_concat D (replicate D <$> replicate n z)) as Hc.
    rewrite length_fmap, length_replicate in Hc. rewrite Hc.
    + rewrite <- list_fmap_compose. f_equal. clear -Hi.
      induction n as [|n IH]; [done|]. simpl.
      rewrite drop_replicate, take_replicate.
      replace (1 `min` (D - i)) with 1 by lia. simpl. f_equal. exact IH.
    + apply Forall_fmap, Forall_forall. intros x _. apply length_replicate.
Qed.

Lemma tree_map_ext_Forall {A B} (f g : A → B) (t : pytree A) :
  Forall (λ x, f x = g x) (tree_leaves t) → tree_map f t = tree_map g t.
Proof.
  intros H. apply tree_ext; [by rewrite !tree_structure_map|].
  rewrite !tree_leaves_map. by apply Forall_fmap_ext_1.
Qed.

Lemma primal_select_direction i (t : pytree (dual E)) :
  tree_map primal (tree_map (select_direction i) t) = tree_map primal t.
Proof.
  rewrite tree_map_compose. apply tree_map_ext_Forall, Forall_forall.
  by intros d _.
Qed.

(** X11.  Lines 105-110 run [_jvp] once over the whole basis.  That is
    observably the loop over the basis: for every direction [i], calling
    [_jvp] on the primals and the [i]-th basis tangent alone returns the
    same value (and the same [aux]), and its tangent output is, leaf for
    leaf, the driver's stacked output at index [i] of the trailing axis. *)
Theorem stacked_columns_are_jvps (fun_ : pyobject) kwargs argnums
    (args : list (pytree (array E))) f_partial dyn_args has_aux basis y jac
    aux :
  Forall (wf_tree wf_array) args →
  map_Forall (λ _, wf_tree wf_array) kwargs →
  argnums_partial (wrap_init fun_ kwargs) argnums args
    = Ok (f_partial, dyn_args) →
  _std_basis dyn_args = Ok basis →
  run_pushfwd f_partial dyn_args has_aux basis = Ok ((y, jac), aux) →
  ∀ i, i < batch_size basis →
    let ydot := tree_map (λ s, Concrete (last_axis_index i s)) jac in
    if has_aux
    then _jvp f_partial dyn_args (basis_direction basis i) true
           = Ok ((y, ydot), aux)
    else _jvp f_partial dyn_args (basis_direction basis i) false
           = Ok (y, ydot).
Proof.
  intros Hargs Hkw Hp Hb Hrun i Hi.
  destruct (argnums_partial_dyn _ _ _ _ _ Hp) as (items & -> & _).
  destruct (basis_batch_dim _ _ Hb) as [Hbd|?]; [|lia].
  apply run_pushfwd_basis_Ok in Hrun; [|done..].
  destruct Hrun as (out & ans & auxd & Hcall & Hsplit & -> & -> & ->).
  rewrite Hbd.
  pose proof (traced_call_wf _ _ _ _ _ _ _ _ Hargs Hkw Hp Hb Hcall) as Hout.
  pose proof (split_output_leaves _ _ _ _ _ Hsplit Hout) as Hans.
  destruct (direction_checks_pass _ _ i Hb) as [Hs Hok].
  assert (is_tuple_or_list (basis_direction basis i) = true) as Ht.
  { by rewrite <- (is_tuple_or_list_structure _ _ Hs). }
  assert (traced_call f_partial (tree_structure (py_tuple items))
            (traced_args (py_tuple items) (basis_direction basis i))
          = Ok (tree_map (select_direction i) out)) as Hcall_i.
  { by rewrite traced_args_direction, traced_call_select, Hcall. }
  assert (tree_map
            (out_tangent (batch_dim (tree_leaves (basis_direction basis i))))
            (tree_map (select_direction i) ans)
          = tree_map (λ s, Concrete (last_axis_index i s))
              (tree_map (stacked (batch_size basis) (Some (batch_size basis)))
                 ans)) as Hdot.
  { rewrite !tree_map_compose. apply tree_map_ext_Forall.
    unfold basis_direction at 1. rewrite tree_leaves_map.
    rewrite (batch_dim_concrete _
               (λ a, Array (adtype a) (tail (ashape a)) (batch_slice a i))).
    eapply Forall_impl; [exact Hans|]. intros d Hd. simpl.
    by apply out_tangent_direction. }
  simpl. destruct has_aux.
  - unfold split_output in Hsplit.
    destruct (is_tuple_or_list out) eqn:Hseq; [|done].
    destruct (tuple_items out) as [|ans' [|auxd' [|]]] eqn:Hitems; try done.
    injection Hsplit as -> ->.
    apply _jvp_aux_Ok; [done..|].
    exists (tree_map (select_direction i) out),
      (tree_map (select_direction i) ans),
      (tree_map (select_direction i) auxd).
    split; [done|]. split; [by rewrite is_tuple_or_list_map|].
    split; [by rewrite tuple_items_map, Hitems|].
    by rewrite !primal_select_direction.
  - injection Hsplit as -> _.
    apply _jvp_plain_Ok; [done..|].
    exists (tree_map (select_direction i) ans).
    by rewrite primal_select_direction.
Qed.

End Properties.

(** * The docstring examples, and the theorems at concrete inputs *)

(** C2.  For [g(x) = (x ** 2).sum()] and [x = [0., 1., 2.]],
    [value_and_jacfwd(g)(x)] returns the value [5.0] and the Jacobian
    [[0., 2., 4.]], at either floating dtype. *)
Theorem docstring_example_g :
  ∃ dg, value_and_jacfwd docstring_g (ArgInt 0) false false = Ok dg ∧
    dg [arange3 float64] ∅
      = Ok (py_tuple [scalar float64 5%float; vector float64 [0; 2; 4]%float]) ∧
    dg [arange3 float32] ∅
      = Ok (py_tuple [scalar float32 5%float; vector float32 [0; 2; 4]%float]).
Proof.
  eexists. split; [reflexivity|]. split; vm_compute; reflexivity.
Qed.

(** C3.  With [has_aux=True] the function must return a pair.  Only the
    first component is differentiated: the Jacobian that is returned is the
    Jacobian of the first component alone; the second component is returned
    as its direct evaluation.  For [f(x) = ((x ** 2).sum(), x.sum())] and
    [x = [0., 1., 2.]] the result is the value [5.0], the auxiliary output
    [3.0] and the Jacobian [[0., 2., 4.]]. *)
Theorem aux_passthrough :
  (∀ (E : Type) (ops : Scalar E) (body : pytree expr) argnums holomorphic
     (args : list (pytree (array E))) kwargs r,
     jacfun (PyFunction body) argnums holomorphic true args kwargs = Ok r →
     ∃ k primary auxiliary y aux jacobian,
       body = Node k [primary; auxiliary] ∧ (k = KTuple ∨ k = KList) ∧
       py_call (PyFunction primary) args kwargs = Ok y ∧
       py_call (PyFunction auxiliary) args kwargs = Ok aux ∧
       r = py_tuple [py_tuple [y; aux]; jacobian] ∧
       jacfun (PyFunction primary) argnums holomorphic false args kwargs
         = Ok (py_tuple [y; jacobian])) ∧
  (∃ df, value_and_jacfwd docstring_f (ArgInt 0) false true = Ok df ∧
     df [arange3 float64] ∅
       = Ok (py_tuple [py_tuple [scalar float64 5%float; scalar float64 3%float];
                       vector float64 [0; 2; 4]%float])).
Proof.
  split.
  - intros E ops. apply aux_passthrough_general.
  - eexists. split; [reflexivity|]. vm_compute. reflexivity.
Qed.

(** The theorems above, at concrete inputs. *)

Lemma value_component_witness :
  (∃ v, py_call docstring_g [arange3 float64] ∅ = Ok v ∧
        getitem (py_tuple [scalar float64 5%float;
                           vector float64 [0; 2; 4]%float]) 0 = Some v) ∧
  (∃ jacobian,
     jacfun docstring_f (Single 0) false true [arange3 float64] ∅
       = Ok (py_tuple [py_tuple [scalar float64 5%float;
                                 scalar float64 3%float]; jacobian])).
Proof.
  split.
  - apply (proj1 (value_component_is_fun_value docstring_g (ArgInt 0) false
                    false (jacfun docstring_g (Single 0) false false)
                    [arange3 float64] ∅ eq_refl)).
    vm_compute. reflexivity.
  - apply (proj2 (value_component_is_fun_value docstring_f (ArgInt 0) false
                    true (jacfun docstring_f (Single 0) false true)
                    [arange3 float64] ∅ eq_refl)
             (Single 0) [arange3 float64]
             (py_tuple [scalar float64 5%float; scalar float64 3%float])).
    + reflexivity.
    + repeat constructor.
    + repeat constructor.
    + vm_compute. reflexivity.
    + reflexivity.
    + repeat constructor.
Defined.

Lemma return_shape_witness :
  ∃ pair value aux jacobian,
    py_call docstring_f [arange3 float64] ∅ = Ok pair ∧
    tuple_items pair = [value; aux] ∧
    tree_structure jacobian
      = treedef_compose (tree_structure value)
          (tree_structure (arange3 float64)) ∧
    py_tuple [py_tuple [scalar float64 5%float; scalar float64 3%float];
              vector float64 [0; 2; 4]%float]
    = py_tuple [py_tuple [value; aux]; jacobian].
Proof.
  destruct (return_shape docstring_f (ArgInt 0) false true
              (jacfun docstring_f (Single 0) false true) [arange3 float64] ∅
              (py_tuple [py_tuple [scalar float64 5%float;
                                   scalar float64 3%float];
                         vector float64 [0; 2; 4]%float]))
    as (index & f_partial & dyn_args & basis & value & jac & aux & example
        & jacobian & [= <-] & [= <- <-] & _ & _ & (pair & Hcall & _ & Hitems)
        & [= <-] & _ & Hs & Hr).
  - reflexivity.
  - vm_compute. reflexivity.
  - exists pair, value, aux, jacobian. done.
Defined.

Lemma aux_passthrough_witness :
  ∃ k primary auxiliary y aux jacobian,
    py_tuple [Leaf (ReduceSum (IntegerPow (Pos 0 0) 2));
              Leaf (ReduceSum (Pos 0 0))]
      = Node k [primary; auxiliary] ∧ (k = KTuple ∨ k = KList) ∧
    py_call (PyFunction primary) [arange3 float64] ∅ = Ok y ∧
    py_call (PyFunction auxiliary) [arange3 float64] ∅ = Ok aux ∧
    py_tuple [py_tuple [scalar float64 5%float; scalar float64 3%float];
              vector float64 [0; 2; 4]%float]
      = py_tuple [py_tuple [y; aux]; jacobian] ∧
    jacfun (PyFunction primary) (Single 0) false false [arange3 float64] ∅
      = Ok (py_tuple [y; jacobian]).
Proof.
  apply (proj1 aux_passthrough float float_scalar).
  vm_compute. reflexivity.
Defined.

Lemma jacobian_structure_witness :
  ∃ y jac blocks,
    py_tuple [vector float64 [21; 55]%float;
              py_tuple [Leaf (Array float64 [2; 2] [7; 0; 0; 11]%float);
                        Leaf (Array float64 [2; 2] [3; 0; 0; 5]%float)]]
      = py_tuple [y; tree_join blocks] ∧
    tree_structure (tree_join blocks)
      = treedef_compose (tree_structure y) (tree_structure pair_of_vectors) ∧
    Forall2 (λ ys block, reassembled pair_of_vectors ys.1 ys.2 block)
      (zip (tree_leaves y) (tree_leaves jac)) (tree_leaves blocks).
Proof.
  destruct (jacobian_structure_preserved product_fn 0 false false
              [pair_of_vectors] ∅ pair_of_vectors
              (py_tuple [vector float64 [21; 55]%float;
                 py_tuple [Leaf (Array float64 [2; 2] [7; 0; 0; 11]%float);
                           Leaf (Array float64 [2; 2] [3; 0; 0; 5]%float)]]))
    as (f_partial & basis & y & jac & aux & blocks
        & _ & _ & _ & _ & Hr & _ & _ & _ & Hs & Hre).
  - repeat constructor.
  - apply map_Forall_empty.
  - reflexivity.
  - by left.
  - vm_compute. reflexivity.
  - exists y, jac, blocks. done.
Defined.

Lemma _jvp_eager_errors_witness :
  raises (_jvp (wrap_init docstring_g ∅) (py_tuple [arange3 float64])
            (Node KList [tangent_of float64 [1; 0; 0]%float]) false)
    (JvpTreeStructure (py_tuple [Leaf ()]) (Node KList [Leaf ()]))
    ArgumentStructureError ∧
  raises (_jvp (wrap_init docstring_g ∅) (py_tuple [arange3 float64])
            (py_tuple [tangent_of float32 [1; 0; 0]%float]) false)
    (JvpDtype float64 float64 float32) DtypeMismatchError ∧
  raises (_jvp (wrap_init docstring_g ∅) (py_tuple [arange3 float64])
            (py_tuple [tangent_of float64 [1; 0]%float]) false)
    (JvpShape [3] [2]) ShapeMismatchError ∧
  (∃ pt, pt ∈ [(Array float64 [3] [0; 1; 2]%float,
                Concrete (Array float64 [2] [1; 0]%float))] ∧
     ¬ pair_ok pt ∧
     ∀ f has_aux,
       raises (_jvp f (py_tuple [arange3 float64])
                 (py_tuple [tangent_of float64 [1; 0]%float]) has_aux)
         (pair_error pt) (pair_error_kind pt)).
Proof.
  split; [|split; [|split]].
  - by apply (proj1 (proj2 (_jvp_eager_errors (py_tuple [arange3 float64])
                (Node KList [tangent_of float64 [1; 0; 0]%float])))).
  - apply (proj1 (proj2 (proj2 (_jvp_eager_errors (py_tuple [arange3 float64])
             (py_tuple [tangent_of float32 [1; 0; 0]%float]))))
             eq_refl eq_refl eq_refl []
             (Array float64 [3] [0; 1; 2]%float,
              Concrete (Array float32 [3] [1; 0; 0]%float)) []);
      [reflexivity|constructor|by intros [? _]].
  - apply (proj1 (proj2 (proj2 (_jvp_eager_errors (py_tuple [arange3 float64])
             (py_tuple [tangent_of float64 [1; 0]%float]))))
             eq_refl eq_refl eq_refl []
             (Array float64 [3] [0; 1; 2]%float,
              Concrete (Array float64 [2] [1; 0]%float)) []);
      [reflexivity|constructor|by intros [_ ?]].
  - apply (proj2 (proj2 (proj2 (_jvp_eager_errors (py_tuple [arange3 float64])
             (py_tuple [tangent_of float64 [1; 0]%float]))))
             eq_refl eq_refl eq_refl).
    intros [_ ?]%Forall_inv. done.
Defined.

Lemma dtype_rejection_witness :
  (∃ d, is_inexact d = false ∧
     ∀ fun_ kwargs has_aux,
       raises (jacfun fun_ (Single 0) false has_aux [int_input] kwargs)
         (CheckInputDtype d) InputDtypeError) ∧
  (∃ d, is_floating d = false ∧
     raises (jacfun to_complex (Single 0) false false [arange3 float32] ∅)
       (CheckOutputDtype d) OutputDtypeError).
Proof.
  split.
  - apply (proj1 (dtype_rejection (Single 0) [int_input] [int_input]
                    ltac:(repeat constructor))).
    exists (Array int32 [2] [1; 2]%float). split; [|reflexivity].
    apply list_elem_of_here.
  - destruct (proj2 (dtype_rejection (Single 0) [arange3 float32]
                       [arange3 float32] ltac:(repeat constructor))
                ltac:(repeat constructor) to_complex ∅ false
                (Leaf (Array complex64 [3] [0; 1; 2]%float))
                (Leaf (Array complex64 [3] [0; 1; 2]%float))
                (Node KNone []) eq_refl eq_refl)
      as (f_partial & basis & jac & d & _ & _ & _ & Hd & Hr).
    + exists (Array complex64 [3] [0; 1; 2]%float). split; [|reflexivity].
      apply list_elem_of_here.
    + by exists d.
Defined.



Lemma validate_callable_witness :
  raises (value_and_jacfwd (E:=float) PyOther ArgOther false false)
    CheckCallable NotCallableError.
Proof. by apply (proj1 (validate_callable_first PyOther)). Defined.


(** The further properties, at concrete inputs. *)

Lemma _jvp_returns_fun_value_witness :
  ∃ ydot,
    _jvp (wrap_init docstring_g ∅) (py_tuple [arange3 float64])
      (py_tuple [tangent_of float64 [0; 1; 0]%float]) false
    = Ok (scalar float64 5%float, ydot).
Proof.
  apply (proj2 (proj1 (_jvp_returns_fun_value (wrap_init docstring_g ∅)
                         (py_tuple [arange3 float64])
                         (py_tuple [tangent_of float64 [0; 1; 0]%float])
                         eq_refl eq_refl eq_refl ltac:(repeat constructor))
                  (scalar float64 5%float))).
  vm_compute. reflexivity.
Defined.

Lemma _jvp_propagates_exception_witness :
  _jvp (wrap_init scale_fn ∅) (py_tuple [arange3 float64])
    (py_tuple [tangent_of float64 [0; 1; 0]%float]) true
  = Raise (FnRaised (NoSuchKeyword "k" 0)).
Proof.
  apply (_jvp_propagates_exception (wrap_init scale_fn ∅)
           (py_tuple [arange3 float64])
           (py_tuple [tangent_of float64 [0; 1; 0]%float])
           (FnRaised (NoSuchKeyword "k" 0))
           eq_refl eq_refl eq_refl ltac:(repeat constructor)).
  vm_compute. reflexivity.
Defined.

Lemma _jvp_output_conforms_witness :
  tree_structure (Leaf (Concrete (Array float64 [] [2%float])))
    = tree_structure (scalar float64 5%float) ∧
  Forall pair_ok
    (zip (tree_leaves (scalar float64 5%float))
       (tree_leaves (Leaf (Concrete (Array float64 [] [2%float]))))).
Proof.
  apply (proj1 (_jvp_output_conforms (wrap_init docstring_g ∅)
                  (py_tuple [arange3 float64])
                  (py_tuple [tangent_of float64 [0; 1; 0]%float]))).
  vm_compute. reflexivity.
Defined.

Lemma _jvp_aux_is_second_output_witness :
  ∃ k auxdot,
    (k = KTuple ∨ k = KList) ∧
    call_wrapped (wrap_init docstring_f ∅) [arange3 float64]
      = Ok (Node k [scalar float64 5%float; scalar float64 3%float]) ∧
    _jvp (wrap_init docstring_f ∅) (py_tuple [arange3 float64])
      (py_tuple [tangent_of float64 [0; 1; 0]%float]) false
    = Ok (Node k [scalar float64 5%float; scalar float64 3%float],
          Node k [Leaf (Concrete (Array float64 [] [2%float])); auxdot]).
Proof.
  apply (_jvp_aux_is_second_output (wrap_init docstring_f ∅)
           (py_tuple [arange3 float64])
           (py_tuple [tangent_of float64 [0; 1; 0]%float])).
  vm_compute. reflexivity.
Defined.

Lemma holomorphic_only_validates_witness :
  jacfun docstring_g (Single 0) true false [arange3 float64] ∅
    = Ok (py_tuple [scalar float64 5%float; vector float64 [0; 2; 4]%float]) ∨
  fails_with (jacfun docstring_g (Single 0) true false [arange3 float64] ∅)
    InputDtypeError ∨
  fails_with (jacfun docstring_g (Single 0) true false [arange3 float64] ∅)
    OutputDtypeError.
Proof.
  apply (holomorphic_only_validates docstring_g (Single 0) false false
           [arange3 float64] ∅).
  vm_compute. reflexivity.
Defined.

Lemma singleton_argnums_wraps_witness :
  ∃ y (aux : pytree (array float)) blocks,
    tree_structure blocks = tree_structure y ∧
    py_tuple [scalar float64 5%float; vector float64 [0; 2; 4]%float]
      = py_tuple [y; tree_join blocks] ∧
    jacfun docstring_g (Many [0]) false false [arange3 float64] ∅
      = Ok (py_tuple [y; tree_join (tree_map (λ b, py_tuple [b]) blocks)]).
Proof.
  apply (proj1 (singleton_argnums_wraps docstring_g 0 false false
                  [arange3 float64] ∅)).
  vm_compute. reflexivity.
Defined.

Lemma jacfun_propagates_exception_witness :
  jacfun scale_fn (Single 0) false false [arange3 float64] ∅
  = Raise (FnRaised (NoSuchKeyword "k" 0)).
Proof.
  apply (jacfun_propagates_exception scale_fn (Single 0) false false
           [arange3 float64] [arange3 float64] ∅).
  - repeat constructor.
  - repeat constructor.
  - vm_compute. reflexivity.
Defined.

Lemma jacobian_of_several_arguments_witness :
  ∃ y jac blocks,
    py_tuple [vector float64 [21; 55]%float;
              py_tuple [Leaf (Array float64 [2; 2] [7; 0; 0; 11]%float);
                        Leaf (Array float64 [2; 2] [3; 0; 0; 5]%float)]]
      = py_tuple [y; tree_join blocks] ∧
    Forall2 (λ ys block,
               (∃ entries, block = py_tuple entries ∧
                  Forall2 (λ x entry, tree_structure entry = tree_structure x)
                    [vector float64 [3; 5]%float;
                     vector float64 [7; 11]%float] entries) ∧
               reassembled
                 (py_tuple [vector float64 [3; 5]%float;
                            vector float64 [7; 11]%float])
                 ys.1 ys.2 block)
      (zip (tree_leaves y) (tree_leaves jac)) (tree_leaves blocks).
Proof.
  destruct (jacobian_of_several_arguments product2_fn [0; 1] false false
              [vector float64 [3; 5]%float; vector float64 [7; 11]%float]
              [vector float64 [3; 5]%float; vector float64 [7; 11]%float] ∅
              (py_tuple [vector float64 [21; 55]%float;
                 py_tuple [Leaf (Array float64 [2; 2] [7; 0; 0; 11]%float);
                           Leaf (Array float64 [2; 2] [3; 0; 0; 5]%float)]]))
    as (f_partial & basis & y & jac & aux & blocks
        & _ & _ & _ & _ & Hr & _ & Hre).
  - repeat constructor.
  - apply map_Forall_empty.
  - repeat constructor.
  - by left.
  - vm_compute. reflexivity.
  - exists y, jac, blocks. done.
Defined.

Lemma jacfun_of_container_witness :
  ∃ ys Js,
    py_tuple [py_tuple [scalar float64 5%float; scalar float64 3%float];
              py_tuple [vector float64 [0; 2; 4]%float;
                        vector float64 [1; 1; 1]%float]]
      = py_tuple [Node KTuple ys; Node KTuple Js] ∧
    Forall3 (λ body y J,
               jacfun (PyFunction body) (Single 0) false false
                 [arange3 float64] ∅ = Ok (py_tuple [y; J]))
      [square_sum; plain_sum] ys Js.
Proof.
  apply (proj1 (jacfun_of_container KTuple [square_sum; plain_sum] (Single 0)
                  false [arange3 float64] ∅)).
  vm_compute. reflexivity.
Defined.

Lemma has_aux_selects_primary_witness :
  ∃ k y aux J Jaux,
    (k = KTuple ∨ k = KList) ∧
    py_call docstring_f [arange3 float64] ∅ = Ok (Node k [y; aux]) ∧
    py_tuple [py_tuple [scalar float64 5%float; scalar float64 3%float];
              vector float64 [0; 2; 4]%float]
      = py_tuple [py_tuple [y; aux]; J] ∧
    py_tuple [py_tuple [scalar float64 5%float; scalar float64 3%float];
              py_tuple [vector float64 [0; 2; 4]%float;
                        vector float64 [1; 1; 1]%float]]
      = py_tuple [Node k [y; aux]; Node k [J; Jaux]].
Proof.
  apply (has_aux_selects_primary docstring_f (Single 0) false
           [arange3 float64] ∅).
  - vm_compute. reflexivity.
  - vm_compute. reflexivity.
Defined.

Lemma stacked_columns_are_jvps_witness :
  _jvp {| wf_fun := docstring_g; wf_kwargs := ∅;
          wf_partial := Some ([0], [None]) |}
    (py_tuple [arange3 float64])
    (basis_direction
       (Batch 3 (py_tuple [Leaf (Array float64 [3; 3]
                                   [1; 0; 0; 0; 1; 0; 0; 0; 1]%float)])) 1)
    false
  = Ok (scalar float64 5%float,
        tree_map (λ s, Concrete (last_axis_index 1 s))
          (vector float64 [0; 2; 4]%float)).
Proof.
  apply (stacked_columns_are_jvps docstring_g ∅ (Single 0) [arange3 float64]
           {| wf_fun := docstring_g; wf_kwargs := ∅;
              wf_partial := Some ([0], [None]) |}
           (py_tuple [arange3 float64]) false
           (Batch 3 (py_tuple [Leaf (Array float64 [3; 3]
                                       [1; 0; 0; 0; 1; 0; 0; 0; 1]%float)]))
           (scalar float64 5%float) (vector float64 [0; 2; 4]%float)
           (Node KNone [])).
  - repeat constructor.
  - apply map_Forall_empty.
  - vm_compute. reflexivity.
  - vm_compute. reflexivity.
  - vm_compute. reflexivity.
  - simpl. lia.
Defined.
